(** * buttond: key state machine, timeout scheduler and action matcher

    A shallow embedding of [buttond.c] (the current revision, with
    [handle_input_event], [reopen_input] and the [time_gettime] /
    [time_add_ts] helpers) and of the earlier single-file revision (the one
    that defines [time_diff_ts], [time_tv2ts], ... inline and aborts on
    HUP/ERR).  Definitions taken from the earlier revision carry the suffix
    [_old] when both revisions define the function differently.

    Integer model (LP64 Linux): [int] is 32-bit, [long], [time_t],
    [suseconds_t] and [int64_t] are 64-bit, all two's complement.  Every
    arithmetic result is wrapped to the width of its C type; C's [/] and [%]
    are [Z.quot] and [Z.rem] (truncation toward zero). *)

From stdpp Require Import base list strings.
From Stdlib Require Import ZArith Lia Sorting.Sorted Sorting.Permutation.

#[local] Open Scope Z_scope.

(** ** Machine integers *)

Definition wrap (w : Z) (z : Z) : Z := (z + 2 ^ (w - 1)) `mod` 2 ^ w - 2 ^ (w - 1).

Definition wrap32 : Z → Z := wrap 32.
Definition wrap64 : Z → Z := wrap 64.

Definition INT_MIN : Z := - 2 ^ 31.
Definition INT_MAX : Z := 2 ^ 31 - 1.
Definition LONG_MIN : Z := - 2 ^ 63.
Definition LONG_MAX : Z := 2 ^ 63 - 1.

Definition in_int (z : Z) : Prop := INT_MIN ≤ z ≤ INT_MAX.
Definition in_long (z : Z) : Prop := LONG_MIN ≤ z ≤ LONG_MAX.

(** [long] arithmetic: the operands are already of type [long] (after the
    usual arithmetic conversions), the result is wrapped. *)
Definition ladd (a b : Z) : Z := wrap64 (a + b).
Definition lsub (a b : Z) : Z := wrap64 (a - b).
Definition lmul (a b : Z) : Z := wrap64 (a * b).
Definition ldiv (a b : Z) : Z := wrap64 (a ÷ b).
Definition lrem (a b : Z) : Z := wrap64 (Z.rem a b).

(** ** Time arithmetic *)

Definition NSECS_IN_SEC : Z := 1000000000.
Definition NSECS_IN_MSEC : Z := 1000000.
Definition NSECS_IN_USEC : Z := 1000.
Definition USECS_IN_SEC : Z := 1000000.
Definition USECS_IN_MSEC : Z := 1000.

(** [struct timeval]: [tv_sec], [tv_usec]. *)
Record timeval := Timeval { tv_sec : Z; tv_usec : Z }.

(** [struct timespec]: its C fields are [tv_sec] and [tv_nsec]; the first is
    spelled [ts_sec] here because [tv_sec] already names the [timeval]
    projection. *)
Record timespec := Timespec { ts_sec : Z; tv_nsec : Z }.

(** time difference in msecs *)
Definition time_diff_ts (ts1 ts2 : timespec) : Z :=
  ladd (ldiv (lsub (tv_nsec ts1) (tv_nsec ts2)) NSECS_IN_MSEC)
       (lmul (lsub (ts_sec ts1) (ts_sec ts2)) 1000).

Definition time_diff_tv (tv1 tv2 : timeval) : Z :=
  ladd (ldiv (lsub (tv_usec tv1) (tv_usec tv2)) USECS_IN_MSEC)
       (lmul (lsub (tv_sec tv1) (tv_sec tv2)) 1000).

(** convert timeval to timespec and add offset msec *)
Definition time_tv2ts (base : timeval) (msec : Z) : timespec :=
  let nsec := ladd (lmul (tv_usec base) NSECS_IN_USEC) (lmul msec NSECS_IN_MSEC) in
  let sec := ladd (tv_sec base) (ldiv nsec NSECS_IN_SEC) in
  Timespec sec (lrem nsec NSECS_IN_SEC).

(** convert timespec to timeval and add offset msec *)
Definition time_ts2tv (base : timespec) (msec : Z) : timeval :=
  let usec := ladd (ldiv (tv_nsec base) NSECS_IN_USEC) (lmul msec USECS_IN_MSEC) in
  let sec := ladd (ts_sec base) (ldiv usec USECS_IN_SEC) in
  Timeval sec (lrem usec USECS_IN_SEC).

(** Modelled from the spec: [time_add_ts] is declared in [time_utils.h],
    which is not part of the sources at hand.  The spec (4.1) describes it
    as: add a millisecond offset to a timestamp producing a new timestamp,
    normalizing overflow into the seconds field.  It is written in the style
    of [time_tv2ts].  ([time_gettime], from the same header, reads the
    monotonic clock; its result is the argument [now] of the functions
    that call it.) *)
Definition time_add_ts (ts : timespec) (msec : Z) : timespec :=
  let nsec := ladd (tv_nsec ts) (lmul msec NSECS_IN_MSEC) in
  let sec := ladd (ts_sec ts) (ldiv nsec NSECS_IN_SEC) in
  Timespec sec (lrem nsec NSECS_IN_SEC).

(** Exact value of a timestamp, and normal forms. *)
Definition ns_of_ts (ts : timespec) : Z := ts_sec ts * NSECS_IN_SEC + tv_nsec ts.
Definition us_of_tv (tv : timeval) : Z := tv_sec tv * USECS_IN_SEC + tv_usec tv.
Definition ns_of_tv (tv : timeval) : Z := us_of_tv tv * NSECS_IN_USEC.

Definition normal_ts (ts : timespec) : Prop := 0 ≤ tv_nsec ts < NSECS_IN_SEC.
Definition normal_tv (tv : timeval) : Prop := 0 ≤ tv_usec tv < USECS_IN_SEC.

(** Seconds since boot stay far below 2^50 (35 million years).  [wide_ts]
    and [wide_tv] leave room for a deadline computed from such a time. *)
Definition SEC_BOUND : Z := 2 ^ 50.
Definition realistic_tv (tv : timeval) : Prop := - SEC_BOUND ≤ tv_sec tv ≤ SEC_BOUND.
Definition realistic_ts (ts : timespec) : Prop := - SEC_BOUND ≤ ts_sec ts ≤ SEC_BOUND.
Definition wide_tv (tv : timeval) : Prop := - 4 * SEC_BOUND ≤ tv_sec tv ≤ 4 * SEC_BOUND.
Definition wide_ts (ts : timespec) : Prop := - 4 * SEC_BOUND ≤ ts_sec ts ≤ 4 * SEC_BOUND.

(** ** Data model *)

(** [enum type]: type of action (long/short press). *)
Inductive type := LONG_PRESS | SHORT_PRESS.

(** [struct action].  The C field [action] (the command to run, a nullable
    [char const *]) is the projection [command]: [None] is the NULL pointer. *)
Record action := Action {
  a_type : type;
  trigger_time : Z;            (* int: cutoff time for action *)
  command : option string;
}.

(** [enum key_state]. *)
Inductive key_state := KEY_RELEASED | KEY_PRESSED | KEY_DEBOUNCE | KEY_HANDLED.

(** [struct key].  The heap array [actions] with its length [action_count]
    is the list [actions]. *)
Record key := Key {
  code : Z;                    (* uint16_t *)
  has_wakeup : bool;
  actions : list action;
  tv_pressed : timeval;
  tv_released : timeval;
  ts_wakeup : timespec;
  state : key_state;
}.

Definition action_count (k : key) : nat := length (actions k).

Definition set_has_wakeup (b : bool) (k : key) : key :=
  Key (code k) b (actions k) (tv_pressed k) (tv_released k) (ts_wakeup k) (state k).
Definition set_actions (l : list action) (k : key) : key :=
  Key (code k) (has_wakeup k) l (tv_pressed k) (tv_released k) (ts_wakeup k) (state k).
Definition set_tv_pressed (tv : timeval) (k : key) : key :=
  Key (code k) (has_wakeup k) (actions k) tv (tv_released k) (ts_wakeup k) (state k).
Definition set_tv_released (tv : timeval) (k : key) : key :=
  Key (code k) (has_wakeup k) (actions k) (tv_pressed k) tv (ts_wakeup k) (state k).
Definition set_ts_wakeup (ts : timespec) (k : key) : key :=
  Key (code k) (has_wakeup k) (actions k) (tv_pressed k) (tv_released k) ts (state k).
Definition set_state (s : key_state) (k : key) : key :=
  Key (code k) (has_wakeup k) (actions k) (tv_pressed k) (tv_released k) (ts_wakeup k) s.

(** [struct input_event] of <linux/input.h>: [time], [type] (u16), [code]
    (u16), [value] (s32). *)
Record input_event := InputEvent {
  ev_time : timeval;
  ev_type : Z;
  ev_code : Z;
  ev_value : Z;
}.

Definition DEFAULT_LONG_PRESS_MSECS : Z := 5000.
Definition DEFAULT_SHORT_PRESS_MSECS : Z := 1000.
Definition DEBOUNCE_MSECS : Z := 10.

(** ** Observable behaviour

    Functions that print, run commands or call into the state machine
    return the list of what they did, in order.  [FindKeyAction] and
    [HandleKey] are not output of the program: they record the calls of
    [find_key_action] and [handle_key], so that statements can count them. *)

Inductive message :=
| MsgKey (filename : string) (event : input_event) (text : string)  (* print_key, type 1 *)
| MsgOther (filename : string) (event : input_event) (text : string) (* print_key, default *)
| MsgAhead (diff : Z)                     (* "we are %ld ahead of timeout" *)
| MsgRunning (cmd : option string) (diff : Z)   (* "running %s after %d ms" *)
| MsgIgnoring (c : Z) (diff : Z)          (* "ignoring key %d released after %d ms" *)
| MsgHupErr (filename : string)           (* "got HUP/ERR on %s..." on stderr *)
| MsgBadSize (n : Z)                      (* "Read something that is not a multiple..." *)
| MsgReadError (n : Z)                    (* "read error: %d" *)
| MsgPartial (filename : string) (n : Z). (* "got a partial read from %s: %d. Aborting." *)

Inductive call :=
| Printf (m : message)
| System (cmd : option string)
| FindKeyAction (c : Z) (time : Z) (res : option action)
| HandleKey (i : nat) (event : input_event)
| Close (fd : Z)
| Open (filename : string).

(** ** Key state machine *)

(** [&key->actions[key->action_count-1]], read: out of bounds when the key
    has no action. *)
Definition last_action (k : key) : option action :=
  match action_count k with
  | O => None
  | S i => actions k !! i
  end.

(** [handle_key] of buttond.c.  [now] is what [time_gettime] reads.  [None]:
    the read of the last action is out of bounds. *)
Definition handle_key (now : timespec) (event : input_event) (k : key) : option key :=
  match state k with
  | KEY_RELEASED | KEY_DEBOUNCE =>
      if ev_value event =? 0 then Some k
      else
        (* don't reset timestamp/wakeup on debounce *)
        let k1 := match state k with
                  | KEY_RELEASED => set_tv_pressed (ev_time event) k
                  | _ => k
                  end in
        let k2 := set_state KEY_PRESSED k1 in
        match last_action k2 with
        | None => None
        | Some a =>
            match a_type a with
            | LONG_PRESS =>
                Some (set_ts_wakeup (time_tv2ts (tv_pressed k2) (trigger_time a))
                        (set_has_wakeup true k2))
            | SHORT_PRESS =>
                (* ... but make sure we cancel any other remaining wakeup *)
                Some (set_has_wakeup false k2)
            end
        end
  | KEY_PRESSED =>
      (* ignore repress *)
      if negb (ev_value event =? 0) then Some k
      else
        Some (set_ts_wakeup (time_add_ts now DEBOUNCE_MSECS)
                (set_has_wakeup true
                   (set_tv_released (ev_time event)
                      (set_state KEY_DEBOUNCE k))))
  | KEY_HANDLED =>
      (* ignore until key down *)
      if negb (ev_value event =? 0) then Some k
      else Some (set_state KEY_RELEASED k)
  end.

(** [handle_key] of the earlier revision: no cancellation of a remaining
    wakeup, and the debounce deadline is counted from [tv_pressed]. *)
Definition handle_key_old (event : input_event) (k : key) : option key :=
  match state k with
  | KEY_RELEASED | KEY_DEBOUNCE =>
      if ev_value event =? 0 then Some k
      else
        let k1 := match state k with
                  | KEY_RELEASED => set_tv_pressed (ev_time event) k
                  | _ => k
                  end in
        let k2 := set_state KEY_PRESSED k1 in
        match last_action k2 with
        | None => None
        | Some a =>
            match a_type a with
            | LONG_PRESS =>
                Some (set_ts_wakeup (time_tv2ts (tv_pressed k2) (trigger_time a))
                        (set_has_wakeup true k2))
            | SHORT_PRESS => Some k2
            end
        end
  | KEY_PRESSED =>
      if negb (ev_value event =? 0) then Some k
      else
        Some (set_ts_wakeup (time_tv2ts (tv_pressed k) DEBOUNCE_MSECS)
                (set_has_wakeup true
                   (set_tv_released (ev_time event)
                      (set_state KEY_DEBOUNCE k))))
  | KEY_HANDLED =>
      if negb (ev_value event =? 0) then Some k
      else Some (set_state KEY_RELEASED k)
  end.

(** ** Timeout scheduler and action matcher *)

(** One iteration of the loop of [compute_timeout]; [timeout] is an [int],
    [diff] an [int64_t] that is narrowed when stored. *)
Definition compute_timeout_step (now : timespec) (timeout : Z) (k : key) : Z :=
  if has_wakeup k then
    let diff := time_diff_ts (ts_wakeup k) now in
    if diff <? 0 then 0
    else if (timeout =? -1) || (diff <? timeout) then wrap32 diff
    else timeout
  else timeout.

Definition compute_timeout (now : timespec) (keys : list key) : Z :=
  fold_left (compute_timeout_step now) keys (-1).

Definition action_match (a : action) (time : Z) : bool :=
  match a_type a with
  | LONG_PRESS => trigger_time a <=? time
  | SHORT_PRESS => time <? trigger_time a
  end.

(** The loop of [find_key_action]: [n] is [i + 1], the indexes [n-1 .. 0]
    are still to be checked. *)
Fixpoint find_from (acts : list action) (time : Z) (n : nat) : option action :=
  match n with
  | O => None
  | S i =>
      match acts !! i with
      | Some a => if action_match a time then Some a else find_from acts time i
      | None => None
      end
  end.

(** check from the end to get the best match *)
Definition find_key_action (k : key) (time : Z) : option action :=
  find_from (actions k) time (action_count k).

(** The body of the loop of [handle_timeouts] for one key. *)
Definition handle_timeouts_key (debug : Z) (now : timespec) (k : key) : key * list call :=
  if has_wakeup k && (time_diff_ts (ts_wakeup k) now <=? 0) then
    let t0 := if 3 <? debug then [Printf (MsgAhead (time_diff_ts (ts_wakeup k) now))] else [] in
    let k1 := match state k with
              | KEY_DEBOUNCE => k
              | _ => (* key still pressed - set artifical release time *)
                  set_tv_released (time_ts2tv now 0) k
              end in
    let diff := time_diff_tv (tv_released k1) (tv_pressed k1) in
    let found := find_key_action k1 (wrap32 diff) in
    let t1 := match found with
              | Some a =>
                  (if negb (debug =? 0) then [Printf (MsgRunning (command a) diff)] else [])
                  ++ [System (command a)]
              | None =>
                  if negb (debug =? 0) then [Printf (MsgIgnoring (code k1) diff)] else []
              end in
    let k2 := set_has_wakeup false k1 in
    let k3 := match state k2 with
              | KEY_DEBOUNCE => set_state KEY_RELEASED k2
              | _ => set_state KEY_HANDLED k2
              end in
    (k3, t0 ++ FindKeyAction (code k1) (wrap32 diff) found :: t1)
  else (k, []).

Fixpoint handle_timeouts (debug : Z) (now : timespec) (keys : list key) : list key * list call :=
  match keys with
  | [] => ([], [])
  | k :: rest =>
      let '(k', t) := handle_timeouts_key debug now k in
      let '(rest', t') := handle_timeouts debug now rest in
      (k' :: rest', t ++ t')
  end.

(** ** Input events *)

Definition print_key (debug : Z) (event : input_event) (filename text : string) : list call :=
  if debug <? 1 then []
  else
    let fname := if 2 <? debug then filename else EmptyString in
    match ev_type event with
    | 0 => []
    | 1 => [Printf (MsgKey fname event text)]
    | _ => [Printf (MsgOther fname event text)]
    end.

(** The search loop for the key of a code: index of the first match. *)
Fixpoint find_key_from (keys : list key) (c : Z) (i : nat) : option nat :=
  match keys with
  | [] => None
  | k :: rest => if code k =? c then Some i else find_key_from rest c (S i)
  end.

Definition find_key (keys : list key) (c : Z) : option nat := find_key_from keys c 0.

(** [handle_input_event]: the table after the event ([None] when
    [handle_key] reads out of bounds) and what was done. *)
Definition handle_input_event (debug : Z) (now : timespec) (event : input_event)
    (keys : list key) (filename : string) : option (list key) * list call :=
  (* ignore non-keyboard events *)
  if negb (ev_type event =? 1) then
    (Some keys,
     if 2 <? debug then print_key debug event filename "non-keyboard event ignored" else [])
  else
    match find_key keys (ev_code event) with
    | None =>
        (* ignore unconfigured key *)
        (Some keys, if 1 <? debug then print_key debug event filename "ignored" else [])
    | Some i =>
        let t := print_key debug event filename "processing" ++ [HandleKey i event] in
        match keys !! i with
        | Some k =>
            match handle_key now event k with
            | Some k' => (Some (<[i := k']> keys), t)
            | None => (None, t)
            end
        | None => (None, t)
        end
    end.

(** ** Scenarios

    What the dispatch loop does to the key table between two waits, in the
    order of [main]: [handle_timeouts] with the clock reading of that
    moment, or [handle_input_event] for one decoded record. *)

Inductive step :=
| Tick (now : timespec)
| Input (now : timespec) (event : input_event).

Definition do_step (debug : Z) (filename : string) (s : step) (keys : list key)
    : option (list key) * list call :=
  match s with
  | Tick now => let '(keys', t) := handle_timeouts debug now keys in (Some keys', t)
  | Input now event => handle_input_event debug now event keys filename
  end.

Fixpoint run (debug : Z) (filename : string) (steps : list step) (keys : list key)
    : option (list key) * list call :=
  match steps with
  | [] => (Some keys, [])
  | s :: rest =>
      match do_step debug filename s keys with
      | (Some keys', t) =>
          let '(r, t') := run debug filename rest keys' in (r, t ++ t')
      | (None, t) => (None, t)
      end
  end.

(** The calls of [find_key_action] and the commands run, in a trace. *)
Definition is_find (c : call) : bool :=
  match c with FindKeyAction _ _ _ => true | _ => false end.
Definition is_system (c : call) : bool :=
  match c with System _ => true | _ => false end.
Definition is_handle_key (c : call) : bool :=
  match c with HandleKey _ _ => true | _ => false end.

Definition finds (t : list call) : list call := List.filter is_find t.
Definition systems (t : list call) : list call := List.filter is_system t.

(** ** Action order *)

Definition is_short (a : action) : bool :=
  match a_type a with SHORT_PRESS => true | LONG_PRESS => false end.

(** Number of short actions of a list. *)
Definition n_short (l : list action) : nat := length (List.filter is_short l).

Definition short_first (l : list action) : Prop :=
  ∀ i a, l !! i = Some a → a_type a = SHORT_PRESS → i = 0%nat.

Definition long_ascending (l : list action) : Prop :=
  ∀ i j a b, (i < j)%nat → l !! i = Some a → l !! j = Some b →
    a_type a = LONG_PRESS → a_type b = LONG_PRESS → trigger_time a ≤ trigger_time b.


(** short first, then long actions by ascending trigger time *)
Definition sorted_actions (l : list action) : Prop := short_first l ∧ long_ascending l.

(** ** Configuration *)

Definition sort_actions_compare (a1 a2 : action) : Z :=
  match a_type a1 with
  | SHORT_PRESS => -1
  | LONG_PRESS =>
      match a_type a2 with
      | SHORT_PRESS => 1
      | LONG_PRESS =>
          if trigger_time a1 <? trigger_time a2 then -1
          else if trigger_time a2 <? trigger_time a1 then 1
          else 0
      end
  end.

(** What the comparator makes of two elements in sorted order. *)
Definition compare_le (a1 a2 : action) : Prop := sort_actions_compare a1 a2 ≤ 0.

(** [qsort] is the C library's; the standard fixes its result (a permutation
    in ascending order of the comparator), not its algorithm, and only for
    a comparator that orders the elements consistently, as
    [sort_actions_compare] does when at most one of them is a short action.
    The development takes the function as a parameter with that contract;
    [insertion_sort] is one function that meets it, used to run examples. *)
Definition qsort_contract (sort : list action → list action) : Prop :=
  ∀ l, (n_short l ≤ 1)%nat → l ≡ₚ sort l ∧ Sorted compare_le (sort l).

Fixpoint insert_sorted (x : action) (l : list action) : list action :=
  match l with
  | [] => [x]
  | y :: l' =>
      if sort_actions_compare x y <=? 0 then x :: y :: l' else y :: insert_sorted x l'
  end.

Fixpoint insertion_sort (l : list action) : list action :=
  match l with
  | [] => []
  | x :: l' => insert_sorted x (insertion_sort l')
  end.

Definition sort_actions (qsort : list action → list action) (k : key) : key :=
  set_actions (qsort (actions k)) k.

(** The options of [main] that build the key table; their numeric arguments
    are given as [strtol] reads them.  The options that do not touch the
    table (-i, -I, -v, -V, -h, --test_mode) are left out. *)
Inductive opt :=
| OptShort (arg : Z)         (* -s <key> *)
| OptLong (arg : Z)          (* -l <key> *)
| OptAction (cmd : string)   (* -a <command> *)
| OptTime (arg : Z).         (* -t <time ms> *)

(** [keys] and [cur_action] of [main]; the pointer [cur_action] is the pair
    of the key's index and the action's index. *)
Record config := Config {
  cfg_keys : list key;
  cfg_cur : option (nat * nat);
}.

Definition set_command (cmd : option string) (a : action) : action :=
  Action (a_type a) (trigger_time a) cmd.
Definition set_trigger_time (t : Z) (a : action) : action :=
  Action (a_type a) t (command a).

Definition cur_action (c : config) : option action :=
  '(ki, ai) ← cfg_cur c; k ← cfg_keys c !! ki; actions k !! ai.

(** [!cur_action || cur_action->action != NULL] *)
Definition action_is_set (c : config) : bool :=
  match cfg_cur c with
  | None => true
  | Some _ =>
      match cur_action c with
      | Some a => match command a with Some _ => true | None => false end
      | None => false
      end
  end.

(** [memset(cur_key, 0, ...)], then [code] and [state]. *)
Definition new_key (c : Z) : key :=
  Key c false [] (Timeval 0 0) (Timeval 0 0) (Timespec 0 0) KEY_RELEASED.

(** [add_short_action] and [add_long_action] fill the slot after the last
    action; [None] is the exit of [xassert].  The value returned is the
    content of the slot once [main] has set its command to NULL. *)
Definition add_short_action (k : key) : option action :=
  (* can only have one short key *)
  if existsb is_short (actions k) then None
  else Some (Action SHORT_PRESS DEFAULT_SHORT_PRESS_MSECS None).

Definition add_long_action (k : key) : option action :=
  Some (Action LONG_PRESS DEFAULT_LONG_PRESS_MSECS None).

Definition update_cur (f : action → action) (c : config) : option config :=
  '(ki, ai) ← cfg_cur c;
  k ← cfg_keys c !! ki;
  a ← actions k !! ai;
  Some (Config (<[ki := set_actions (<[ai := f a]> (actions k)) k]> (cfg_keys c)) (cfg_cur c)).

(** One turn of the [getopt_long] loop; [None] is [exit(EXIT_FAILURE)]. *)
Definition parse_opt (c : config) (o : opt) : option config :=
  match o with
  | OptShort arg | OptLong arg =>
      if negb (action_is_set c) then None
      else if negb ((0 <=? arg) && (arg <=? 65535)) then None   (* strtou16 *)
      else
        let '(ki, keys1) :=
          match find_key (cfg_keys c) arg with
          | Some i => (i, cfg_keys c)
          | None => (length (cfg_keys c), cfg_keys c ++ [new_key arg])
          end in
        k ← keys1 !! ki;
        a ← match o with OptShort _ => add_short_action k | _ => add_long_action k end;
        Some (Config (<[ki := set_actions (actions k ++ [a]) k]> keys1)
                     (Some (ki, action_count k)))
  | OptAction cmd => update_cur (set_command (Some cmd)) c
  | OptTime arg =>
      match cfg_cur c with
      | None => None
      | Some _ =>
          if negb ((INT_MIN <=? arg) && (arg <=? INT_MAX)) then None   (* strtoint *)
          else update_cur (set_trigger_time (wrap32 arg)) c
      end
  end.

Fixpoint parse_opts (c : config) (opts : list opt) : option config :=
  match opts with
  | [] => Some c
  | o :: rest => c' ← parse_opt c o; parse_opts c' rest
  end.

(** The key table [main] enters its loop with: options parsed, the last
    action checked for a command, every key's actions sorted.  (The checks
    on the number of inputs and on [key_count > 0 || debug > 1] depend on
    the options left out and do not change the table.) *)
Definition configure (qsort : list action → list action) (opts : list opt)
    : option (list key) :=
  c ← parse_opts (Config [] None) opts;
  if action_is_set c then Some (sort_actions qsort <$> cfg_keys c) else None.

(** ** Dispatch loop *)

Definition EXIT_SUCCESS : Z := 0.
Definition EXIT_FAILURE : Z := 1.
Definition POLLIN : Z := 1.
Definition POLLERR : Z := 8.
Definition POLLHUP : Z := 16.

(** [sizeof(struct input_event)] *)
Definition SIZEOF_EVENT : Z := 24.

(** [struct pollfd] *)
Record pollfd := Pollfd { fd : Z; events : Z; revents : Z }.

(** How a stretch of [main] ends: still running, with a value, or by
    [exit(status)]. *)
Inductive outcome (A : Type) :=
| Running (a : A)
| Exit (status : Z).
Arguments Running {A} a.
Arguments Exit {A} status.

(** Modelled from the spec: [reopen_input] is defined in a file that is not
    part of the sources at hand.  The spec (P7, and 3. InputSource) says of
    it: the source is closed and an open attempt retried against the same
    path, with polling registration updated to the new descriptor.
    [opened] is the descriptor that open attempt returns. *)
Definition reopen_input (opened : Z) (filename : string) (p : pollfd) : pollfd * list call :=
  (Pollfd opened (events p) (revents p), [Close (fd p); Open filename]).

(** The record loop of [handle_input].  [handle_key] reads the clock anew
    for each record it times, so every record of [evs] comes with the
    reading [time_gettime] gives while that record is handled. *)
Fixpoint handle_events (debug : Z) (evs : list (timespec * input_event))
    (keys : list key) (filename : string) : option (list key) * list call :=
  match evs with
  | [] => (Some keys, [])
  | (now, event) :: rest =>
      match handle_input_event debug now event keys filename with
      | (Some keys', t) =>
          let '(r, t') := handle_events debug rest keys' filename in (r, t ++ t')
      | (None, t) => (None, t)
      end
  end.

(** [handle_input] of buttond.c.  [reads] are the successive results of
    [read_safe] on the descriptor: the count returned and the records the
    buffer then holds, each with the clock reading of the moment it is
    handled; when the list is used up [read_safe] returns 0.  The result is
    the value returned, the key table and what was done. *)
Fixpoint handle_input (debug : Z) (reads : list (Z * list (timespec * input_event)))
    (keys : list key) (filename : string) : Z * option (list key) * list call :=
  match reads with
  | [] => (0, Some keys, [])
  | (n, buf) :: rest =>
      if 0 <? n then
        if negb (Z.rem n SIZEOF_EVENT =? 0) then (-1, Some keys, [Printf (MsgBadSize n)])
        else
          match handle_events debug (take (Z.to_nat (n ÷ SIZEOF_EVENT)) buf) keys filename with
          | (Some keys', t) =>
              let '(r, ks, t') := handle_input debug rest keys' filename in
              (r, ks, t ++ t')
          | (None, t) => (0, None, t)
          end
      else if n <? 0 then (-1, Some keys, [Printf (MsgReadError (- n))])
      else (0, Some keys, [])
  end.

(** The body of the loop over the input sources in [main] of buttond.c, for
    the source [filename] registered as [p].  [opens] are the descriptors
    that the open attempts of this turn return, [reads] what can be read
    from a descriptor. *)
Definition dispatch_source (test_mode : bool) (debug : Z)
    (opens : list Z) (reads : Z → list (Z * list (timespec * input_event)))
    (filename : string) (p : pollfd) (keys : list key)
    : outcome (pollfd * option (list key)) * list call :=
  if revents p =? 0 then (Running (p, Some keys), [])
  else
    let hup := Z.land (revents p) POLLIN =? 0 in
    if hup && test_mode then (Exit 0, [])
    else
      let '(p1, t1, opens1) :=
        if hup then
          let '(p', t) := reopen_input (default (-1) (head opens)) filename p in
          (p', Printf (MsgHupErr filename) :: t, tail opens)
        else (p, [], opens) in
      let '(r, ks, t2) := handle_input debug (reads (fd p1)) keys filename in
      if negb (r =? 0) then
        let '(p2, t3) := reopen_input (default (-1) (head opens1)) filename p1 in
        (Running (p2, ks), t1 ++ t2 ++ t3)
      else (Running (p1, ks), t1 ++ t2).

(** The record handling inlined in [handle_input] of the earlier revision. *)
Definition handle_input_event_old (debug : Z) (event : input_event)
    (keys : list key) (filename : string) : option (list key) * list call :=
  if negb (ev_type event =? 1) then
    (Some keys,
     if 2 <? debug then print_key debug event filename "non-keyboard event ignored" else [])
  else
    match find_key keys (ev_code event) with
    | None =>
        (Some keys, if 1 <? debug then print_key debug event filename "ignored" else [])
    | Some i =>
        let t := print_key debug event filename "processing" ++ [HandleKey i event] in
        match keys !! i with
        | Some k =>
            match handle_key_old event k with
            | Some k' => (Some (<[i := k']> keys), t)
            | None => (None, t)
            end
        | None => (None, t)
        end
    end.

(** [handle_input] of the earlier revision reads one record at a time;
    [reads] are the successive results of its [read_safe] (the count and
    the record read), 0 once the list is used up.  It exits on a read error
    and on a partial record. *)
Fixpoint handle_input_old (debug : Z) (reads : list (Z * input_event))
    (keys : list key) (filename : string) : outcome (option (list key)) * list call :=
  match reads with
  | [] => (Running (Some keys), [])
  | (n, event) :: rest =>
      if n =? SIZEOF_EVENT then
        match handle_input_event_old debug event keys filename with
        | (Some keys', t) =>
            let '(r, t') := handle_input_old debug rest keys' filename in (r, t ++ t')
        | (None, t) => (Running None, t)
        end
      else if n <? 0 then (Exit EXIT_FAILURE, [Printf (MsgReadError (- n))])
      else if 0 <? n then (Exit EXIT_FAILURE, [Printf (MsgPartial filename n)])
      else (Running (Some keys), [])
  end.

(** The body of the loop over the input sources in [main] of the earlier
    revision. *)
Definition dispatch_source_old (test_mode : bool) (debug : Z)
    (reads : Z → list (Z * input_event))
    (filename : string) (p : pollfd) (keys : list key)
    : outcome (pollfd * option (list key)) * list call :=
  if revents p =? 0 then (Running (p, Some keys), [])
  else if Z.land (revents p) POLLIN =? 0 then
    if test_mode then (Exit 0, [])
    else (Exit EXIT_FAILURE, [Printf (MsgHupErr filename)])
  else
    match handle_input_old debug (reads (fd p)) keys filename with
    | (Running ks, t) => (Running (p, ks), t)
    | (Exit status, t) => (Exit status, t)
    end.

(** ** Statements *)

(** The wait the spec asks of the scheduler (4.4, P4): over the keys with a
    pending wakeup, the smallest [deadline - now], not below 0; -1 when no
    wakeup is pending. *)
Definition pending_diffs (now : timespec) (keys : list key) : list Z :=
  (λ k, time_diff_ts (ts_wakeup k) now) <$> List.filter has_wakeup keys.

Fixpoint list_min (d : Z) (ds : list Z) : Z :=
  match ds with
  | [] => d
  | d' :: ds' => Z.min d (list_min d' ds')
  end.

Definition compute_wait_spec (now : timespec) (keys : list key) : Z :=
  match pending_diffs now keys with
  | [] => -1
  | d :: ds => Z.max 0 (list_min d ds)
  end.

(** The invariant of a key between two calls of the state machine. *)
Definition key_inv (k : key) : Prop :=
  (state k = KEY_DEBOUNCE → has_wakeup k = true)
  ∧ (state k = KEY_RELEASED ∨ state k = KEY_HANDLED → has_wakeup k = false).

(** The states a key reaches from [k0] by calls of [handle_key] and turns
    of the loop of [handle_timeouts], in any order. *)
Inductive reachable (k0 : key) : key → Prop :=
| reach_start : reachable k0 k0
| reach_handle_key now event k k' :
    reachable k0 k → handle_key now event k = Some k' → reachable k0 k'
| reach_handle_timeouts debug now k :
    reachable k0 k → reachable k0 (handle_timeouts_key debug now k).1.

(** A step that is no release: a turn of [handle_timeouts], or a record
    with a non-zero value (press or repeat). *)
Definition no_release (s : step) : Prop :=
  match s with
  | Tick _ => True
  | Input _ event => ev_value event ≠ 0
  end.

(** The wakeup of a pressed key: armed at the deadline of the last action
    when that is a long one, off otherwise. *)
Definition pressed_inv (k : key) : Prop :=
  state k = KEY_PRESSED →
  match last_action k with
  | Some a =>
      match a_type a with
      | LONG_PRESS =>
          has_wakeup k = true
          ∧ ts_wakeup k = time_tv2ts (tv_pressed k) (trigger_time a)
      | SHORT_PRESS => has_wakeup k = false
      end
  | None => True
  end.

(** What configuration fixes of a key besides its actions. *)
Definition fresh_key (k : key) : Prop :=
  0 ≤ code k ≤ 65535 ∧ state k = KEY_RELEASED ∧ has_wakeup k = false.

(** Every command is one given with -a among the options [seen]; only the
    action that [cur_action] points to may still be without one. *)
Definition commands_given (seen : list opt) (c : config) : Prop :=
  ∀ ki k ai a, cfg_keys c !! ki = Some k → actions k !! ai = Some a →
    match command a with
    | Some cmd => OptAction cmd ∈ seen
    | None => cfg_cur c = Some (ki, ai)
    end.

(** The key code that a key option names. *)
Definition opt_code (o : opt) : option Z :=
  match o with
  | OptShort c | OptLong c => Some c
  | _ => None
  end.

Definition names_key (c : Z) (o : opt) : bool :=
  match opt_code o with
  | Some z => z =? c
  | None => false
  end.

(** The -s and -l options given for the key code [c]. *)
Definition key_opts (c : Z) (opts : list opt) : list opt := List.filter (names_key c) opts.

(** The key table against the options it was built from. *)
Definition key_of_opts (opts : list opt) (k : key) : Prop :=
  fresh_key k
  ∧ length (actions k) = length (key_opts (code k) opts)
  ∧ Forall (λ a, in_int (trigger_time a)) (actions k).

Definition table_of_opts (opts : list opt) (keys : list key) : Prop :=
  NoDup (code <$> keys)
  ∧ (∀ z, z ∈ code <$> keys ↔ OptShort z ∈ opts ∨ OptLong z ∈ opts)
  ∧ Forall (key_of_opts opts) keys.

(** What the checks of the option loop depend on: whether a key option has
    been read ([cur_action] is set), whether the action it added still
    lacks a command, and the key codes that have a short action. *)
Record scan := Scan { any : bool; pending : bool; shorts : list Z }.

Definition scan_opt (s : scan) (o : opt) : option scan :=
  match o with
  | OptShort c =>
      if pending s then None
      else if negb ((0 <=? c) && (c <=? 65535)) then None
      else if bool_decide (c ∈ shorts s) then None
      else Some (Scan true true (c :: shorts s))
  | OptLong c =>
      if pending s then None
      else if negb ((0 <=? c) && (c <=? 65535)) then None
      else Some (Scan true true (shorts s))
  | OptAction _ => if any s then Some (Scan true false (shorts s)) else None
  | OptTime t =>
      if any s then
        if negb ((INT_MIN <=? t) && (t <=? INT_MAX)) then None else Some s
      else None
  end.

Fixpoint scan_opts (s : scan) (opts : list opt) : option scan :=
  match opts with
  | [] => Some s
  | o :: rest => s' ← scan_opt s o; scan_opts s' rest
  end.

Definition opts_accepted (opts : list opt) : bool :=
  match scan_opts (Scan false false []) opts with
  | Some s => negb (pending s)
  | None => false
  end.

(** The table of a configuration against a [scan]. *)
Definition opts_state (c : config) (s : scan) : Prop :=
  (∃ seen, table_of_opts seen (cfg_keys c))
  ∧ match cfg_cur c with
    | Some (ki, ai) =>
        any s = true
        ∧ ∃ k a, cfg_keys c !! ki = Some k ∧ actions k !! ai = Some a
                 ∧ pending s = match command a with Some _ => false | None => true end
    | None => any s = false ∧ pending s = false
    end
  ∧ ∀ z, z ∈ shorts s
         ↔ ∃ k, k ∈ cfg_keys c ∧ code k = z ∧ existsb is_short (actions k) = true.

(** Records with their clock readings, as steps of [run]. *)
Definition input_steps (evs : list (timespec * input_event)) : list step :=
  (λ te, Input te.1 te.2) <$> evs.

(** A read that returns whole records: the count is positive and a
    multiple of the record size, and the buffer holds that many records. *)
Definition good_read (r : Z * list (timespec * input_event)) : Prop :=
  0 < r.1 ∧ Z.rem r.1 SIZEOF_EVENT = 0 ∧ length r.2 = Z.to_nat (r.1 ÷ SIZEOF_EVENT).

(** [sizeof(event)], the size of a pointer: what the record loop of
    [handle_input] adds to [event] in its test. *)
Definition SIZEOF_POINTER : Z := 8.

(** The record loop of [handle_input] of buttond.c, which starts with
    [event] at [buf], goes on while [event + sizeof(event) <= buf + n]
    counted in bytes, and steps with [event++]: the offsets in [buf] of the
    records it hands to [handle_input_event], [off] being the offset of
    [event]. *)
Fixpoint record_loop (fuel : nat) (off n : Z) : option (list Z) :=
  match fuel with
  | O => None
  | S fuel' =>
      if off + SIZEOF_POINTER <=? n
      then cons off <$> record_loop fuel' (off + SIZEOF_EVENT) n
      else Some []
  end.

(** A step that is a record for the key code [c]. *)
Definition for_key (c : Z) (s : step) : bool :=
  match s with
  | Tick _ => false
  | Input _ event => ev_code event =? c
  end.

(** ** Reading without interruption (earlier revision) *)

(** [errno] values of Linux. *)
Definition EINTR : Z := 4.
Definition EAGAIN : Z := 11.

(** [size_t] arithmetic. *)
Definition wrapu64 (z : Z) : Z := z `mod` 2 ^ 64.

(** What a call of [read] gives: a count, or -1 with [errno] set. *)
Inductive read_result :=
| ReadCount (n : Z)
| ReadErrno (e : Z).

(** The loop of [read_safe]; [rs] are the results of the successive calls
    of [read], [total] is a [size_t], the value returned an [ssize_t].
    [None]: a further call of [read] is made, of which [rs] says
    nothing. *)
Fixpoint read_safe_loop (rs : list read_result) (total count : Z) : option Z :=
  if total <? count then
    match rs with
    | [] => None
    | ReadErrno e :: rest =>
        if e =? EINTR then read_safe_loop rest total count
        else Some (if e =? EAGAIN then 0 else wrap64 (- e))
    | ReadCount n :: rest =>
        if n =? 0 then Some (wrap64 total)
        else read_safe_loop rest (wrapu64 (total + n)) count
    end
  else Some (wrap64 total).

(** [read_safe]; [count] and [partial_read] are the [size_t] values the
    function receives. *)
Definition read_safe (rs : list read_result) (count partial_read : Z) : option Z :=
  read_safe_loop rs (partial_read `mod` count) count.

Definition is_eintr (r : read_result) : bool :=
  match r with
  | ReadErrno e => e =? EINTR
  | ReadCount _ => false
  end.

Definition sum_list (l : list Z) : Z := foldr Z.add 0 l.

(** ** Theorems *)

(** Machine arithmetic is unfolded by hand only. *)
Arguments wrap : simpl never.
Arguments time_diff_ts : simpl never.
Arguments time_diff_tv : simpl never.
Arguments time_tv2ts : simpl never.
Arguments time_ts2tv : simpl never.
Arguments time_add_ts : simpl never.
Arguments handle_key : simpl never.
Arguments handle_key_old : simpl never.

Lemma wrap64_id z : in_long z → wrap64 z = z.
Proof.
  unfold in_long, LONG_MIN, LONG_MAX, wrap64, wrap. intros H.
  rewrite Z.mod_small; lia.
Qed.

Lemma wrap32_id z : in_int z → wrap32 z = z.
Proof.
  unfold in_int, INT_MIN, INT_MAX, wrap32, wrap. intros H.
  rewrite Z.mod_small; lia.
Qed.

(** *** Time arithmetic *)

Ltac long_ok :=
  unfold in_long, in_int, LONG_MIN, LONG_MAX, INT_MIN, INT_MAX in *;
  try (Z.quot_rem_to_equations; Z.div_mod_to_equations); lia.

(** Closed comparisons and equations between numerals. *)
Ltac by_compute :=
  vm_compute; repeat split; first [reflexivity | discriminate].

Ltac unfold_time :=
  unfold normal_ts, normal_tv, realistic_ts, realistic_tv, wide_ts, wide_tv,
    ns_of_tv, ns_of_ts, us_of_tv,
    SEC_BOUND, NSECS_IN_SEC, NSECS_IN_MSEC, NSECS_IN_USEC, USECS_IN_SEC, USECS_IN_MSEC,
    in_int, INT_MIN, INT_MAX in *.

Lemma realistic_wide_ts ts : realistic_ts ts → wide_ts ts.
Proof. unfold_time. lia. Qed.

Lemma realistic_wide_tv tv : realistic_tv tv → wide_tv tv.
Proof. unfold_time. lia. Qed.

#[local] Hint Resolve realistic_wide_ts realistic_wide_tv : core.

Lemma time_diff_ts_value ts1 ts2 :
  normal_ts ts1 → normal_ts ts2 → wide_ts ts1 → wide_ts ts2 →
  time_diff_ts ts1 ts2
  = (ts_sec ts1 - ts_sec ts2) * 1000 + (tv_nsec ts1 - tv_nsec ts2) ÷ NSECS_IN_MSEC.
Proof.
  unfold time_diff_ts, ladd, lsub, lmul, ldiv. unfold_time.
  intros H1 H2 H3 H4.
  rewrite (wrap64_id (tv_nsec ts1 - tv_nsec ts2)) by long_ok.
  rewrite (wrap64_id (_ ÷ _)) by long_ok.
  rewrite (wrap64_id (ts_sec ts1 - ts_sec ts2)) by long_ok.
  rewrite (wrap64_id (_ * 1000)) by long_ok.
  rewrite wrap64_id by long_ok.
  lia.
Qed.

Lemma time_diff_tv_value tv1 tv2 :
  normal_tv tv1 → normal_tv tv2 → wide_tv tv1 → wide_tv tv2 →
  time_diff_tv tv1 tv2
  = (tv_sec tv1 - tv_sec tv2) * 1000 + (tv_usec tv1 - tv_usec tv2) ÷ USECS_IN_MSEC.
Proof.
  unfold time_diff_tv, ladd, lsub, lmul, ldiv. unfold_time.
  intros H1 H2 H3 H4.
  rewrite (wrap64_id (tv_usec tv1 - tv_usec tv2)) by long_ok.
  rewrite (wrap64_id (_ ÷ _)) by long_ok.
  rewrite (wrap64_id (tv_sec tv1 - tv_sec tv2)) by long_ok.
  rewrite (wrap64_id (_ * 1000)) by long_ok.
  rewrite wrap64_id by long_ok.
  lia.
Qed.

(** Rounding of the sub-second part: down when the first fraction is the
    larger one, up when a borrow from the seconds is needed. *)
Lemma time_diff_ts_rounding ts1 ts2 :
  normal_ts ts1 → normal_ts ts2 → wide_ts ts1 → wide_ts ts2 →
  time_diff_ts ts1 ts2
  = if tv_nsec ts2 <=? tv_nsec ts1
    then (ns_of_ts ts1 - ns_of_ts ts2) / NSECS_IN_MSEC
    else - ((ns_of_ts ts2 - ns_of_ts ts1) / NSECS_IN_MSEC).
Proof.
  intros H1 H2 H3 H4. rewrite time_diff_ts_value by done.
  unfold_time. destruct (Z.leb_spec (tv_nsec ts2) (tv_nsec ts1));
    Z.quot_rem_to_equations; Z.div_mod_to_equations; lia.
Qed.

Lemma time_diff_tv_rounding tv1 tv2 :
  normal_tv tv1 → normal_tv tv2 → wide_tv tv1 → wide_tv tv2 →
  time_diff_tv tv1 tv2
  = if tv_usec tv2 <=? tv_usec tv1
    then (us_of_tv tv1 - us_of_tv tv2) / USECS_IN_MSEC
    else - ((us_of_tv tv2 - us_of_tv tv1) / USECS_IN_MSEC).
Proof.
  intros H1 H2 H3 H4. rewrite time_diff_tv_value by done.
  unfold_time. destruct (Z.leb_spec (tv_usec tv2) (tv_usec tv1));
    Z.quot_rem_to_equations; Z.div_mod_to_equations; lia.
Qed.

Lemma time_tv2ts_value base msec :
  normal_tv base → realistic_tv base → 0 ≤ msec ≤ INT_MAX →
  time_tv2ts base msec
  = Timespec (tv_sec base + (tv_usec base * 1000 + msec * 1000000) / NSECS_IN_SEC)
             ((tv_usec base * 1000 + msec * 1000000) `mod` NSECS_IN_SEC).
Proof.
  unfold time_tv2ts, ladd, lsub, lmul, ldiv, lrem. unfold_time.
  intros H1 H2 H3.
  rewrite (wrap64_id (tv_usec base * 1000)) by long_ok.
  rewrite (wrap64_id (msec * 1000000)) by long_ok.
  rewrite (wrap64_id (_ + _ * 1000000)) by long_ok.
  rewrite Z.quot_div_nonneg, Z.rem_mod_nonneg by lia.
  rewrite (wrap64_id (_ / _)) by long_ok.
  rewrite (wrap64_id (_ `mod` _)) by long_ok.
  rewrite wrap64_id by long_ok.
  done.
Qed.

Lemma time_tv2ts_normal base msec :
  normal_tv base → realistic_tv base → 0 ≤ msec ≤ INT_MAX →
  normal_ts (time_tv2ts base msec) ∧ wide_ts (time_tv2ts base msec)
  ∧ ns_of_ts (time_tv2ts base msec) = ns_of_tv base + msec * NSECS_IN_MSEC.
Proof.
  intros H1 H2 H3. rewrite time_tv2ts_value by done.
  unfold_time. simpl. repeat split; Z.div_mod_to_equations; lia.
Qed.

(** C6, as stated, fails: a difference of 0.1 ms that straddles a seconds
    boundary is returned as 1 ms, which is neither the truncated nor the
    floored quotient of the exact difference, while the same difference of
    0.1 ms within one second is returned as 0; the same for [time_diff_tv]. *)
Lemma time_diff_borrow_counterexample :
  normal_ts (Timespec 1 0) ∧ normal_ts (Timespec 0 999900000)
  ∧ ns_of_ts (Timespec 1 0) - ns_of_ts (Timespec 0 999900000) = 100000
  ∧ time_diff_ts (Timespec 1 0) (Timespec 0 999900000) = 1
  ∧ time_diff_ts (Timespec 1 0) (Timespec 0 999900000)
    ≠ (ns_of_ts (Timespec 1 0) - ns_of_ts (Timespec 0 999900000)) ÷ NSECS_IN_MSEC
  ∧ time_diff_ts (Timespec 1 0) (Timespec 0 999900000)
    ≠ (ns_of_ts (Timespec 1 0) - ns_of_ts (Timespec 0 999900000)) / NSECS_IN_MSEC
  ∧ ns_of_ts (Timespec 0 100000) - ns_of_ts (Timespec 0 0) = 100000
  ∧ time_diff_ts (Timespec 0 100000) (Timespec 0 0) = 0
  ∧ normal_tv (Timeval 1 0) ∧ normal_tv (Timeval 0 999900)
  ∧ us_of_tv (Timeval 1 0) - us_of_tv (Timeval 0 999900) = 100
  ∧ time_diff_tv (Timeval 1 0) (Timeval 0 999900) = 1
  ∧ time_diff_tv (Timeval 1 0) (Timeval 0 999900)
    ≠ (us_of_tv (Timeval 1 0) - us_of_tv (Timeval 0 999900)) ÷ USECS_IN_MSEC
  ∧ time_diff_tv (Timeval 1 0) (Timeval 0 999900)
    ≠ (us_of_tv (Timeval 1 0) - us_of_tv (Timeval 0 999900)) / USECS_IN_MSEC
  ∧ us_of_tv (Timeval 0 100) - us_of_tv (Timeval 0 0) = 100
  ∧ time_diff_tv (Timeval 0 100) (Timeval 0 0) = 0.
Proof.
  unfold normal_ts, normal_tv. repeat split; try done; vm_compute; lia.
Qed.

(** C6 (amended): on normalized, realistic timestamps [time_diff_ts] and
    [time_diff_tv] do not overflow and return seconds difference times 1000
    plus the truncated difference of the sub-second fields: the exact
    difference rounded down to whole milliseconds when the first sub-second
    field is the larger one, rounded up when a borrow from the seconds is
    needed, hence always less than 1 ms away from the exact difference.  For
    a normalized base and [0 <= msec <= INT_MAX], [time_tv2ts] returns a
    normalized timespec worth exactly base + msec, and its [time_diff_ts] to
    the converted base is [msec]. *)
Theorem time_arith_msecs (ts1 ts2 : timespec) (tv1 tv2 base : timeval) (msec : Z) :
  normal_ts ts1 → normal_ts ts2 → realistic_ts ts1 → realistic_ts ts2 →
  normal_tv tv1 → normal_tv tv2 → realistic_tv tv1 → realistic_tv tv2 →
  normal_tv base → realistic_tv base → 0 ≤ msec ≤ INT_MAX →
  (time_diff_ts ts1 ts2
   = (ts_sec ts1 - ts_sec ts2) * 1000 + (tv_nsec ts1 - tv_nsec ts2) ÷ NSECS_IN_MSEC)
  ∧ (time_diff_ts ts1 ts2
     = if tv_nsec ts2 <=? tv_nsec ts1
       then (ns_of_ts ts1 - ns_of_ts ts2) / NSECS_IN_MSEC
       else - ((ns_of_ts ts2 - ns_of_ts ts1) / NSECS_IN_MSEC))
  ∧ Z.abs (time_diff_ts ts1 ts2 * NSECS_IN_MSEC - (ns_of_ts ts1 - ns_of_ts ts2))
    < NSECS_IN_MSEC
  ∧ (time_diff_tv tv1 tv2
     = (tv_sec tv1 - tv_sec tv2) * 1000 + (tv_usec tv1 - tv_usec tv2) ÷ USECS_IN_MSEC)
  ∧ (time_diff_tv tv1 tv2
     = if tv_usec tv2 <=? tv_usec tv1
       then (us_of_tv tv1 - us_of_tv tv2) / USECS_IN_MSEC
       else - ((us_of_tv tv2 - us_of_tv tv1) / USECS_IN_MSEC))
  ∧ Z.abs (time_diff_tv tv1 tv2 * USECS_IN_MSEC - (us_of_tv tv1 - us_of_tv tv2))
    < USECS_IN_MSEC
  ∧ normal_ts (time_tv2ts base msec)
  ∧ ns_of_ts (time_tv2ts base msec) = ns_of_tv base + msec * NSECS_IN_MSEC
  ∧ time_diff_ts (time_tv2ts base msec) (time_tv2ts base 0) = msec.
Proof.
  intros Hn1 Hn2 Hr1 Hr2 Hv1 Hv2 Hw1 Hw2 Hb Hbr Hm.
  assert (H0 : 0 ≤ 0 ≤ INT_MAX) by (unfold INT_MAX; lia).
  destruct (time_tv2ts_normal base msec Hb Hbr Hm) as (Hnm & Hrm & Hvm).
  destruct (time_tv2ts_normal base 0 Hb Hbr H0) as (Hn0 & Hr0 & Hv0).
  split_and!; try done.
  - apply time_diff_ts_value; auto.
  - apply time_diff_ts_rounding; auto.
  - rewrite time_diff_ts_rounding by auto. unfold_time.
    destruct (Z.leb_spec (tv_nsec ts2) (tv_nsec ts1)); Z.div_mod_to_equations; lia.
  - apply time_diff_tv_value; auto.
  - apply time_diff_tv_rounding; auto.
  - rewrite time_diff_tv_rounding by auto. unfold_time.
    destruct (Z.leb_spec (tv_usec tv2) (tv_usec tv1)); Z.div_mod_to_equations; lia.
  - rewrite time_diff_ts_value by auto.
    rewrite !time_tv2ts_value by done. unfold_time. simpl.
    Z.quot_rem_to_equations; Z.div_mod_to_equations; lia.
Qed.

(** The time arithmetic on sample timestamps, through [time_arith_msecs]. *)
Lemma time_arith_msecs_witness :
  time_diff_ts (Timespec 7 250000000) (Timespec 5 750000000) = 1500
  ∧ time_diff_tv (Timeval 5 750000) (Timeval 7 250000) = -1500
  ∧ time_tv2ts (Timeval 3 999000) 5000 = Timespec 8 999000000
  ∧ time_diff_ts (time_tv2ts (Timeval 3 999000) 5000) (time_tv2ts (Timeval 3 999000) 0) = 5000.
Proof.
  assert (Hts : ∀ s n, 0 ≤ s ≤ 10 → 0 ≤ n < 1000000000 →
                       normal_ts (Timespec s n) ∧ realistic_ts (Timespec s n)).
  { intros s n Hs Hn. unfold normal_ts, realistic_ts, SEC_BOUND, NSECS_IN_SEC. simpl. lia. }
  assert (Htv : ∀ s u, 0 ≤ s ≤ 10 → 0 ≤ u < 1000000 →
                       normal_tv (Timeval s u) ∧ realistic_tv (Timeval s u)).
  { intros s u Hs Hu. unfold normal_tv, realistic_tv, SEC_BOUND, USECS_IN_SEC. simpl. lia. }
  destruct (Hts 7 250000000) as [A1 A2]; [lia | lia |].
  destruct (Hts 5 750000000) as [B1 B2]; [lia | lia |].
  destruct (Htv 5 750000) as [C1 C2]; [lia | lia |].
  destruct (Htv 7 250000) as [D1 D2]; [lia | lia |].
  destruct (Htv 3 999000) as [E1 E2]; [lia | lia |].
  assert (Hm : 0 ≤ 5000 ≤ INT_MAX) by (unfold INT_MAX; lia).
  pose proof (time_arith_msecs _ _ _ _ _ _ A1 B1 A2 B2 C1 D1 C2 D2 E1 E2 Hm)
    as (V1 & _ & _ & V2 & _ & _ & _ & _ & V3).
  split_and!.
  - rewrite V1. reflexivity.
  - rewrite V2. reflexivity.
  - reflexivity.
  - exact V3.
Defined.

(** *** Action matcher *)

Lemma action_match_rule a time :
  action_match a time = true ↔
  match a_type a with
  | LONG_PRESS => trigger_time a ≤ time
  | SHORT_PRESS => time < trigger_time a
  end.
Proof.
  unfold action_match. destruct (a_type a).
  - apply Z.leb_le.
  - apply Z.ltb_lt.
Qed.

(** The reverse scan stops at the highest index below [n] that matches. *)
Lemma find_from_spec acts time n :
  match find_from acts time n with
  | Some a =>
      ∃ i, (i < n)%nat ∧ acts !! i = Some a ∧ action_match a time = true
           ∧ ∀ j b, (i < j < n)%nat → acts !! j = Some b → action_match b time = false
  | None =>
      (n ≤ length acts)%nat →
      ∀ j b, (j < n)%nat → acts !! j = Some b → action_match b time = false
  end.
Proof.
  induction n as [|n IH]; simpl.
  - intros _ j b Hj. lia.
  - destruct (acts !! n) as [a|] eqn:Hn.
    + destruct (action_match a time) eqn:Hm.
      * exists n. split_and!; [lia | done | done |]. intros j b Hj. lia.
      * destruct (find_from acts time n) as [a'|].
        -- destruct IH as (i & Hi & Hl & Ha & Hrest).
           exists i. split_and!; [lia | done | done |].
           intros j b Hj Hb. destruct (decide (j = n)) as [->|Hne].
           ++ congruence.
           ++ apply (Hrest j); [lia | done].
        -- intros Hlen j b Hj Hb. destruct (decide (j = n)) as [->|Hne].
           ++ congruence.
           ++ apply (IH ltac:(lia) j); [lia | done].
    + intros Hlen. apply lookup_ge_None in Hn. lia.
Qed.

Lemma find_key_action_some k time a :
  find_key_action k time = Some a ↔
  ∃ i, actions k !! i = Some a ∧ action_match a time = true
       ∧ ∀ j b, (i < j)%nat → actions k !! j = Some b → action_match b time = false.
Proof.
  unfold find_key_action, action_count.
  pose proof (find_from_spec (actions k) time (length (actions k))) as H.
  split.
  - intros Hf. rewrite Hf in H. destruct H as (i & Hi & Hl & Ha & Hrest).
    exists i. split_and!; [done | done |]. intros j b Hj Hb.
    apply (Hrest j); [| done]. apply lookup_lt_Some in Hb. lia.
  - intros (i & Hl & Ha & Hrest).
    destruct (find_from _ _ _) as [a'|].
    + destruct H as (i' & Hi' & Hl' & Ha' & Hrest').
      destruct (Nat.lt_trichotomy i i') as [Hlt | [-> | Hgt]].
      * rewrite (Hrest i' a' Hlt Hl') in Ha'. done.
      * congruence.
      * assert (Hi : (i < length (actions k))%nat) by (by eapply lookup_lt_Some).
        rewrite (Hrest' i a ltac:(lia) Hl) in Ha. done.
    + assert (Hi : (i < length (actions k))%nat) by (by eapply lookup_lt_Some).
      rewrite (H ltac:(lia) i a Hi Hl) in Ha. done.
Qed.

Lemma find_key_action_none k time :
  find_key_action k time = None ↔
  ∀ b, b ∈ actions k → action_match b time = false.
Proof.
  unfold find_key_action, action_count.
  pose proof (find_from_spec (actions k) time (length (actions k))) as H.
  split.
  - intros Hf b Hb. rewrite Hf in H. apply list_elem_of_lookup in Hb as [j Hj].
    apply (H ltac:(lia) j); [by eapply lookup_lt_Some | done].
  - intros Hall. destruct (find_from _ _ _) as [a|]; [|done].
    destruct H as (i & _ & Hl & Ha & _).
    rewrite (Hall a) in Ha; [done|]. by eapply list_elem_of_lookup_2.
Qed.

(** On a sorted list, the long tier returned is the longest one reached. *)
Lemma find_key_action_longest k time b :
  sorted_actions (actions k) →
  b ∈ actions k → a_type b = LONG_PRESS → trigger_time b ≤ time →
  ∃ a, find_key_action k time = Some a ∧ a_type a = LONG_PRESS ∧ trigger_time a ≤ time
       ∧ ∀ c, c ∈ actions k → a_type c = LONG_PRESS → trigger_time c ≤ time →
              trigger_time c ≤ trigger_time a.
Proof.
  intros [Hshort Hasc] Hb Hbt Hbm.
  assert (Hmb : action_match b time = true) by (apply action_match_rule; by rewrite Hbt).
  destruct (find_key_action k time) as [a|] eqn:Hf.
  - apply find_key_action_some in Hf as (i & Hl & Ha & Hrest).
    apply list_elem_of_lookup in Hb as [j Hj].
    assert (Hji : (j ≤ i)%nat).
    { destruct (decide (j ≤ i)%nat); [done|].
      rewrite (Hrest j b ltac:(lia) Hj) in Hmb. done. }
    assert (Hat : a_type a = LONG_PRESS).
    { destruct (a_type a) eqn:E; [done|].
      pose proof (Hshort i a Hl E). assert (j = i) by lia. subst. congruence. }
    exists a. split_and!; [done | done | |].
    + apply action_match_rule in Ha. by rewrite Hat in Ha.
    + intros c Hc Hct Hcm. apply list_elem_of_lookup in Hc as [m Hm].
      assert (Hmc : action_match c time = true) by (apply action_match_rule; by rewrite Hct).
      destruct (Nat.lt_trichotomy m i) as [Hlt | [-> | Hgt]].
      * by apply (Hasc m i c a).
      * assert (c = a) by congruence. subst. lia.
      * rewrite (Hrest m c Hgt Hm) in Hmc. done.
  - rewrite find_key_action_none in Hf. rewrite (Hf b Hb) in Hmb. done.
Qed.

(** C1: [find_key_action] scans from the end and returns the first action
    that matches, a long action matching when [time >= trigger_time] and a
    short one when [time < trigger_time]; it returns nothing exactly when no
    action matches.  On a sorted list with a long tier that has been reached,
    the result is the longest tier reached.  With the default short (1000 ms)
    and long (5000 ms) actions, 999 gives the short action, 1000 nothing and
    5000 the long action. *)
Theorem find_key_action_correct (k : key) (time : Z) :
  sorted_actions (actions k) →
  (∀ a, action_match a time = true ↔
        match a_type a with
        | LONG_PRESS => trigger_time a ≤ time
        | SHORT_PRESS => time < trigger_time a
        end)
  ∧ (∀ a, find_key_action k time = Some a ↔
          ∃ i, actions k !! i = Some a ∧ action_match a time = true
               ∧ ∀ j b, (i < j)%nat → actions k !! j = Some b → action_match b time = false)
  ∧ (find_key_action k time = None ↔ ∀ b, b ∈ actions k → action_match b time = false)
  ∧ (∀ b, b ∈ actions k → a_type b = LONG_PRESS → trigger_time b ≤ time →
       ∃ a, find_key_action k time = Some a ∧ a_type a = LONG_PRESS ∧ trigger_time a ≤ time
            ∧ ∀ c, c ∈ actions k → a_type c = LONG_PRESS → trigger_time c ≤ time →
                   trigger_time c ≤ trigger_time a)
  ∧ (∀ cs cl,
       let short := Action SHORT_PRESS DEFAULT_SHORT_PRESS_MSECS cs in
       let long := Action LONG_PRESS DEFAULT_LONG_PRESS_MSECS cl in
       find_key_action (set_actions [short; long] k) 999 = Some short
       ∧ find_key_action (set_actions [short; long] k) 1000 = None
       ∧ find_key_action (set_actions [short; long] k) 5000 = Some long).
Proof.
  intros Hsorted. split_and!.
  - intros a. apply action_match_rule.
  - intros a. apply find_key_action_some.
  - apply find_key_action_none.
  - intros b. by apply find_key_action_longest.
  - intros cs cl. done.
Qed.

(** Short at 1000 ms, long tiers at 5 s and 10 s: a hold of 12 s finds the 10 s tier. *)
Lemma find_key_action_correct_witness :
  sorted_actions
    [Action SHORT_PRESS 1000 (Some "s"); Action LONG_PRESS 5000 (Some "l5");
     Action LONG_PRESS 10000 (Some "l10")]
  ∧ find_key_action
      (Key 28 false
         [Action SHORT_PRESS 1000 (Some "s"); Action LONG_PRESS 5000 (Some "l5");
          Action LONG_PRESS 10000 (Some "l10")]
         (Timeval 0 0) (Timeval 0 0) (Timespec 0 0) KEY_RELEASED) 12000
    = Some (Action LONG_PRESS 10000 (Some "l10")).
Proof.
  assert (Hs : sorted_actions
    [Action SHORT_PRESS 1000 (Some "s"); Action LONG_PRESS 5000 (Some "l5");
     Action LONG_PRESS 10000 (Some "l10")]).
  { split.
    - intros [|[|[|i]]] a Hi Ht; simpl in Hi; simplify_eq; done.
    - intros [|[|[|i]]] [|[|[|j]]] a b Hij Hi Hj Ha Hb; simpl in Hi, Hj; simplify_eq;
        simpl; lia. }
  split; [exact Hs|].
  destruct (find_key_action_correct
              (Key 28 false
                 [Action SHORT_PRESS 1000 (Some "s"); Action LONG_PRESS 5000 (Some "l5");
                  Action LONG_PRESS 10000 (Some "l10")]
                 (Timeval 0 0) (Timeval 0 0) (Timespec 0 0) KEY_RELEASED) 12000 Hs)
    as (_ & Hsome & _).
  apply Hsome. exists 2%nat. split_and!; [done | done |].
  intros [|[|[|j]]] b Hj Hb; simpl in Hb; simplify_eq; lia.
Defined.

(** *** Timeout scheduler: [compute_timeout] *)

Lemma pending_diffs_cons now k keys :
  pending_diffs now (k :: keys)
  = if has_wakeup k then time_diff_ts (ts_wakeup k) now :: pending_diffs now keys
    else pending_diffs now keys.
Proof. unfold pending_diffs. simpl. by destruct (has_wakeup k). Qed.

(** The loop, started from any value of [timeout] it can hold: -1 or a
    wait already found. *)
Lemma compute_timeout_fold now keys timeout :
  timeout = -1 ∨ 0 ≤ timeout →
  (∀ k, k ∈ keys → has_wakeup k = true → time_diff_ts (ts_wakeup k) now ≤ INT_MAX) →
  fold_left (compute_timeout_step now) keys timeout
  = match pending_diffs now keys with
    | [] => timeout
    | d :: ds =>
        if timeout =? -1 then Z.max 0 (list_min d ds)
        else Z.min timeout (Z.max 0 (list_min d ds))
    end.
Proof.
  revert timeout. induction keys as [|k keys IH]; intros timeout Ht Hb; [done|].
  assert (Hb' : ∀ k', k' ∈ keys → has_wakeup k' = true →
                      time_diff_ts (ts_wakeup k') now ≤ INT_MAX).
  { intros k' Hk'. apply Hb. by right. }
  rewrite pending_diffs_cons. simpl. unfold compute_timeout_step at 2.
  destruct (has_wakeup k) eqn:Hw; [|by apply IH].
  assert (Hk : time_diff_ts (ts_wakeup k) now ≤ INT_MAX) by (apply Hb; [by left | done]).
  set (d := time_diff_ts (ts_wakeup k) now) in *. clearbody d.
  destruct (Z.ltb_spec d 0) as [Hneg | Hpos].
  - rewrite IH by (auto; lia).
    destruct (pending_diffs now keys) as [|d' ds]; simpl;
      destruct (Z.eqb_spec timeout (-1)); lia.
  - assert (Hstep : (if (timeout =? -1) || (d <? timeout) then wrap32 d else timeout)
                    = if timeout =? -1 then d else Z.min timeout d).
    { rewrite wrap32_id by (unfold in_int, INT_MIN, INT_MAX in *; lia).
      destruct (Z.eqb_spec timeout (-1)); simpl; [done|].
      destruct (Z.ltb_spec d timeout); lia. }
    rewrite Hstep. rewrite IH; [| destruct (Z.eqb_spec timeout (-1)); lia | done].
    destruct (pending_diffs now keys) as [|d' ds]; simpl.
    + destruct (Z.eqb_spec timeout (-1)); lia.
    + destruct (Z.eqb_spec timeout (-1)).
      * destruct (Z.eqb_spec d (-1)); lia.
      * destruct (Z.eqb_spec (Z.min timeout d) (-1)); lia.
Qed.

(** C3, as stated, fails: the wait is stored in an [int].  A deadline
    2147484 s ahead gives a negative wait, and one 4294967.295 s ahead gives
    -1, the value that stands for no pending wakeup. *)
Lemma compute_timeout_narrowing_counterexample :
  compute_timeout (Timespec 0 0)
    [Key 28 true [] (Timeval 0 0) (Timeval 0 0) (Timespec 2147484 0) KEY_PRESSED]
  = -2147483296
  ∧ compute_wait_spec (Timespec 0 0)
      [Key 28 true [] (Timeval 0 0) (Timeval 0 0) (Timespec 2147484 0) KEY_PRESSED]
    = 2147484000
  ∧ compute_timeout (Timespec 0 0)
      [Key 28 true [] (Timeval 0 0) (Timeval 0 0) (Timespec 4294967 295000000) KEY_PRESSED]
    = -1
  ∧ compute_wait_spec (Timespec 0 0)
      [Key 28 true [] (Timeval 0 0) (Timeval 0 0) (Timespec 4294967 295000000) KEY_PRESSED]
    = 4294967295.
Proof. by vm_compute. Qed.

(** C3 (amended): when every pending [deadline - now] is at most INT_MAX
    milliseconds, [compute_timeout] returns -1 if no key has a wakeup and
    otherwise the smallest pending [deadline - now], not below 0. *)
Theorem compute_timeout_correct (now : timespec) (keys : list key) :
  (∀ k, k ∈ keys → has_wakeup k = true → time_diff_ts (ts_wakeup k) now ≤ INT_MAX) →
  compute_timeout now keys = compute_wait_spec now keys
  ∧ (pending_diffs now keys = [] → compute_timeout now keys = -1)
  ∧ (∀ d ds, pending_diffs now keys = d :: ds →
       compute_timeout now keys = Z.max 0 (list_min d ds) ∧ 0 ≤ compute_timeout now keys).
Proof.
  intros Hb. unfold compute_timeout, compute_wait_spec.
  rewrite compute_timeout_fold by auto.
  destruct (pending_diffs now keys) as [|d ds]; simpl.
  - split_and!; [done | done |]. intros d ds [=].
  - split_and!; [done | intros [=] |]. intros d' ds' [= <- <-]. lia.
Qed.

(** Three keys, deadlines 4.5 s and 10 ms ahead and one key idle: the wait is 10 ms. *)
Lemma compute_timeout_correct_witness :
  compute_timeout (Timespec 100 0)
    [Key 28 true [] (Timeval 0 0) (Timeval 0 0) (Timespec 104 500000000) KEY_PRESSED;
     Key 30 false [] (Timeval 0 0) (Timeval 0 0) (Timespec 0 0) KEY_RELEASED;
     Key 31 true [] (Timeval 0 0) (Timeval 0 0) (Timespec 100 10000000) KEY_DEBOUNCE]
  = 10.
Proof.
  destruct (compute_timeout_correct (Timespec 100 0)
    [Key 28 true [] (Timeval 0 0) (Timeval 0 0) (Timespec 104 500000000) KEY_PRESSED;
     Key 30 false [] (Timeval 0 0) (Timeval 0 0) (Timespec 0 0) KEY_RELEASED;
     Key 31 true [] (Timeval 0 0) (Timeval 0 0) (Timespec 100 10000000) KEY_DEBOUNCE])
    as (H & _).
  - intros k Hk Hw. repeat (apply elem_of_cons in Hk as [-> | Hk]).
    + vm_compute. discriminate.
    + discriminate Hw.
    + vm_compute. discriminate.
    + by apply elem_of_nil in Hk.
  - rewrite H. vm_compute. reflexivity.
Defined.

(** *** Input events *)

Lemma find_key_from_none keys c i :
  find_key_from keys c i = None ↔ ∀ k, k ∈ keys → code k ≠ c.
Proof.
  revert i. induction keys as [|k keys IH]; intros i; simpl.
  - split; [|done]. intros _ k Hk. by apply elem_of_nil in Hk.
  - destruct (Z.eqb_spec (code k) c) as [Heq | Hne].
    + split; [done|]. intros H. destruct (H k); [by left | done].
    + rewrite IH. split.
      * intros H k' [-> | Hk']%elem_of_cons; auto.
      * intros H k' Hk'. apply H. by right.
Qed.

Lemma find_key_from_some keys c i j :
  find_key_from keys c i = Some j →
  ∃ k, (i ≤ j)%nat ∧ keys !! (j - i)%nat = Some k ∧ code k = c.
Proof.
  revert i. induction keys as [|k keys IH]; intros i; simpl; [done|].
  destruct (Z.eqb_spec (code k) c) as [Heq | Hne].
  - intros [= <-]. exists k. rewrite Nat.sub_diag. done.
  - intros H. apply IH in H as (k' & Hle & Hl & Hc). exists k'.
    split_and!; [lia | | done].
    replace (j - i)%nat with (S (j - S i)) by lia. done.
Qed.

Lemma print_key_prints debug event filename text :
  Forall (λ c, ∃ m, c = Printf m) (print_key debug event filename text).
Proof.
  unfold print_key. destruct (debug <? 1); [constructor|].
  destruct (ev_type event) as [|[| |]|]; repeat constructor; eauto.
Qed.

(** C9: an event that is not of type 1, or whose code is the code of no
    key of the table, leaves the table as it is, whatever the verbosity;
    all that [handle_input_event] does then is print: no call of
    [handle_key], of [find_key_action], no command run. *)
Theorem handle_input_event_ignored (debug : Z) (now : timespec) (event : input_event)
    (keys : list key) (filename : string) :
  ev_type event ≠ 1 ∨ (∀ k, k ∈ keys → code k ≠ ev_code event) →
  (handle_input_event debug now event keys filename).1 = Some keys
  ∧ Forall (λ c, ∃ m, c = Printf m) (handle_input_event debug now event keys filename).2
  ∧ List.filter is_handle_key (handle_input_event debug now event keys filename).2 = []
  ∧ finds (handle_input_event debug now event keys filename).2 = []
  ∧ systems (handle_input_event debug now event keys filename).2 = [].
Proof.
  intros H.
  assert (Hp : (handle_input_event debug now event keys filename).1 = Some keys
               ∧ Forall (λ c, ∃ m, c = Printf m)
                   (handle_input_event debug now event keys filename).2).
  { unfold handle_input_event.
    destruct (Z.eqb_spec (ev_type event) 1) as [Ht | Ht]; cbn [negb].
    - destruct H as [H | H]; [done|].
      apply (find_key_from_none _ _ 0%nat) in H. unfold find_key. rewrite H. cbn [fst snd].
      split; [done|]. destruct (1 <? debug); [apply print_key_prints | constructor].
    - cbn [fst snd]. split; [done|].
      destruct (2 <? debug); [apply print_key_prints | constructor]. }
  destruct Hp as [Hk Hp]. split_and!; [done | done | | |].
  - induction Hp as [|c l [m ->] _ IH]; [done|]. simpl. apply IH.
  - unfold finds. induction Hp as [|c l [m ->] _ IH]; [done|]. simpl. apply IH.
  - unfold systems. induction Hp as [|c l [m ->] _ IH]; [done|]. simpl. apply IH.
Qed.

(** A key record for code 30 with only code 28 configured, at verbosity 4. *)
Lemma handle_input_event_ignored_witness :
  handle_input_event 4 (Timespec 7 0) (InputEvent (Timeval 7 0) 1 30 1)
    [Key 28 true [Action LONG_PRESS 5000 (Some "l")] (Timeval 3 0) (Timeval 0 0)
       (Timespec 8 0) KEY_PRESSED] "event0"
  = (Some [Key 28 true [Action LONG_PRESS 5000 (Some "l")] (Timeval 3 0) (Timeval 0 0)
             (Timespec 8 0) KEY_PRESSED],
     [Printf (MsgKey "event0" (InputEvent (Timeval 7 0) 1 30 1) "ignored")]).
Proof.
  destruct (handle_input_event_ignored 4 (Timespec 7 0) (InputEvent (Timeval 7 0) 1 30 1)
    [Key 28 true [Action LONG_PRESS 5000 (Some "l")] (Timeval 3 0) (Timeval 0 0)
       (Timespec 8 0) KEY_PRESSED] "event0") as (H & _).
  - right. intros k Hk. apply elem_of_cons in Hk as [-> | Hk]; [simpl; lia|].
    by apply elem_of_nil in Hk.
  - reflexivity.
Defined.

(** *** Invariant of the key state machine *)

Lemma handle_key_inv now event k k' :
  key_inv k → handle_key now event k = Some k' → key_inv k'.
Proof.
  unfold key_inv, handle_key. intros [Hd Hr].
  destruct (state k) eqn:Hs; destruct (ev_value event =? 0); cbn [negb];
    try destruct (last_action _) as [a|]; try destruct (a_type a);
    intros H; simplify_eq; simpl; rewrite ?Hs;
    (split; intros; intuition congruence).
Qed.

Lemma handle_timeouts_key_inv debug now k :
  key_inv k → key_inv (handle_timeouts_key debug now k).1.
Proof.
  unfold key_inv, handle_timeouts_key. intros [Hd Hr].
  destruct (has_wakeup k && _); [|done].
  destruct (state k) eqn:Hs; simpl; rewrite ?Hs; simpl; split; intros; intuition congruence.
Qed.

(** C10: from a released key without wakeup, whatever the calls of
    [handle_key] and the turns of [handle_timeouts] and their order, a key
    in state debounce has a wakeup pending and a key in state released or
    handled has none. *)
Theorem key_invariant (k0 k : key) :
  state k0 = KEY_RELEASED → has_wakeup k0 = false → reachable k0 k →
  (state k = KEY_DEBOUNCE → has_wakeup k = true)
  ∧ (state k = KEY_RELEASED ∨ state k = KEY_HANDLED → has_wakeup k = false).
Proof.
  intros Hs Hw Hreach. change (key_inv k).
  induction Hreach as [| now event k k' _ IH Hk | debug now k _ IH].
  - split; [congruence | done].
  - by eapply handle_key_inv.
  - by apply handle_timeouts_key_inv.
Qed.

(** A press and a release lead to debounce, with a wakeup pending. *)
Lemma key_invariant_witness :
  reachable
    (Key 28 false [Action SHORT_PRESS 1000 (Some "s")] (Timeval 0 0) (Timeval 0 0)
       (Timespec 0 0) KEY_RELEASED)
    (Key 28 true [Action SHORT_PRESS 1000 (Some "s")] (Timeval 5 0) (Timeval 5 200000)
       (Timespec 5 210000000) KEY_DEBOUNCE)
  ∧ has_wakeup
      (Key 28 true [Action SHORT_PRESS 1000 (Some "s")] (Timeval 5 0) (Timeval 5 200000)
         (Timespec 5 210000000) KEY_DEBOUNCE) = true.
Proof.
  assert (Hreach : reachable
    (Key 28 false [Action SHORT_PRESS 1000 (Some "s")] (Timeval 0 0) (Timeval 0 0)
       (Timespec 0 0) KEY_RELEASED)
    (Key 28 true [Action SHORT_PRESS 1000 (Some "s")] (Timeval 5 0) (Timeval 5 200000)
       (Timespec 5 210000000) KEY_DEBOUNCE)).
  { eapply (reach_handle_key _ (Timespec 5 200000000) (InputEvent (Timeval 5 200000) 1 28 0)).
    - eapply (reach_handle_key _ (Timespec 5 0) (InputEvent (Timeval 5 0) 1 28 1)).
      + apply reach_start.
      + vm_compute. reflexivity.
    - vm_compute. reflexivity. }
  split; [exact Hreach|].
  eapply key_invariant; [| | exact Hreach |]; reflexivity.
Defined.

(** The same for the whole table, along the steps of the dispatch loop. *)
Lemma handle_timeouts_Forall_inv debug now keys :
  Forall key_inv keys → Forall key_inv (handle_timeouts debug now keys).1.
Proof.
  induction 1 as [|k keys Hk _ IH]; simpl; [constructor|].
  pose proof (handle_timeouts_key_inv debug now k Hk) as Hk'.
  destruct (handle_timeouts_key debug now k) as [k' t].
  destruct (handle_timeouts debug now keys) as [keys' t']. simpl in *. by constructor.
Qed.

Lemma handle_input_event_Forall_inv debug now event keys filename keys' :
  Forall key_inv keys →
  (handle_input_event debug now event keys filename).1 = Some keys' →
  Forall key_inv keys'.
Proof.
  unfold handle_input_event. intros Hall.
  destruct (negb _); [by intros [= <-]|].
  destruct (find_key _ _) as [i|]; [|by intros [= <-]].
  destruct (keys !! i) as [k|] eqn:Hi; [|done].
  destruct (handle_key now event k) as [k'|] eqn:Hk; [|done].
  intros [= <-]. apply Forall_insert; [done|].
  eapply handle_key_inv; [|done]. by eapply Forall_lookup_1.
Qed.

Lemma run_Forall_inv debug filename steps keys keys' :
  Forall (λ k, state k = KEY_RELEASED ∧ has_wakeup k = false) keys →
  (run debug filename steps keys).1 = Some keys' →
  Forall key_inv keys'.
Proof.
  intros Hinit.
  assert (Hall : Forall key_inv keys).
  { eapply Forall_impl; [done|]. intros k [Hs Hw]. split; [congruence | done]. }
  clear Hinit. revert keys Hall. induction steps as [|s steps IH]; intros keys Hall.
  - by intros [= <-].
  - simpl. destruct (do_step debug filename s keys) as [[keys1|] t] eqn:Hstep; [|done].
    assert (Hall1 : Forall key_inv keys1).
    { destruct s as [now | now event]; simpl in Hstep.
      - pose proof (handle_timeouts_Forall_inv debug now keys Hall) as H.
        destruct (handle_timeouts debug now keys). by simplify_eq.
      - eapply handle_input_event_Forall_inv; [done|]. by rewrite Hstep. }
    specialize (IH keys1 Hall1).
    destruct (run debug filename steps keys1) as [r t']. done.
Qed.

(** *** Release in state pressed, in the two revisions *)

Lemma time_add_ts_value ts msec :
  normal_ts ts → realistic_ts ts → 0 ≤ msec ≤ INT_MAX →
  normal_ts (time_add_ts ts msec)
  ∧ ns_of_ts (time_add_ts ts msec) = ns_of_ts ts + msec * NSECS_IN_MSEC.
Proof.
  unfold time_add_ts, ladd, lsub, lmul, ldiv, lrem. unfold_time.
  intros H1 H2 H3.
  rewrite (wrap64_id (msec * 1000000)) by long_ok.
  rewrite (wrap64_id (_ + _ * 1000000)) by long_ok.
  rewrite Z.quot_div_nonneg, Z.rem_mod_nonneg by lia.
  rewrite (wrap64_id (_ / _)) by long_ok.
  rewrite (wrap64_id (_ `mod` _)) by long_ok.
  rewrite wrap64_id by long_ok.
  simpl. split; Z.div_mod_to_equations; lia.
Qed.

(** C5, as stated, fails: for a key pressed at 0 and released at 50 ms, the
    current revision sets the deadline to 60 ms and the earlier one to 10 ms,
    which is 40 ms in the past when the release is handled. *)
Lemma debounce_deadline_counterexample :
  ts_wakeup <$> handle_key (Timespec 0 50000000) (InputEvent (Timeval 0 50000) 1 28 0)
      (Key 28 false [Action SHORT_PRESS 1000 (Some "s")] (Timeval 0 0) (Timeval 0 0)
         (Timespec 0 0) KEY_PRESSED)
  = Some (Timespec 0 60000000)
  ∧ ts_wakeup <$> handle_key_old (InputEvent (Timeval 0 50000) 1 28 0)
        (Key 28 false [Action SHORT_PRESS 1000 (Some "s")] (Timeval 0 0) (Timeval 0 0)
           (Timespec 0 0) KEY_PRESSED)
    = Some (Timespec 0 10000000)
  ∧ time_diff_ts (Timespec 0 10000000) (Timespec 0 50000000) = -40.
Proof. vm_compute. done. Qed.

(** C5 (amended): on a release in state pressed both revisions enter
    debounce, record the time of the event in [tv_released], set
    [has_wakeup] and leave every other field but [ts_wakeup] alone: the
    code, the actions and [tv_pressed] are those of the key before.  The
    current revision sets the deadline to now + 10 ms; the earlier one to
    [tv_pressed] + 10 ms, which lies 10 ms in the future only if the release
    is handled at the very instant of the press.  The two deadlines are the
    same exactly when now is that instant. *)
Theorem release_enters_debounce (now : timespec) (event : input_event) (k : key) :
  state k = KEY_PRESSED → ev_value event = 0 →
  normal_ts now → realistic_ts now →
  normal_tv (tv_pressed k) → realistic_tv (tv_pressed k) →
  ∃ kn ko,
    handle_key now event k = Some kn ∧ handle_key_old event k = Some ko
    ∧ state kn = KEY_DEBOUNCE ∧ state ko = KEY_DEBOUNCE
    ∧ tv_released kn = ev_time event ∧ tv_released ko = ev_time event
    ∧ has_wakeup kn = true ∧ has_wakeup ko = true
    ∧ code kn = code k ∧ code ko = code k
    ∧ actions kn = actions k ∧ actions ko = actions k
    ∧ tv_pressed kn = tv_pressed k ∧ tv_pressed ko = tv_pressed k
    ∧ kn = set_ts_wakeup (ts_wakeup kn) ko
    ∧ ts_wakeup kn = time_add_ts now DEBOUNCE_MSECS
    ∧ ts_wakeup ko = time_tv2ts (tv_pressed k) DEBOUNCE_MSECS
    ∧ normal_ts (ts_wakeup kn) ∧ normal_ts (ts_wakeup ko)
    ∧ ns_of_ts (ts_wakeup kn) = ns_of_ts now + 10 * NSECS_IN_MSEC
    ∧ ns_of_ts (ts_wakeup ko) = ns_of_tv (tv_pressed k) + 10 * NSECS_IN_MSEC
    ∧ (ts_wakeup kn = ts_wakeup ko ↔ ns_of_ts now = ns_of_tv (tv_pressed k)).
Proof.
  intros Hs Hv Hn Hr Hpn Hpr.
  assert (Hm : 0 ≤ DEBOUNCE_MSECS ≤ INT_MAX) by (unfold DEBOUNCE_MSECS, INT_MAX; lia).
  destruct (time_add_ts_value now DEBOUNCE_MSECS Hn Hr Hm) as [Hnn Hnv].
  destruct (time_tv2ts_normal (tv_pressed k) DEBOUNCE_MSECS Hpn Hpr Hm) as (Hon & _ & Hov).
  unfold handle_key, handle_key_old. rewrite Hs, Hv. cbn [Z.eqb negb].
  eexists _, _. split_and!; try reflexivity; try done.
  cbn [ts_wakeup set_ts_wakeup]. split.
  - intros Heq. rewrite Heq in Hnv. unfold DEBOUNCE_MSECS in *. lia.
  - intros Heq.
    destruct (time_add_ts now DEBOUNCE_MSECS) as [s1 n1].
    destruct (time_tv2ts (tv_pressed k) DEBOUNCE_MSECS) as [s2 n2].
    unfold_time. unfold DEBOUNCE_MSECS in *. simpl in *.
    assert (s1 = s2) by lia. subst. f_equal. lia.
Qed.

(** A release 994 ms after the press, handled 1 ms later, in both revisions. *)
Lemma release_enters_debounce_witness :
  ∃ kn ko,
    handle_key (Timespec 3 995000000) (InputEvent (Timeval 3 994000) 1 28 0)
      (Key 28 true [Action LONG_PRESS 5000 (Some "l")] (Timeval 3 0) (Timeval 0 0)
         (Timespec 8 0) KEY_PRESSED) = Some kn
    ∧ handle_key_old (InputEvent (Timeval 3 994000) 1 28 0)
        (Key 28 true [Action LONG_PRESS 5000 (Some "l")] (Timeval 3 0) (Timeval 0 0)
           (Timespec 8 0) KEY_PRESSED) = Some ko
    ∧ state kn = KEY_DEBOUNCE ∧ state ko = KEY_DEBOUNCE
    ∧ ts_wakeup kn = Timespec 4 5000000
    ∧ ts_wakeup ko = Timespec 3 10000000.
Proof.
  destruct (release_enters_debounce (Timespec 3 995000000)
    (InputEvent (Timeval 3 994000) 1 28 0)
    (Key 28 true [Action LONG_PRESS 5000 (Some "l")] (Timeval 3 0) (Timeval 0 0)
       (Timespec 8 0) KEY_PRESSED))
    as (kn & ko & Hn & Ho & Hsn & Hso & _ & _ & _ & _ & _ & _ & _ & _ & _ & _ & _
        & Hwn & Hwo & _).
  - reflexivity.
  - reflexivity.
  - by_compute.
  - by_compute.
  - by_compute.
  - by_compute.
  - exists kn, ko. split_and!; [exact Hn | exact Ho | exact Hsn | exact Hso | |].
    + rewrite Hwn. by_compute.
    + rewrite Hwo. by_compute.
Defined.

(** *** Error or hangup on an input source *)

(** C8, as stated, fails for the earlier revision: outside test mode a
    hangup makes it exit with a failure status, without any reopen. *)
Lemma hangup_old_revision_counterexample :
  Z.land POLLHUP POLLIN = 0
  ∧ dispatch_source_old false 0 (λ _, []) "/dev/input/event0" (Pollfd 3 POLLIN POLLHUP) []
    = (Exit EXIT_FAILURE, [Printf (MsgHupErr "/dev/input/event0")]).
Proof. split; reflexivity. Qed.

(** C8 (amended): when [poll] reports a condition without POLLIN on a
    source, in test mode both revisions exit at once with status 0.
    Outside test mode the current revision logs, closes the descriptor and
    opens the same path again, registers the descriptor it gets, goes on to
    read from it (reopening once more if that read fails) and keeps
    running; the earlier revision logs and exits with a failure status. *)
Theorem hangup_dispatch (test_mode : bool) (debug : Z)
    (opens : list Z) (reads : Z → list (Z * list (timespec * input_event)))
    (reads_old : Z → list (Z * input_event))
    (filename : string) (p : pollfd) (keys : list key) :
  revents p ≠ 0 → Z.land (revents p) POLLIN = 0 →
  let o1 := default (-1) (head opens) in
  let o2 := default (-1) (head (tail opens)) in
  let r := handle_input debug (reads o1) keys filename in
  (test_mode = true →
     dispatch_source true debug opens reads filename p keys = (Exit 0, [])
     ∧ dispatch_source_old true debug reads_old filename p keys = (Exit 0, []))
  ∧ (test_mode = false →
     dispatch_source false debug opens reads filename p keys
     = (if r.1.1 =? 0
        then (Running (Pollfd o1 (events p) (revents p), r.1.2),
              [Printf (MsgHupErr filename); Close (fd p); Open filename] ++ r.2)
        else (Running (Pollfd o2 (events p) (revents p), r.1.2),
              [Printf (MsgHupErr filename); Close (fd p); Open filename] ++ r.2
              ++ [Close o1; Open filename]))
     ∧ dispatch_source_old false debug reads_old filename p keys
       = (Exit EXIT_FAILURE, [Printf (MsgHupErr filename)])).
Proof.
  intros Hrev Hin o1 o2 r.
  apply Z.eqb_neq in Hrev. apply Z.eqb_eq in Hin.
  unfold dispatch_source, dispatch_source_old. rewrite Hrev, Hin.
  split; intros ->; [done|]. split; [|done].
  cbn [andb reopen_input fd events revents]. fold o1. fold r.
  destruct r as [[rc ks] t]. cbn [fst snd negb].
  destruct (rc =? 0); cbn [negb]; [done|].
  reflexivity.
Qed.

(** A hangup on descriptor 3, the reopen returning descriptor 5. *)
Lemma hangup_dispatch_witness :
  dispatch_source true 0 [5] (λ _, []) "/dev/input/event0"
    (Pollfd 3 POLLIN POLLHUP) []
  = (Exit 0, [])
  ∧ dispatch_source false 0 [5] (λ _, []) "/dev/input/event0"
      (Pollfd 3 POLLIN POLLHUP) []
    = (Running (Pollfd 5 POLLIN POLLHUP, Some []),
       [Printf (MsgHupErr "/dev/input/event0"); Close 3; Open "/dev/input/event0"]).
Proof.
  split.
  - destruct (hangup_dispatch true 0 [5] (λ _, []) (λ _, [])
      "/dev/input/event0" (Pollfd 3 POLLIN POLLHUP) []) as [Ht _].
    + by_compute.
    + by_compute.
    + by destruct (Ht eq_refl).
  - destruct (hangup_dispatch false 0 [5] (λ _, []) (λ _, [])
      "/dev/input/event0" (Pollfd 3 POLLIN POLLHUP) []) as [_ Hf].
    + by_compute.
    + by_compute.
    + by destruct (Hf eq_refl).
Defined.

(** *** Runs of the dispatch loop *)

Lemma run_app debug filename s1 s2 keys :
  run debug filename (s1 ++ s2) keys
  = match run debug filename s1 keys with
    | (Some keys1, t1) =>
        let '(r, t2) := run debug filename s2 keys1 in (r, t1 ++ t2)
    | (None, t1) => (None, t1)
    end.
Proof.
  revert keys. induction s1 as [|s s1 IH]; intros keys; simpl.
  - by destruct (run debug filename s2 keys).
  - destruct (do_step debug filename s keys) as [[keys1|] t]; [|done].
    rewrite IH. destruct (run debug filename s1 keys1) as [[keys2|] t1]; [|done].
    destruct (run debug filename s2 keys2) as [r t2]. by rewrite app_assoc.
Qed.

Lemma finds_app t1 t2 : finds (t1 ++ t2) = finds t1 ++ finds t2.
Proof. unfold finds. induction t1 as [|c t1 IH]; simpl; [done|]. destruct (is_find c); simpl; by rewrite IH. Qed.

Lemma systems_app t1 t2 : systems (t1 ++ t2) = systems t1 ++ systems t2.
Proof. unfold systems. induction t1 as [|c t1 IH]; simpl; [done|]. destruct (is_system c); simpl; by rewrite IH. Qed.

Lemma finds_print_key debug event filename text :
  finds (print_key debug event filename text) = []
  ∧ systems (print_key debug event filename text) = [].
Proof.
  pose proof (print_key_prints debug event filename text) as H.
  unfold finds, systems. induction H as [|c l [m ->] _ [IH1 IH2]]; [done|]. simpl. done.
Qed.

(** A turn of [handle_timeouts] does nothing to a key without wakeup. *)
Lemma handle_timeouts_key_idle debug now k :
  has_wakeup k = false → handle_timeouts_key debug now k = (k, []).
Proof. unfold handle_timeouts_key. by intros ->. Qed.

Lemma handle_timeouts_single debug now k :
  handle_timeouts debug now [k]
  = ([(handle_timeouts_key debug now k).1], (handle_timeouts_key debug now k).2).
Proof.
  simpl. destruct (handle_timeouts_key debug now k) as [k' t]. simpl. by rewrite app_nil_r.
Qed.

(** A record for the code of the only key of the table goes to [handle_key]. *)
Lemma handle_input_event_single debug now event k k' filename :
  ev_type event = 1 → ev_code event = code k → handle_key now event k = Some k' →
  handle_input_event debug now event [k] filename
  = (Some [k'], print_key debug event filename "processing" ++ [HandleKey 0 event]).
Proof.
  intros Ht Hc Hk. unfold handle_input_event, find_key. rewrite Ht. simpl.
  rewrite Hc, Z.eqb_refl. simpl. by rewrite Hk.
Qed.

(** Neither a record nor a turn of the timeout handler makes [buttond]
    look for an action or run a command when the key has no wakeup and the
    state machine leaves the key as it is. *)
Lemma handle_input_event_quiet debug now event keys filename :
  finds (handle_input_event debug now event keys filename).2 = []
  ∧ systems (handle_input_event debug now event keys filename).2 = [].
Proof.
  unfold handle_input_event.
  destruct (negb _).
  { simpl. destruct (2 <? debug); [apply finds_print_key | done]. }
  destruct (find_key _ _) as [i|].
  2:{ simpl. destruct (1 <? debug); [apply finds_print_key | done]. }
  assert (H : finds (print_key debug event filename "processing" ++ [HandleKey i event]) = []
              ∧ systems (print_key debug event filename "processing" ++ [HandleKey i event]) = []).
  { rewrite finds_app, systems_app.
    destruct (finds_print_key debug event filename "processing") as [-> ->]. done. }
  destruct (keys !! i) as [k|]; [|done].
  destruct (handle_key now event k); done.
Qed.

Lemma run_ticks_idle debug filename ticks k :
  has_wakeup k = false → run debug filename (Tick <$> ticks) [k] = (Some [k], []).
Proof.
  intros Hw. induction ticks as [|now ticks IH]; [done|].
  cbn [fmap list_fmap run do_step]. rewrite handle_timeouts_single.
  rewrite handle_timeouts_key_idle by done. cbn [fst snd].
  change (list_fmap _ _ Tick ticks) with (Tick <$> ticks). by rewrite IH.
Qed.

Lemma run_input_single debug filename now event k k' rest :
  ev_type event = 1 → ev_code event = code k → handle_key now event k = Some k' →
  run debug filename (Input now event :: rest) [k]
  = let '(r, t) := run debug filename rest [k'] in
    (r, (print_key debug event filename "processing" ++ [HandleKey 0 event]) ++ t).
Proof.
  intros Ht Hc Hk. cbn [run do_step].
  by rewrite (handle_input_event_single _ _ _ _ k').
Qed.

(** *** Debounce *)

Lemma handle_timeouts_key_pending debug now k :
  0 < time_diff_ts (ts_wakeup k) now → handle_timeouts_key debug now k = (k, []).
Proof.
  intros H. unfold handle_timeouts_key.
  destruct (Z.leb_spec (time_diff_ts (ts_wakeup k) now) 0); [lia|].
  by rewrite andb_false_r.
Qed.

(** C2: a press in state debounce goes back to pressed, keeps
    [tv_pressed] and, the last action not being a long one, clears the
    wakeup.  For a key with a short action only: press at 0, release at
    5 ms, press at 8 ms, release at 50 ms, each handled at its own time
    after a turn of the timeout handler, with any number of further turns
    of the timeout handler before the first press and while the key is
    held, and the timeout handler at 60 ms: [find_key_action] is called
    exactly once, with 50 ms, the time from the first press to the last
    release. *)
Theorem debounce_coalesces (debug : Z) (filename : string) (c tt : Z)
    (cmd : option string) (tvp tvr : timeval) (tsw : timespec)
    (ticks0 ticks1 ticks2 : list timespec) :
  let short := Action SHORT_PRESS tt cmd in
  let k0 := Key c false [short] tvp tvr tsw KEY_RELEASED in
  let press tv := InputEvent tv 1 c 1 in
  let release tv := InputEvent tv 1 c 0 in
  let steps :=
    (Tick <$> ticks0)
    ++ [Input (Timespec 0 0) (press (Timeval 0 0))]
    ++ (Tick <$> ticks1)
    ++ [Input (Timespec 0 5000000) (release (Timeval 0 5000));
        Tick (Timespec 0 8000000);
        Input (Timespec 0 8000000) (press (Timeval 0 8000))]
    ++ (Tick <$> ticks2)
    ++ [Input (Timespec 0 50000000) (release (Timeval 0 50000));
        Tick (Timespec 0 60000000)] in
  (∀ now event k a,
     state k = KEY_DEBOUNCE → ev_value event ≠ 0 →
     last_action k = Some a → a_type a ≠ LONG_PRESS →
     handle_key now event k = Some (set_has_wakeup false (set_state KEY_PRESSED k))
     ∧ tv_pressed (set_has_wakeup false (set_state KEY_PRESSED k)) = tv_pressed k)
  ∧ ∃ t,
      run debug filename steps [k0]
      = (Some [Key c false [short] (Timeval 0 0) (Timeval 0 50000)
                 (Timespec 0 60000000) KEY_RELEASED], t)
      ∧ finds t = [FindKeyAction c 50 (find_key_action k0 50)]
      ∧ find_key_action k0 50 = (if 50 <? tt then Some short else None)
      ∧ systems t = (if 50 <? tt then [System cmd] else []).
Proof.
  intros short k0 press release steps. split.
  { intros now event k a Hs Hv Hl Ha. split; [|done].
    unfold handle_key. rewrite Hs. apply Z.eqb_neq in Hv. rewrite Hv.
    change (last_action (set_state KEY_PRESSED k)) with (last_action k). rewrite Hl.
    by destruct (a_type a). }
  set (k1 := Key c false [short] (Timeval 0 0) tvr tsw KEY_PRESSED).
  set (k2 := Key c true [short] (Timeval 0 0) (Timeval 0 5000) (Timespec 0 15000000)
               KEY_DEBOUNCE).
  set (k3 := Key c false [short] (Timeval 0 0) (Timeval 0 5000) (Timespec 0 15000000)
               KEY_PRESSED).
  set (k4 := Key c true [short] (Timeval 0 0) (Timeval 0 50000) (Timespec 0 60000000)
               KEY_DEBOUNCE).
  assert (H1 : handle_key (Timespec 0 0) (press (Timeval 0 0)) k0 = Some k1) by done.
  assert (H2 : handle_key (Timespec 0 5000000) (release (Timeval 0 5000)) k1 = Some k2).
  { unfold handle_key. cbn. first [reflexivity | do 2 f_equal; by_compute]. }
  assert (H2' : handle_timeouts_key debug (Timespec 0 8000000) k2 = (k2, [])).
  { apply handle_timeouts_key_pending. by_compute. }
  assert (H3 : handle_key (Timespec 0 8000000) (press (Timeval 0 8000)) k2 = Some k3) by done.
  assert (H4 : handle_key (Timespec 0 50000000) (release (Timeval 0 50000)) k3 = Some k4).
  { unfold handle_key. cbn. first [reflexivity | do 2 f_equal; by_compute]. }
  assert (H5 : handle_timeouts_key debug (Timespec 0 60000000) k4
               = (Key c false [short] (Timeval 0 0) (Timeval 0 50000)
                    (Timespec 0 60000000) KEY_RELEASED,
                  (if 3 <? debug then [Printf (MsgAhead 0)] else [])
                  ++ FindKeyAction c 50 (find_key_action k0 50)
                  :: (if 50 <? tt
                      then (if negb (debug =? 0) then [Printf (MsgRunning cmd 50)] else [])
                           ++ [System cmd]
                      else if negb (debug =? 0) then [Printf (MsgIgnoring c 50)] else []))).
  { unfold handle_timeouts_key.
    assert (Hd : time_diff_ts (Timespec 0 60000000) (Timespec 0 60000000) = 0) by by_compute.
    assert (Hv : time_diff_tv (Timeval 0 50000) (Timeval 0 0) = 50) by by_compute.
    cbn. rewrite Hd, Hv. cbn. change (wrap32 50) with 50.
    unfold find_key_action, action_match. cbn.
    by destruct (50 <? tt). }
  assert (Hfind : find_key_action k0 50 = (if 50 <? tt then Some short else None)).
  { unfold find_key_action, action_match. cbn. by destruct (50 <? tt). }
  eexists. split_and!.
  - unfold steps.
    rewrite run_app, (run_ticks_idle _ _ _ k0) by done. cbn [app].
    rewrite (run_input_single _ _ _ _ k0 k1) by done.
    rewrite run_app, (run_ticks_idle _ _ _ k1) by done.
    rewrite (run_input_single _ _ _ _ k1 k2) by done.
    cbn [run do_step]. rewrite handle_timeouts_single, H2'. cbn [fst snd].
    rewrite (handle_input_event_single _ _ _ k2 k3) by done.
    rewrite run_app, (run_ticks_idle _ _ _ k3) by done.
    rewrite (run_input_single _ _ _ _ k3 k4) by done.
    cbn [run do_step]. rewrite handle_timeouts_single, H5. cbn [fst snd].
    reflexivity.
  - rewrite !finds_app.
    rewrite !(proj1 (finds_print_key _ _ _ _)).
    destruct (3 <? debug), (50 <? tt), (negb (debug =? 0)); reflexivity.
  - exact Hfind.
  - rewrite !systems_app.
    rewrite !(proj2 (finds_print_key _ _ _ _)).
    destruct (3 <? debug), (50 <? tt), (negb (debug =? 0)); reflexivity.
Qed.

(** The scenario with default short action, turns of the timeout handler as in [main]. *)
Lemma debounce_coalesces_witness :
  handle_key (Timespec 0 8000000) (InputEvent (Timeval 0 8000) 1 28 1)
    (Key 28 true [Action SHORT_PRESS 1000 (Some "s")] (Timeval 0 0) (Timeval 0 5000)
       (Timespec 0 15000000) KEY_DEBOUNCE)
  = Some (Key 28 false [Action SHORT_PRESS 1000 (Some "s")] (Timeval 0 0) (Timeval 0 5000)
            (Timespec 0 15000000) KEY_PRESSED)
  ∧ ∃ t,
      run 0 "event0"
        [Tick (Timespec 0 0);
         Input (Timespec 0 0) (InputEvent (Timeval 0 0) 1 28 1);
         Tick (Timespec 0 5000000);
         Input (Timespec 0 5000000) (InputEvent (Timeval 0 5000) 1 28 0);
         Tick (Timespec 0 8000000);
         Input (Timespec 0 8000000) (InputEvent (Timeval 0 8000) 1 28 1);
         Tick (Timespec 0 20000000);
         Tick (Timespec 0 50000000);
         Input (Timespec 0 50000000) (InputEvent (Timeval 0 50000) 1 28 0);
         Tick (Timespec 0 60000000)]
        [Key 28 false [Action SHORT_PRESS 1000 (Some "s")] (Timeval 0 0) (Timeval 0 0)
           (Timespec 0 0) KEY_RELEASED]
      = (Some [Key 28 false [Action SHORT_PRESS 1000 (Some "s")] (Timeval 0 0)
                 (Timeval 0 50000) (Timespec 0 60000000) KEY_RELEASED], t)
      ∧ finds t = [FindKeyAction 28 50 (Some (Action SHORT_PRESS 1000 (Some "s")))]
      ∧ systems t = [System (Some "s")].
Proof.
  destruct (debounce_coalesces 0 "event0" 28 1000 (Some "s") (Timeval 0 0) (Timeval 0 0)
              (Timespec 0 0) [Timespec 0 0] [Timespec 0 5000000]
              [Timespec 0 20000000; Timespec 0 50000000])
    as [Hpress (t & Hrun & Hf & _ & Hs)].
  split.
  - destruct (Hpress (Timespec 0 8000000) (InputEvent (Timeval 0 8000) 1 28 1)
      (Key 28 true [Action SHORT_PRESS 1000 (Some "s")] (Timeval 0 0) (Timeval 0 5000)
         (Timespec 0 15000000) KEY_DEBOUNCE)
      (Action SHORT_PRESS 1000 (Some "s"))) as [H _].
    + reflexivity.
    + simpl. lia.
    + reflexivity.
    + simpl. discriminate.
    + exact H.
  - exists t. split_and!; [exact Hrun | exact Hf | exact Hs].
Defined.

(** *** A key held through its long press *)

Lemma time_ts2tv_value now :
  normal_ts now → realistic_ts now →
  time_ts2tv now 0 = Timeval (ts_sec now) (tv_nsec now / NSECS_IN_USEC).
Proof.
  unfold time_ts2tv, ladd, lsub, lmul, ldiv, lrem. unfold_time.
  intros H1 H2.
  rewrite (Z.quot_div_nonneg (tv_nsec now)) by lia.
  rewrite (wrap64_id (_ / 1000)) by long_ok.
  change (wrap64 (0 * 1000)) with 0. rewrite Z.add_0_r.
  rewrite (wrap64_id (_ / 1000)) by long_ok.
  rewrite Z.quot_div_nonneg, Z.rem_mod_nonneg by (try apply Z.div_pos; lia).
  rewrite (wrap64_id (_ / 1000000)) by long_ok.
  rewrite (wrap64_id (_ `mod` 1000000)) by long_ok.
  rewrite Z.div_small, Z.mod_small by (Z.div_mod_to_equations; lia).
  rewrite wrap64_id by long_ok. f_equal. lia.
Qed.

Lemma last_action_lookup k a :
  last_action k = Some a →
  ∃ i, actions k !! i = Some a ∧ length (actions k) = S i.
Proof.
  unfold last_action, action_count. destruct (length (actions k)) as [|i] eqn:Hl; [done|].
  intros H. by exists i.
Qed.

(** The last action, when it matches, is the one found. *)
Lemma find_key_action_last k a time :
  last_action k = Some a → action_match a time = true → find_key_action k time = Some a.
Proof.
  intros (i & Hi & Hlen)%last_action_lookup Hm.
  apply find_key_action_some. exists i. split_and!; [done | done |].
  intros j b Hj Hb. apply lookup_lt_Some in Hb. lia.
Qed.

(** The deadline of a held key has passed: the time from the press to now,
    as the timeout handler computes it, is at least the trigger time. *)
Lemma held_elapsed pressed T now :
  normal_tv pressed → realistic_tv pressed → 0 ≤ T ≤ INT_MAX →
  normal_ts now → realistic_ts now →
  ns_of_ts (time_tv2ts pressed T) ≤ ns_of_ts now →
  ns_of_ts now - ns_of_tv pressed ≤ INT_MAX * NSECS_IN_MSEC →
  time_diff_ts (time_tv2ts pressed T) now ≤ 0
  ∧ T ≤ time_diff_tv (time_ts2tv now 0) pressed ≤ INT_MAX.
Proof.
  intros Hpn Hpr HT Hn Hr Hexp Hlate.
  destruct (time_tv2ts_normal pressed T Hpn Hpr HT) as (Hwn & Hww & Hwv).
  rewrite Hwv in Hexp. split.
  - rewrite time_diff_ts_rounding by auto. rewrite Hwv.
    destruct (_ <=? _); unfold_time; Z.div_mod_to_equations; lia.
  - rewrite time_ts2tv_value by done.
    rewrite time_diff_tv_value; [| | done | | auto].
    + unfold_time. simpl. Z.quot_rem_to_equations. Z.div_mod_to_equations. lia.
    + unfold_time. simpl. Z.div_mod_to_equations. lia.
    + unfold_time. simpl. lia.
Qed.

(** What the timeout handler does to a pressed key whose deadline has
    passed. *)
Lemma handle_timeouts_key_held debug now k a :
  state k = KEY_PRESSED → has_wakeup k = true →
  last_action k = Some a → a_type a = LONG_PRESS → 0 ≤ trigger_time a ≤ INT_MAX →
  ts_wakeup k = time_tv2ts (tv_pressed k) (trigger_time a) →
  normal_tv (tv_pressed k) → realistic_tv (tv_pressed k) →
  normal_ts now → realistic_ts now →
  ns_of_ts (ts_wakeup k) ≤ ns_of_ts now →
  ns_of_ts now - ns_of_tv (tv_pressed k) ≤ INT_MAX * NSECS_IN_MSEC →
  let elapsed := time_diff_tv (time_ts2tv now 0) (tv_pressed k) in
  trigger_time a ≤ elapsed ≤ INT_MAX
  ∧ handle_timeouts_key debug now k
    = (set_state KEY_HANDLED (set_has_wakeup false (set_tv_released (time_ts2tv now 0) k)),
       (if 3 <? debug then [Printf (MsgAhead (time_diff_ts (ts_wakeup k) now))] else [])
       ++ FindKeyAction (code k) elapsed (Some a)
       :: (if negb (debug =? 0) then [Printf (MsgRunning (command a) elapsed)] else [])
       ++ [System (command a)]).
Proof.
  intros Hs Hw Hl Ha HT Hts Hpn Hpr Hn Hr Hexp Hlate elapsed.
  rewrite Hts in Hexp.
  destruct (held_elapsed _ _ _ Hpn Hpr HT Hn Hr Hexp Hlate) as [Hd He].
  fold elapsed in He. split; [done|].
  unfold handle_timeouts_key. rewrite Hw, Hs, Hts.
  apply Z.leb_le in Hd. rewrite Hd. cbn [andb].
  cbn [tv_released tv_pressed set_tv_released code state set_has_wakeup set_state].
  fold elapsed. rewrite Hs.
  rewrite (wrap32_id elapsed) by (unfold in_int, INT_MIN, INT_MAX in *; lia).
  assert (Hf : find_key_action (set_tv_released (time_ts2tv now 0) k) elapsed = Some a).
  { apply find_key_action_last; [done|]. apply action_match_rule. rewrite Ha. lia. }
  rewrite Hf. reflexivity.
Qed.

(** A handled key without wakeup stays as it is as long as no release
    comes, and nothing is looked up or run. *)
Lemma run_handled_quiet debug filename holds k :
  state k = KEY_HANDLED → has_wakeup k = false → Forall no_release holds →
  ∃ t, run debug filename holds [k] = (Some [k], t) ∧ finds t = [] ∧ systems t = [].
Proof.
  intros Hs Hw. induction 1 as [|s holds Hrel _ (t & Hrun & Hf & Hsys)].
  - by exists [].
  - assert (Hstep : ∃ t0, do_step debug filename s [k] = (Some [k], t0)
                          ∧ finds t0 = [] ∧ systems t0 = []).
    { destruct s as [now | now event]; cbn [do_step].
      - rewrite handle_timeouts_single, handle_timeouts_key_idle by done. by exists [].
      - destruct (handle_input_event_quiet debug now event [k] filename) as [Hq1 Hq2].
        exists (handle_input_event debug now event [k] filename).2.
        split_and!; [| done | done].
        rewrite (surjective_pairing (handle_input_event _ _ _ _ _)) at 1. f_equal.
        unfold handle_input_event.
        destruct (negb (ev_type event =? 1)); [done|].
        unfold find_key. cbn [find_key_from].
        destruct (code k =? ev_code event); [|done].
        cbn [lookup list_lookup fst].
        unfold handle_key. rewrite Hs.
        simpl in Hrel. apply Z.eqb_neq in Hrel. by rewrite Hrel. }
    destruct Hstep as (t0 & Hstep & Hf0 & Hs0).
    exists (t0 ++ t). cbn [run]. rewrite Hstep, Hrun.
    by rewrite finds_app, systems_app, Hf, Hsys, Hf0, Hs0.
Qed.

(** X1 (the part of C4 that holds): a key in state pressed whose wakeup is
    the deadline of its last, long action, when the timeout handler runs at
    or after that deadline (and at most INT_MAX ms after the press): the
    release time is set to now, [find_key_action] is called once and returns
    that long action, its command is run once, [has_wakeup] is cleared and
    the key is handled.  From there every press and every further turn of
    the timeout handler leaves the key as it is, without wakeup and without
    running anything; a release moves it to released.  Over the whole hold
    the command runs exactly once. *)
Theorem held_long_press_fires_once (debug : Z) (filename : string) (k : key) (a : action)
    (now now' : timespec) (holds : list step) (rel : input_event) :
  state k = KEY_PRESSED → has_wakeup k = true →
  last_action k = Some a → a_type a = LONG_PRESS → 0 ≤ trigger_time a ≤ INT_MAX →
  sorted_actions (actions k) →
  ts_wakeup k = time_tv2ts (tv_pressed k) (trigger_time a) →
  normal_tv (tv_pressed k) → realistic_tv (tv_pressed k) →
  normal_ts now → realistic_ts now →
  ns_of_ts (ts_wakeup k) ≤ ns_of_ts now →
  ns_of_ts now - ns_of_tv (tv_pressed k) ≤ INT_MAX * NSECS_IN_MSEC →
  Forall no_release holds →
  ev_type rel = 1 → ev_code rel = code k → ev_value rel = 0 →
  let kh := set_state KEY_HANDLED
              (set_has_wakeup false (set_tv_released (time_ts2tv now 0) k)) in
  let elapsed := time_diff_tv (time_ts2tv now 0) (tv_pressed k) in
  (∀ b, b ∈ actions k → a_type b = LONG_PRESS → trigger_time b ≤ trigger_time a)
  ∧ trigger_time a ≤ elapsed
  ∧ (handle_timeouts_key debug now k).1 = kh
  ∧ finds (handle_timeouts_key debug now k).2 = [FindKeyAction (code k) elapsed (Some a)]
  ∧ systems (handle_timeouts_key debug now k).2 = [System (command a)]
  ∧ tv_released kh = time_ts2tv now 0
  ∧ us_of_tv (time_ts2tv now 0) = ns_of_ts now / NSECS_IN_USEC
  ∧ state kh = KEY_HANDLED ∧ has_wakeup kh = false
  ∧ (∀ now1 event, ev_value event ≠ 0 → handle_key now1 event kh = Some kh)
  ∧ (∀ debug1 now1, handle_timeouts_key debug1 now1 kh = (kh, []))
  ∧ (∀ now1 event, ev_value event = 0 →
       handle_key now1 event kh = Some (set_state KEY_RELEASED kh))
  ∧ ∃ t, run debug filename (Tick now :: holds ++ [Input now' rel]) [k]
         = (Some [set_state KEY_RELEASED kh], t)
         ∧ finds t = [FindKeyAction (code k) elapsed (Some a)]
         ∧ systems t = [System (command a)].
Proof.
  intros Hs Hw Hl Ha HT Hsorted Hts Hpn Hpr Hn Hr Hexp Hlate Hholds Hrt Hrc Hrv kh elapsed.
  destruct (handle_timeouts_key_held debug now k a Hs Hw Hl Ha HT Hts Hpn Hpr Hn Hr Hexp Hlate)
    as [He Hfire]. fold elapsed in He, Hfire. fold kh in Hfire.
  assert (Hfinds : finds (handle_timeouts_key debug now k).2
                   = [FindKeyAction (code k) elapsed (Some a)]).
  { rewrite Hfire. cbn [snd]. destruct (3 <? debug), (negb (debug =? 0)); reflexivity. }
  assert (Hsys : systems (handle_timeouts_key debug now k).2 = [System (command a)]).
  { rewrite Hfire. cbn [snd]. destruct (3 <? debug), (negb (debug =? 0)); reflexivity. }
  assert (Hpress : ∀ now1 event, ev_value event ≠ 0 → handle_key now1 event kh = Some kh).
  { intros now1 event Hv. unfold handle_key. cbn [state kh set_state].
    apply Z.eqb_neq in Hv. by rewrite Hv. }
  assert (Hrel : ∀ now1 event, ev_value event = 0 →
                 handle_key now1 event kh = Some (set_state KEY_RELEASED kh)).
  { intros now1 event Hv. unfold handle_key. cbn [state kh set_state]. by rewrite Hv. }
  split_and!; [| lia | by rewrite Hfire | done | done | done | | done | done | done | | done |].
  - intros b Hb Hbt. destruct Hsorted as [_ Hasc].
    apply last_action_lookup in Hl as (i & Hi & Hlen).
    apply list_elem_of_lookup in Hb as [j Hj].
    assert (Hji : (j < S i)%nat) by (rewrite <- Hlen; by eapply lookup_lt_Some).
    destruct (decide (j = i)) as [-> | Hne].
    + assert (b = a) by congruence. subst. lia.
    + apply (Hasc j i b a); [lia | done | done | done | done].
  - rewrite time_ts2tv_value by done. unfold_time. simpl.
    Z.div_mod_to_equations. lia.
  - intros debug1 now1. by apply handle_timeouts_key_idle.
  - destruct (run_handled_quiet debug filename holds kh eq_refl eq_refl Hholds)
      as (t & Hrun & Hf & Hsy).
    eexists. split_and!.
    + cbn [run do_step]. rewrite handle_timeouts_single, Hfire. cbn [fst snd].
      rewrite run_app, Hrun.
      rewrite (run_input_single _ _ _ _ kh (set_state KEY_RELEASED kh)) by auto.
      cbn [run]. reflexivity.
    + rewrite !finds_app, Hf, (proj1 (finds_print_key _ _ _ _)).
      destruct (3 <? debug), (negb (debug =? 0)); reflexivity.
    + rewrite !systems_app, Hsy, (proj2 (finds_print_key _ _ _ _)).
      destruct (3 <? debug), (negb (debug =? 0)); reflexivity.
Qed.

(** A key held from 100.25 s, handler at 105.2504 s, a repeat, a release at 107 s. *)
Lemma held_long_press_fires_once_witness :
  ∃ t,
    run 1 "event0"
      (Tick (Timespec 105 250400000)
       :: [Input (Timespec 105 300000000) (InputEvent (Timeval 105 300000) 1 28 2);
           Tick (Timespec 106 0)]
       ++ [Input (Timespec 107 0) (InputEvent (Timeval 107 0) 1 28 0)])
      [Key 28 true
         [Action SHORT_PRESS 1000 (Some "s"); Action LONG_PRESS 5000 (Some "l")]
         (Timeval 100 250000) (Timeval 0 0) (Timespec 105 250000000) KEY_PRESSED]
    = (Some [Key 28 false
               [Action SHORT_PRESS 1000 (Some "s"); Action LONG_PRESS 5000 (Some "l")]
               (Timeval 100 250000) (Timeval 105 250400) (Timespec 105 250000000)
               KEY_RELEASED], t)
    ∧ finds t = [FindKeyAction 28 5000 (Some (Action LONG_PRESS 5000 (Some "l")))]
    ∧ systems t = [System (Some "l")].
Proof.
  destruct (held_long_press_fires_once 1 "event0"
    (Key 28 true
       [Action SHORT_PRESS 1000 (Some "s"); Action LONG_PRESS 5000 (Some "l")]
       (Timeval 100 250000) (Timeval 0 0) (Timespec 105 250000000) KEY_PRESSED)
    (Action LONG_PRESS 5000 (Some "l"))
    (Timespec 105 250400000) (Timespec 107 0)
    [Input (Timespec 105 300000000) (InputEvent (Timeval 105 300000) 1 28 2);
     Tick (Timespec 106 0)]
    (InputEvent (Timeval 107 0) 1 28 0))
    as (_ & _ & _ & _ & _ & _ & _ & _ & _ & _ & _ & _ & t & Hrun & Hf & Hs).
  - reflexivity.
  - reflexivity.
  - reflexivity.
  - reflexivity.
  - by_compute.
  - split.
    + intros [|[|i]] a Hi Ht; simpl in Hi; simplify_eq; done.
    + intros [|[|i]] [|[|j]] a b Hij Hi Hj Ha Hb; simpl in Hi, Hj; simplify_eq;
        simpl; lia.
  - by_compute.
  - by_compute.
  - by_compute.
  - by_compute.
  - by_compute.
  - by_compute.
  - by_compute.
  - repeat constructor. simpl. lia.
  - reflexivity.
  - reflexivity.
  - reflexivity.
  - exists t. split_and!.
    + rewrite Hrun. vm_compute. reflexivity.
    + rewrite Hf. vm_compute. reflexivity.
    + exact Hs.
Defined.

(** C4 (failing input): the test for an expired deadline, [time_diff_ts <=
    0], also passes during the last millisecond before the deadline.  A key
    with one long action of 1500 ms is pressed at 100 s and the press is
    handled 0.1 ms later: the wakeup is 101.5 s and the wait given to [poll]
    is 1499 ms.  When the timeout handler runs at 101.4997 s, it takes the
    deadline for expired, finds no action for the 1499 ms it computes, runs
    nothing, and moves the key to handled without wakeup: held on, the key
    never runs its long action. *)
Lemma early_expiry_loses_long_press :
  handle_key (Timespec 100 100000) (InputEvent (Timeval 100 0) 1 28 1)
    (Key 28 false [Action LONG_PRESS 1500 (Some "l")] (Timeval 0 0) (Timeval 0 0)
       (Timespec 0 0) KEY_RELEASED)
  = Some (Key 28 true [Action LONG_PRESS 1500 (Some "l")] (Timeval 100 0) (Timeval 0 0)
            (Timespec 101 500000000) KEY_PRESSED)
  ∧ compute_timeout (Timespec 100 100000)
      [Key 28 true [Action LONG_PRESS 1500 (Some "l")] (Timeval 100 0) (Timeval 0 0)
         (Timespec 101 500000000) KEY_PRESSED]
    = 1499
  ∧ ns_of_ts (Timespec 101 499700000) < ns_of_ts (Timespec 101 500000000)
  ∧ handle_timeouts 1 (Timespec 101 499700000)
      [Key 28 true [Action LONG_PRESS 1500 (Some "l")] (Timeval 100 0) (Timeval 0 0)
         (Timespec 101 500000000) KEY_PRESSED]
    = ([Key 28 false [Action LONG_PRESS 1500 (Some "l")] (Timeval 100 0)
          (Timeval 101 499700) (Timespec 101 500000000) KEY_HANDLED],
       [FindKeyAction 28 1499 None; Printf (MsgIgnoring 28 1499)])
  ∧ (∀ debug now,
       handle_timeouts debug now
         [Key 28 false [Action LONG_PRESS 1500 (Some "l")] (Timeval 100 0)
            (Timeval 101 499700) (Timespec 101 500000000) KEY_HANDLED]
       = ([Key 28 false [Action LONG_PRESS 1500 (Some "l")] (Timeval 100 0)
             (Timeval 101 499700) (Timespec 101 500000000) KEY_HANDLED], [])).
Proof.
  split_and!; [by_compute | by_compute | by_compute | by_compute |].
  intros debug now. by rewrite handle_timeouts_single, handle_timeouts_key_idle.
Qed.

(** *** Order of the actions after configuration *)

Lemma compare_le_long a b :
  a_type a = LONG_PRESS → a_type b = LONG_PRESS →
  compare_le a b ↔ trigger_time a ≤ trigger_time b.
Proof.
  unfold compare_le, sort_actions_compare. intros -> ->.
  destruct (Z.ltb_spec (trigger_time a) (trigger_time b));
    destruct (Z.ltb_spec (trigger_time b) (trigger_time a)); lia.
Qed.

Lemma compare_le_short a b : a_type a = SHORT_PRESS → compare_le a b.
Proof. unfold compare_le, sort_actions_compare. intros ->. lia. Qed.

Lemma compare_le_long_short a b :
  a_type a = LONG_PRESS → a_type b = SHORT_PRESS → ¬ compare_le a b.
Proof. unfold compare_le, sort_actions_compare. intros -> ->. lia. Qed.

Lemma compare_le_transitive : Transitive compare_le.
Proof.
  intros a b c Hab Hbc.
  destruct (a_type a) eqn:Ha; [|by apply compare_le_short].
  destruct (a_type b) eqn:Hb; [|by destruct (compare_le_long_short a b)].
  destruct (a_type c) eqn:Hc; [|by destruct (compare_le_long_short b c)].
  apply compare_le_long in Hab, Hbc; try done. apply compare_le_long; [done | done | lia].
Qed.

Lemma compare_le_total a b : compare_le a b ∨ compare_le b a.
Proof.
  destruct (a_type a) eqn:Ha; [|left; by apply compare_le_short].
  destruct (a_type b) eqn:Hb; [|right; by apply compare_le_short].
  destruct (Z.le_ge_cases (trigger_time a) (trigger_time b));
    [left | right]; by apply compare_le_long.
Qed.


Lemma n_short_app l1 l2 : n_short (l1 ++ l2) = (n_short l1 + n_short l2)%nat.
Proof. unfold n_short. by rewrite List.filter_app, length_app. Qed.


Lemma n_short_none l : existsb is_short l = false → n_short l = 0%nat.
Proof.
  unfold n_short. induction l as [|a l IH]; simpl; [done|].
  destruct (is_short a); simpl; [done|]. apply IH.
Qed.

Lemma n_short_insert l i a a' :
  l !! i = Some a → a_type a' = a_type a → n_short (<[i := a']> l) = n_short l.
Proof.
  unfold n_short. revert i. induction l as [|x l IH]; intros i Hi Ht; [done|].
  destruct i as [|i]; simpl in *.
  - injection Hi as ->. unfold is_short. rewrite Ht. by destruct (a_type a).
  - destruct (is_short x); simpl; by rewrite (IH i).
Qed.

Lemma n_short_two l i a b :
  l !! 0%nat = Some b → l !! i = Some a → (0 < i)%nat →
  a_type a = SHORT_PRESS → a_type b = SHORT_PRESS → (2 ≤ n_short l)%nat.
Proof.
  destruct l as [|x l]; [done|]. destruct i as [|i]; [lia|]. simpl.
  intros [= ->] Hi _ Ha Hb. unfold n_short. simpl. unfold is_short at 1. rewrite Hb. simpl.
  apply list_elem_of_lookup_2, list_elem_of_In in Hi.
  assert (Hin : In a (List.filter is_short l)).
  { apply List.filter_In. split; [done|]. unfold is_short. by rewrite Ha. }
  destruct (List.filter is_short l); [done | simpl; lia].
Qed.


Lemma insert_sorted_perm x l : x :: l ≡ₚ insert_sorted x l.
Proof.
  induction l as [|y l IH]; simpl; [done|].
  destruct (_ <=? 0); [done|]. rewrite <- IH. apply Permutation_swap.
Qed.

Lemma insert_sorted_Sorted x l : Sorted compare_le l → Sorted compare_le (insert_sorted x l).
Proof.
  induction 1 as [|y l Hs IH Hhd]; simpl.
  - by repeat constructor.
  - destruct (Z.leb_spec (sort_actions_compare x y) 0) as [Hle | Hgt].
    + constructor; [by constructor | by constructor].
    + assert (Hyx : compare_le y x).
      { destruct (compare_le_total x y) as [H | H]; [unfold compare_le in H; lia | done]. }
      constructor; [done|].
      destruct l as [|z l]; simpl in *.
      * by constructor.
      * destruct (_ <=? 0); constructor; [done|]. by inversion Hhd.
Qed.

Lemma insertion_sort_contract : qsort_contract insertion_sort.
Proof.
  intros l _. induction l as [|x l [IHp IHs]]; simpl.
  - split; [done | constructor].
  - split.
    + rewrite <- insert_sorted_perm. by constructor.
    + by apply insert_sorted_Sorted.
Qed.

(** While [main] parses its options no key gets a second short action. *)
Lemma update_cur_short f c c' :
  (∀ a, a_type (f a) = a_type a) →
  Forall (λ k, (n_short (actions k) ≤ 1)%nat) (cfg_keys c) →
  update_cur f c = Some c' →
  Forall (λ k, (n_short (actions k) ≤ 1)%nat) (cfg_keys c').
Proof.
  intros Hf Hall. unfold update_cur.
  destruct (cfg_cur c) as [[ki ai]|]; [|done]. simpl.
  destruct (cfg_keys c !! ki) as [k|] eqn:Hk; [|done]. simpl.
  destruct (actions k !! ai) as [a|] eqn:Ha; [|done]. simpl.
  intros [= <-]. simpl. apply Forall_insert; [done|]. simpl.
  rewrite (n_short_insert _ _ a) by done.
  by apply (Forall_lookup_1 _ _ _ _ Hall Hk).
Qed.

Lemma parse_opt_short c o c' :
  Forall (λ k, (n_short (actions k) ≤ 1)%nat) (cfg_keys c) →
  parse_opt c o = Some c' →
  Forall (λ k, (n_short (actions k) ≤ 1)%nat) (cfg_keys c').
Proof.
  intros Hall.
  assert (Hadd : ∀ arg (short : bool),
    (if negb (action_is_set c) then None
     else if negb ((0 <=? arg) && (arg <=? 65535)) then None
     else
       let '(ki, keys1) :=
         match find_key (cfg_keys c) arg with
         | Some i => (i, cfg_keys c)
         | None => (length (cfg_keys c), cfg_keys c ++ [new_key arg])
         end in
       k ← keys1 !! ki;
       a ← (if short then add_short_action k else add_long_action k);
       Some (Config (<[ki := set_actions (actions k ++ [a]) k]> keys1)
                    (Some (ki, action_count k)))) = Some c' →
    Forall (λ k, (n_short (actions k) ≤ 1)%nat) (cfg_keys c')).
  { intros arg short.
    destruct (negb (action_is_set c)); [done|].
    destruct (negb _); [done|].
    set (sel := match find_key (cfg_keys c) arg with
                | Some i => (i, cfg_keys c)
                | None => (length (cfg_keys c), cfg_keys c ++ [new_key arg])
                end).
    assert (Hall1 : Forall (λ k, (n_short (actions k) ≤ 1)%nat) sel.2).
    { unfold sel. destruct (find_key _ _); simpl; [done|].
      apply Forall_app. split; [done|]. repeat constructor. }
    destruct sel as [ki keys1]. simpl in Hall1.
    destruct (keys1 !! ki) as [k|] eqn:Hk; [|done]. simpl.
    pose proof (Forall_lookup_1 _ _ _ _ Hall1 Hk) as Hkn. simpl in Hkn.
    destruct short.
    - unfold add_short_action. destruct (existsb is_short (actions k)) eqn:He; [done|].
      simpl. intros [= <-]. simpl. apply Forall_insert; [done|]. simpl.
      rewrite n_short_app, (n_short_none _ He). done.
    - simpl. intros [= <-]. simpl. apply Forall_insert; [done|]. simpl.
      rewrite n_short_app. unfold n_short at 2. simpl. lia. }
  destruct o as [arg | arg | cmd | arg]; unfold parse_opt.
  - apply (Hadd arg true).
  - apply (Hadd arg false).
  - by apply update_cur_short.
  - destruct (cfg_cur c); [|done].
    destruct (negb ((INT_MIN <=? arg) && (arg <=? INT_MAX))); [done|].
    by apply update_cur_short.
Qed.

Lemma parse_opts_short opts c c' :
  Forall (λ k, (n_short (actions k) ≤ 1)%nat) (cfg_keys c) →
  parse_opts c opts = Some c' →
  Forall (λ k, (n_short (actions k) ≤ 1)%nat) (cfg_keys c').
Proof.
  revert c. induction opts as [|o opts IH]; intros c Hall; simpl.
  - by intros [= <-].
  - destruct (parse_opt c o) as [c1|] eqn:Ho; [|done]. simpl.
    apply IH. by eapply parse_opt_short.
Qed.




(** *** The state machine reads no action out of bounds *)

Lemma handle_key_total now event k :
  actions k ≠ [] → ∃ k', handle_key now event k = Some k' ∧ actions k' = actions k.
Proof.
  intros Hne. unfold handle_key.
  assert (Hl : ∀ k0, actions k0 = actions k → ∃ a, last_action k0 = Some a).
  { intros k0 Hk0. unfold last_action, action_count. rewrite Hk0.
    destruct (actions k) as [|x l] eqn:Ha using rev_ind; [done|].
    rewrite length_app. simpl. rewrite Nat.add_1_r.
    exists x. by rewrite lookup_app_r, Nat.sub_diag. }
  destruct (state k) eqn:Hs; destruct (ev_value event =? 0); cbn [negb]; eauto.
  - destruct (Hl (set_state KEY_PRESSED (set_tv_pressed (ev_time event) k)) eq_refl)
      as [a ->].
    destruct (a_type a); eauto.
  - destruct (Hl (set_state KEY_PRESSED k) eq_refl) as [a ->].
    destruct (a_type a); eauto.
Qed.

Lemma handle_timeouts_key_actions debug now k :
  actions (handle_timeouts_key debug now k).1 = actions k.
Proof.
  unfold handle_timeouts_key. destruct (has_wakeup k && _); [|done].
  destruct (state k) eqn:Hs; simpl; rewrite ?Hs; reflexivity.
Qed.





Lemma update_cur_nonempty f c c' :
  Forall (λ k, actions k ≠ []) (cfg_keys c) →
  update_cur f c = Some c' →
  Forall (λ k, actions k ≠ []) (cfg_keys c').
Proof.
  intros Hall. unfold update_cur.
  destruct (cfg_cur c) as [[ki ai]|]; [|done]. simpl.
  destruct (cfg_keys c !! ki) as [k|] eqn:Hk; [|done]. simpl.
  destruct (actions k !! ai) as [a|] eqn:Ha; [|done]. simpl.
  intros [= <-]. simpl. apply Forall_insert; [done|]. simpl.
  intros Hnil. apply (f_equal length) in Hnil. rewrite length_insert in Hnil.
  apply lookup_lt_Some in Ha. simpl in Hnil. lia.
Qed.

Lemma parse_opt_nonempty c o c' :
  Forall (λ k, actions k ≠ []) (cfg_keys c) →
  parse_opt c o = Some c' →
  Forall (λ k, actions k ≠ []) (cfg_keys c').
Proof.
  intros Hall.
  assert (Hadd : ∀ arg (add : key → option action),
    (if negb (action_is_set c) then None
     else if negb ((0 <=? arg) && (arg <=? 65535)) then None
     else
       let '(ki, keys1) :=
         match find_key (cfg_keys c) arg with
         | Some i => (i, cfg_keys c)
         | None => (length (cfg_keys c), cfg_keys c ++ [new_key arg])
         end in
       k ← keys1 !! ki;
       a ← add k;
       Some (Config (<[ki := set_actions (actions k ++ [a]) k]> keys1)
                    (Some (ki, action_count k)))) = Some c' →
    Forall (λ k, actions k ≠ []) (cfg_keys c')).
  { intros arg add.
    destruct (negb (action_is_set c)); [done|].
    destruct (negb _); [done|].
    destruct (find_key (cfg_keys c) arg) as [i|].
    - destruct (cfg_keys c !! i) as [k|]; [|done]. simpl.
      destruct (add k) as [a|]; [|done]. simpl. intros [= <-]. simpl.
      apply Forall_insert; [done|]. simpl. by destruct (actions k).
    - rewrite lookup_app_r, Nat.sub_diag by done. simpl.
      destruct (add (new_key arg)) as [a|]; [|done]. simpl. intros [= <-]. simpl.
      replace (length (cfg_keys c)) with (length (cfg_keys c) + 0)%nat by lia.
      rewrite insert_app_r. simpl. apply Forall_app. split; [done|].
      repeat constructor. simpl. discriminate. }
  destruct o as [arg | arg | cmd | arg]; unfold parse_opt.
  - apply (Hadd arg add_short_action).
  - apply (Hadd arg add_long_action).
  - by apply update_cur_nonempty.
  - destruct (cfg_cur c); [|done].
    destruct (negb ((INT_MIN <=? arg) && (arg <=? INT_MAX))); [done|].
    by apply update_cur_nonempty.
Qed.

(** Every key of a configured table has an action, so [run_total] applies
    to the table [main] enters its loop with. *)
Lemma configure_nonempty qsort opts keys :
  qsort_contract qsort → configure qsort opts = Some keys →
  Forall (λ k, actions k ≠ []) keys.
Proof.
  intros Hq. unfold configure.
  destruct (parse_opts (Config [] None) opts) as [c|] eqn:Hp; [|done]. simpl.
  destruct (action_is_set c); [|done]. intros [= <-].
  assert (Hall : Forall (λ k, actions k ≠ []) (cfg_keys c)).
  { assert (Hgen : ∀ opts c0 c1, Forall (λ k, actions k ≠ []) (cfg_keys c0) →
                     parse_opts c0 opts = Some c1 →
                     Forall (λ k, actions k ≠ []) (cfg_keys c1)).
    { clear. induction opts as [|o opts IH]; intros c0 c1 H0; simpl.
      - by intros [= <-].
      - destruct (parse_opt c0 o) as [c2|] eqn:Ho; [|done]. simpl.
        apply IH. by eapply parse_opt_nonempty. }
    eapply Hgen; [|done]. constructor. }
  assert (Hshort : Forall (λ k, (n_short (actions k) ≤ 1)%nat) (cfg_keys c)).
  { eapply parse_opts_short; [|done]. constructor. }
  apply Forall_fmap. rewrite Forall_forall in Hall, Hshort. apply Forall_forall.
  intros k Hk. simpl.
  destruct (Hq (actions k) (Hshort k Hk)) as [Hperm _]. intros Hnil.
  rewrite Hnil in Hperm. apply Permutation_nil_r in Hperm. by apply (Hall k Hk).
Qed.

(** *** More on the time arithmetic *)

(** X3: exchanging the two timestamps changes the sign of the difference
    and nothing else, for [time_diff_ts] and for [time_diff_tv]: the
    division truncates toward zero on both sides.  The difference of a
    timestamp with itself is 0. *)
Theorem time_diff_antisymmetric (ts1 ts2 : timespec) (tv1 tv2 : timeval) :
  normal_ts ts1 → normal_ts ts2 → realistic_ts ts1 → realistic_ts ts2 →
  normal_tv tv1 → normal_tv tv2 → realistic_tv tv1 → realistic_tv tv2 →
  time_diff_ts ts1 ts2 = - time_diff_ts ts2 ts1
  ∧ time_diff_tv tv1 tv2 = - time_diff_tv tv2 tv1
  ∧ time_diff_ts ts1 ts1 = 0
  ∧ time_diff_tv tv1 tv1 = 0.
Proof.
  intros Hn1 Hn2 Hr1 Hr2 Hv1 Hv2 Hw1 Hw2.
  rewrite !time_diff_ts_value, !time_diff_tv_value by auto.
  unfold_time. split_and!; Z.quot_rem_to_equations; lia.
Qed.

(** [time_diff_ts] of 2.25 s and 1.75 s, both ways. *)
Lemma time_diff_antisymmetric_witness :
  time_diff_ts (Timespec 2 250000000) (Timespec 1 750000000) = 500
  ∧ time_diff_ts (Timespec 1 750000000) (Timespec 2 250000000) = -500.
Proof.
  destruct (time_diff_antisymmetric (Timespec 2 250000000) (Timespec 1 750000000)
              (Timeval 2 250000) (Timeval 1 750000)) as (H & _).
  - by_compute.
  - by_compute.
  - by_compute.
  - by_compute.
  - by_compute.
  - by_compute.
  - by_compute.
  - by_compute.
  - split; [by_compute|]. apply (f_equal Z.opp) in H. rewrite Z.opp_involutive in H.
    rewrite <- H. by_compute.
Defined.

(** X4: the difference never grows when the second timestamp moves
    forward, and never shrinks when the first one does.  So a deadline that
    [handle_timeouts] takes for expired at one clock reading is taken for
    expired at every later one, and the wait of [compute_timeout] for one
    key does not grow with time. *)
Theorem time_diff_ts_monotone (ts1 ts1' ts2 ts2' : timespec) :
  normal_ts ts1 → normal_ts ts1' → normal_ts ts2 → normal_ts ts2' →
  realistic_ts ts1 → realistic_ts ts1' → realistic_ts ts2 → realistic_ts ts2' →
  ns_of_ts ts1 ≤ ns_of_ts ts1' → ns_of_ts ts2 ≤ ns_of_ts ts2' →
  time_diff_ts ts1 ts2' ≤ time_diff_ts ts1 ts2
  ∧ time_diff_ts ts1 ts2 ≤ time_diff_ts ts1' ts2
  ∧ (time_diff_ts ts1 ts2 ≤ 0 → time_diff_ts ts1 ts2' ≤ 0).
Proof.
  intros Hn1 Hn1' Hn2 Hn2' Hr1 Hr1' Hr2 Hr2' H1 H2.
  assert (Ha : time_diff_ts ts1 ts2' ≤ time_diff_ts ts1 ts2).
  { rewrite !time_diff_ts_value by auto. unfold_time.
    assert (ts_sec ts2 = ts_sec ts2' ∨ ts_sec ts2 < ts_sec ts2') as [Heq | Hlt] by lia.
    - rewrite Heq in *. Z.quot_rem_to_equations. lia.
    - Z.quot_rem_to_equations. lia. }
  split_and!; [done | | lia].
  rewrite !time_diff_ts_value by auto. unfold_time.
  assert (ts_sec ts1 = ts_sec ts1' ∨ ts_sec ts1 < ts_sec ts1') as [Heq | Hlt] by lia.
  - rewrite Heq in *. Z.quot_rem_to_equations. lia.
  - Z.quot_rem_to_equations. lia.
Qed.

(** A deadline at 8 s, seen from 7.9996 s and from 8.2 s. *)
Lemma time_diff_ts_monotone_witness :
  time_diff_ts (Timespec 8 0) (Timespec 8 200000000)
  ≤ time_diff_ts (Timespec 8 0) (Timespec 7 999600000).
Proof.
  destruct (time_diff_ts_monotone (Timespec 8 0) (Timespec 8 0)
              (Timespec 7 999600000) (Timespec 8 200000000)) as (H & _).
  - by_compute.
  - by_compute.
  - by_compute.
  - by_compute.
  - by_compute.
  - by_compute.
  - by_compute.
  - by_compute.
  - by_compute.
  - by_compute.
  - exact H.
Defined.

Lemma time_ts2tv_msec_value ts msec :
  normal_ts ts → wide_ts ts → 0 ≤ msec ≤ INT_MAX →
  time_ts2tv ts msec
  = Timeval (ts_sec ts + (tv_nsec ts / 1000 + msec * 1000) / USECS_IN_SEC)
            ((tv_nsec ts / 1000 + msec * 1000) `mod` USECS_IN_SEC).
Proof.
  unfold time_ts2tv, ladd, lsub, lmul, ldiv, lrem. unfold_time.
  intros H1 H2 H3.
  rewrite (Z.quot_div_nonneg (tv_nsec ts)) by lia.
  rewrite (wrap64_id (_ / 1000)) by long_ok.
  rewrite (wrap64_id (msec * 1000)) by long_ok.
  rewrite (wrap64_id (_ + _ * 1000)) by long_ok.
  rewrite Z.quot_div_nonneg, Z.rem_mod_nonneg by (Z.div_mod_to_equations; lia).
  rewrite (wrap64_id (_ / 1000000)) by long_ok.
  rewrite (wrap64_id (_ `mod` 1000000)) by long_ok.
  rewrite wrap64_id by long_ok. done.
Qed.

(** X5: the two conversions.  [time_ts2tv] drops what is below a
    microsecond and adds the offset: the result is normalized and worth
    [ns / 1000 + msec * 1000] microseconds.  Converting a timeval to a
    timespec and back gives the timeval again, and with an offset on the
    way the timeval moved by that offset. *)
Theorem time_conversions (ts : timespec) (base : timeval) (msec : Z) :
  normal_ts ts → realistic_ts ts → normal_tv base → realistic_tv base →
  0 ≤ msec ≤ INT_MAX →
  normal_tv (time_ts2tv ts msec)
  ∧ us_of_tv (time_ts2tv ts msec) = ns_of_ts ts / NSECS_IN_USEC + msec * USECS_IN_MSEC
  ∧ time_ts2tv (time_tv2ts base 0) 0 = base
  ∧ normal_tv (time_ts2tv (time_tv2ts base msec) 0)
  ∧ us_of_tv (time_ts2tv (time_tv2ts base msec) 0) = us_of_tv base + msec * USECS_IN_MSEC
  ∧ time_ts2tv (time_tv2ts base msec) 0 = time_ts2tv (time_tv2ts base 0) msec.
Proof.
  intros Hn Hr Hbn Hbr Hm.
  assert (H0 : 0 ≤ 0 ≤ INT_MAX) by (unfold INT_MAX; lia).
  destruct (time_tv2ts_normal base msec Hbn Hbr Hm) as (Hmn & Hmw & _).
  destruct (time_tv2ts_normal base 0 Hbn Hbr H0) as (H0n & H0w & _).
  rewrite !time_ts2tv_msec_value by auto.
  rewrite !time_tv2ts_value by auto.
  destruct base as [bs bu]. unfold_time. cbn [tv_sec tv_usec ts_sec tv_nsec] in *.
  clear Hmn Hmw H0n H0w.
  assert (Hscale : ∀ x, 0 ≤ x →
            (x * 1000) / 1000000000 = x / 1000000
            ∧ ((x * 1000) `mod` 1000000000) / 1000 = x `mod` 1000000).
  { intros x Hx. split; Z.div_mod_to_equations; lia. }
  replace (bu * 1000 + msec * 1000000) with ((bu + msec * 1000) * 1000) by lia.
  replace (bu * 1000 + 0 * 1000000) with (bu * 1000) by lia.
  destruct (Hscale (bu + msec * 1000) ltac:(lia)) as [-> ->].
  destruct (Hscale bu ltac:(lia)) as [-> ->].
  rewrite !Z.add_0_r.
  rewrite !(Z.mod_small bu) by lia. rewrite !(Z.div_small bu) by lia.
  rewrite !Z.mod_mod by lia.
  rewrite (Z.div_small (_ `mod` 1000000)) by (Z.div_mod_to_equations; lia).
  split_and!; try (f_equal; lia); Z.div_mod_to_equations; lia.
Qed.

(** 3.999 s + 5 s through both conversions. *)
Lemma time_conversions_witness :
  time_ts2tv (time_tv2ts (Timeval 3 999000) 0) 0 = Timeval 3 999000
  ∧ time_ts2tv (Timespec 3 999000999) 5000 = Timeval 8 999000.
Proof.
  destruct (time_conversions (Timespec 3 999000999) (Timeval 3 999000) 5000)
    as (_ & _ & Hround & _).
  - by_compute.
  - by_compute.
  - by_compute.
  - by_compute.
  - by_compute.
  - split; [exact Hround | by_compute].
Defined.

(** *** What a turn of the timeout handler leaves behind *)

Lemma handle_timeouts_key_settled debug now k :
  has_wakeup (handle_timeouts_key debug now k).1 = true →
  0 < time_diff_ts (ts_wakeup (handle_timeouts_key debug now k).1) now.
Proof.
  unfold handle_timeouts_key.
  destruct (has_wakeup k) eqn:Hw; simpl; [|by rewrite Hw].
  destruct (Z.leb_spec (time_diff_ts (ts_wakeup k) now) 0); simpl; [|done].
  destruct (state k) eqn:Hs; simpl; rewrite ?Hs; simpl; done.
Qed.

Lemma handle_timeouts_key_frame debug now k :
  code (handle_timeouts_key debug now k).1 = code k
  ∧ tv_pressed (handle_timeouts_key debug now k).1 = tv_pressed k
  ∧ ts_wakeup (handle_timeouts_key debug now k).1 = ts_wakeup k.
Proof.
  unfold handle_timeouts_key. destruct (has_wakeup k && _); [|done].
  destruct (state k) eqn:Hs; simpl; rewrite ?Hs; done.
Qed.

Lemma handle_timeouts_fst debug now keys :
  (handle_timeouts debug now keys).1
  = (λ k, (handle_timeouts_key debug now k).1) <$> keys.
Proof.
  induction keys as [|k keys IH]; [done|]. simpl.
  destruct (handle_timeouts_key debug now k) as [k' t].
  destruct (handle_timeouts debug now keys) as [keys' t']. simpl in *. by rewrite IH.
Qed.

Lemma handle_timeouts_idle debug now keys :
  Forall (λ k, has_wakeup k = true → 0 < time_diff_ts (ts_wakeup k) now) keys →
  handle_timeouts debug now keys = (keys, []).
Proof.
  induction 1 as [|k keys Hk _ IH]; [done|]. simpl. rewrite IH.
  assert (Hidle : handle_timeouts_key debug now k = (k, [])).
  { destruct (has_wakeup k) eqn:Hw.
    - by apply handle_timeouts_key_pending, Hk.
    - by apply handle_timeouts_key_idle. }
  by rewrite Hidle.
Qed.

(** X6: a turn of [handle_timeouts] keeps the number of keys, their codes,
    their action lists, their press times and their deadlines; afterwards
    no key is left with a wakeup that the same clock reading would take for
    expired, so that a second turn at that clock reading changes nothing
    and does nothing, whatever the verbosity. *)
Theorem handle_timeouts_settles (debug debug' : Z) (now : timespec) (keys : list key) :
  length (handle_timeouts debug now keys).1 = length keys
  ∧ code <$> (handle_timeouts debug now keys).1 = code <$> keys
  ∧ actions <$> (handle_timeouts debug now keys).1 = actions <$> keys
  ∧ tv_pressed <$> (handle_timeouts debug now keys).1 = tv_pressed <$> keys
  ∧ ts_wakeup <$> (handle_timeouts debug now keys).1 = ts_wakeup <$> keys
  ∧ Forall (λ k, has_wakeup k = true → 0 < time_diff_ts (ts_wakeup k) now)
      (handle_timeouts debug now keys).1
  ∧ handle_timeouts debug' now (handle_timeouts debug now keys).1
    = ((handle_timeouts debug now keys).1, []).
Proof.
  assert (Hsettled : Forall (λ k, has_wakeup k = true → 0 < time_diff_ts (ts_wakeup k) now)
                       (handle_timeouts debug now keys).1).
  { rewrite handle_timeouts_fst. apply Forall_fmap, Forall_forall. intros k _.
    simpl. apply handle_timeouts_key_settled. }
  split_and!; [| | | | | done | by apply handle_timeouts_idle].
  - by rewrite handle_timeouts_fst, length_fmap.
  - rewrite handle_timeouts_fst, <- list_fmap_compose. apply list_fmap_ext.
    intros i k _. apply handle_timeouts_key_frame.
  - rewrite handle_timeouts_fst, <- list_fmap_compose. apply list_fmap_ext.
    intros i k _. apply handle_timeouts_key_actions.
  - rewrite handle_timeouts_fst, <- list_fmap_compose. apply list_fmap_ext.
    intros i k _. apply handle_timeouts_key_frame.
  - rewrite handle_timeouts_fst, <- list_fmap_compose. apply list_fmap_ext.
    intros i k _. apply handle_timeouts_key_frame.
Qed.

Lemma list_min_nonpositive d ds :
  list_min d ds ≤ 0 ↔ ∃ x, x ∈ d :: ds ∧ x ≤ 0.
Proof.
  revert d. induction ds as [|d' ds IH]; intros d; simpl.
  - split; [intros H; exists d; split; [by left | done]|].
    intros (x & Hx & Hle). apply list_elem_of_singleton in Hx. by subst.
  - split.
    + intros H. destruct (Z.min_spec d (list_min d' ds)) as [[_ Hm] | [_ Hm]].
      * exists d. split; [by left | lia].
      * destruct (proj1 (IH d') ltac:(lia)) as (x & Hx & Hle).
        exists x. split; [by right | done].
    + intros (x & [-> | Hx]%elem_of_cons & Hle); [lia|].
      assert (list_min d' ds ≤ 0) by (apply IH; eauto). lia.
Qed.

Lemma pending_diffs_elem now keys d :
  d ∈ pending_diffs now keys ↔
  ∃ k, k ∈ keys ∧ has_wakeup k = true ∧ time_diff_ts (ts_wakeup k) now = d.
Proof.
  induction keys as [|k keys IH].
  - split; [by intros ?%elem_of_nil | by intros (? & ?%elem_of_nil & _)].
  - rewrite pending_diffs_cons. destruct (has_wakeup k) eqn:Hw.
    + rewrite elem_of_cons, IH. split.
      * intros [-> | (k' & Hk' & H)]; [exists k; split; [by left | done]|].
        exists k'. split; [by right | done].
      * intros (k' & [-> | Hk']%elem_of_cons & Hw' & Hd); [by left|].
        right. by exists k'.
    + rewrite IH. split.
      * intros (k' & Hk' & H). exists k'. split; [by right | done].
      * intros (k' & [-> | Hk']%elem_of_cons & Hw' & Hd); [congruence|]. by exists k'.
Qed.

Lemma handle_timeouts_key_expired debug now k :
  has_wakeup k = true → time_diff_ts (ts_wakeup k) now ≤ 0 →
  finds (handle_timeouts_key debug now k).2 ≠ [].
Proof.
  intros Hw Hle. unfold handle_timeouts_key. rewrite Hw.
  apply Z.leb_le in Hle. rewrite Hle. cbn [andb snd].
  rewrite finds_app. intros H. apply app_eq_nil in H as [_ H]. done.
Qed.

Lemma handle_timeouts_expired debug now keys k :
  k ∈ keys → has_wakeup k = true → time_diff_ts (ts_wakeup k) now ≤ 0 →
  finds (handle_timeouts debug now keys).2 ≠ [].
Proof.
  intros Hk Hw Hle. induction keys as [|k0 keys IH]; [by apply elem_of_nil in Hk|].
  simpl.
  pose proof (handle_timeouts_key_expired debug now k0) as H0.
  destruct (handle_timeouts_key debug now k0) as [k0' t0].
  destruct (handle_timeouts debug now keys) as [keys' t']. simpl in *.
  rewrite finds_app. intros [H1 H2]%app_eq_nil.
  apply elem_of_cons in Hk as [-> | Hk]; [by apply H0 | by apply IH].
Qed.

(** X7: the wait and the handler agree.  When every pending difference
    fits an [int], [compute_timeout] returns 0 exactly when some key has a
    wakeup that [handle_timeouts] takes for expired at that clock reading.
    If the wait is not 0, [handle_timeouts] at that clock reading changes
    nothing and does nothing; if it is 0, [handle_timeouts] looks up an
    action for at least one key: a wait of 0 is never handed to [poll] for
    nothing. *)
Theorem timeout_zero_iff_expired (debug : Z) (now : timespec) (keys : list key) :
  (∀ k, k ∈ keys → has_wakeup k = true → time_diff_ts (ts_wakeup k) now ≤ INT_MAX) →
  (compute_timeout now keys = 0 ↔
   ∃ k, k ∈ keys ∧ has_wakeup k = true ∧ time_diff_ts (ts_wakeup k) now ≤ 0)
  ∧ (compute_timeout now keys ≠ 0 → handle_timeouts debug now keys = (keys, []))
  ∧ (compute_timeout now keys = 0 → finds (handle_timeouts debug now keys).2 ≠ []).
Proof.
  intros Hb.
  assert (Hz : compute_timeout now keys = 0 ↔
               ∃ k, k ∈ keys ∧ has_wakeup k = true ∧ time_diff_ts (ts_wakeup k) now ≤ 0).
  { unfold compute_timeout. rewrite compute_timeout_fold by auto.
    destruct (pending_diffs now keys) as [|d ds] eqn:Hp; simpl.
    - split; [done|]. intros (k & Hk & Hw & Hle).
      assert (Hin : time_diff_ts (ts_wakeup k) now ∈ pending_diffs now keys).
      { apply pending_diffs_elem. by exists k. }
      rewrite Hp in Hin. by apply elem_of_nil in Hin.
    - split.
      + intros Hm.
        assert (Hmin : list_min d ds ≤ 0) by lia.
        apply list_min_nonpositive in Hmin as (x & Hx & Hle).
        rewrite <- Hp in Hx. apply pending_diffs_elem in Hx as (k & Hk & Hw & <-).
        by exists k.
      + intros (k & Hk & Hw & Hle).
        assert (Hmin : list_min d ds ≤ 0).
        { apply list_min_nonpositive. exists (time_diff_ts (ts_wakeup k) now).
          split; [|done]. rewrite <- Hp. apply pending_diffs_elem. by exists k. }
        lia. }
  split_and!; [done | |].
  - intros Hnz. apply handle_timeouts_idle, Forall_forall. intros k Hk Hw.
    destruct (Z.lt_ge_cases 0 (time_diff_ts (ts_wakeup k) now)) as [|Hle]; [done|].
    destruct Hnz. apply Hz. by exists k.
  - intros (k & Hk & Hw & Hle)%Hz. by eapply handle_timeouts_expired.
Qed.

(** Two keys, one wakeup 0.2 ms ahead: the wait is 0 and the handler acts. *)
Lemma timeout_zero_iff_expired_witness :
  compute_timeout (Timespec 50 0)
    [Key 28 true [Action LONG_PRESS 5000 (Some "l")] (Timeval 45 200) (Timeval 0 0)
       (Timespec 50 200000) KEY_PRESSED;
     Key 30 false [Action SHORT_PRESS 1000 (Some "s")] (Timeval 0 0) (Timeval 0 0)
       (Timespec 0 0) KEY_RELEASED] = 0
  ∧ finds (handle_timeouts 0 (Timespec 50 0)
      [Key 28 true [Action LONG_PRESS 5000 (Some "l")] (Timeval 45 200) (Timeval 0 0)
         (Timespec 50 200000) KEY_PRESSED;
       Key 30 false [Action SHORT_PRESS 1000 (Some "s")] (Timeval 0 0) (Timeval 0 0)
         (Timespec 0 0) KEY_RELEASED]).2 ≠ [].
Proof.
  destruct (timeout_zero_iff_expired 0 (Timespec 50 0)
    [Key 28 true [Action LONG_PRESS 5000 (Some "l")] (Timeval 45 200) (Timeval 0 0)
       (Timespec 50 200000) KEY_PRESSED;
     Key 30 false [Action SHORT_PRESS 1000 (Some "s")] (Timeval 0 0) (Timeval 0 0)
       (Timespec 0 0) KEY_RELEASED]) as (_ & _ & H).
  - intros k Hk Hw. repeat (apply elem_of_cons in Hk as [-> | Hk]).
    + vm_compute. discriminate.
    + discriminate Hw.
    + by apply elem_of_nil in Hk.
  - assert (Hz : compute_timeout (Timespec 50 0)
      [Key 28 true [Action LONG_PRESS 5000 (Some "l")] (Timeval 45 200) (Timeval 0 0)
         (Timespec 50 200000) KEY_PRESSED;
       Key 30 false [Action SHORT_PRESS 1000 (Some "s")] (Timeval 0 0) (Timeval 0 0)
         (Timespec 0 0) KEY_RELEASED] = 0) by by_compute.
    split; [exact Hz | exact (H Hz)].
Defined.

(** *** The wakeup of a pressed key *)

Lemma handle_key_pressed_inv now event k k' :
  pressed_inv k → handle_key now event k = Some k' →
  code k' = code k ∧ actions k' = actions k ∧ pressed_inv k'.
Proof.
  intros Hinv Hk.
  assert (Hl : ∀ k1, actions k1 = actions k → last_action k1 = last_action k).
  { intros k1 H1. unfold last_action, action_count. by rewrite H1. }
  unfold handle_key in Hk.
  destruct (state k) eqn:Hs; destruct (ev_value event =? 0); cbn [negb] in Hk;
    try (injection Hk as <-; split_and!; [done | done |];
         intros Hst; simpl in Hst; first [congruence | by apply Hinv]).
  - rewrite Hl in Hk by done. destruct (last_action k) as [a|] eqn:Hla; [|done].
    destruct (a_type a) eqn:Ha; injection Hk as <-; (split_and!; [done | done |]);
      intros _; rewrite Hl by done; rewrite ?Hla, Ha; done.
  - rewrite Hl in Hk by done. destruct (last_action k) as [a|] eqn:Hla; [|done].
    destruct (a_type a) eqn:Ha; injection Hk as <-; (split_and!; [done | done |]);
      intros _; rewrite Hl by done; rewrite ?Hla, Ha; done.
Qed.

Lemma handle_timeouts_key_pressed_inv debug now k :
  pressed_inv k → pressed_inv (handle_timeouts_key debug now k).1.
Proof.
  unfold pressed_inv, handle_timeouts_key. intros Hinv.
  destruct (has_wakeup k && _); [|done].
  destruct (state k) eqn:Hs; simpl; rewrite ?Hs; simpl; done.
Qed.

(** X8: along any calls of [handle_key] and turns of [handle_timeouts] from
    a released key, the key keeps its code and its actions, and whenever it
    is in state pressed its wakeup is what the last action asks for: armed,
    with the deadline [tv_pressed + trigger_time], when the last action is a
    long one; off when it is a short one. *)
Theorem pressed_key_wakeup (k0 k : key) :
  state k0 = KEY_RELEASED → reachable k0 k →
  code k = code k0 ∧ actions k = actions k0
  ∧ (state k = KEY_PRESSED →
     match last_action k with
     | Some a =>
         match a_type a with
         | LONG_PRESS =>
             has_wakeup k = true
             ∧ ts_wakeup k = time_tv2ts (tv_pressed k) (trigger_time a)
         | SHORT_PRESS => has_wakeup k = false
         end
     | None => True
     end).
Proof.
  intros Hs Hreach. change (code k = code k0 ∧ actions k = actions k0 ∧ pressed_inv k).
  induction Hreach as [| now event k k' _ (Hc & Ha & Hp) Hk | debug now k _ (Hc & Ha & Hp)].
  - split_and!; [done | done |]. intros H. congruence.
  - destruct (handle_key_pressed_inv now event k k' Hp Hk) as (Hc' & Ha' & Hp').
    split_and!; [congruence | congruence | done].
  - destruct (handle_timeouts_key_frame debug now k) as (Hc' & _).
    split_and!; [congruence | | by apply handle_timeouts_key_pressed_inv].
    by rewrite handle_timeouts_key_actions.
Qed.

(** A press, a release and a press again within the debounce time. *)
Lemma pressed_key_wakeup_witness :
  reachable
    (Key 28 false [Action LONG_PRESS 5000 (Some "l")] (Timeval 0 0) (Timeval 0 0)
       (Timespec 0 0) KEY_RELEASED)
    (Key 28 true [Action LONG_PRESS 5000 (Some "l")] (Timeval 5 0) (Timeval 5 200000)
       (Timespec 10 0) KEY_PRESSED)
  ∧ Timespec 10 0 = time_tv2ts (Timeval 5 0) 5000.
Proof.
  assert (Hreach : reachable
    (Key 28 false [Action LONG_PRESS 5000 (Some "l")] (Timeval 0 0) (Timeval 0 0)
       (Timespec 0 0) KEY_RELEASED)
    (Key 28 true [Action LONG_PRESS 5000 (Some "l")] (Timeval 5 0) (Timeval 5 200000)
       (Timespec 10 0) KEY_PRESSED)).
  { eapply (reach_handle_key _ (Timespec 5 205000000) (InputEvent (Timeval 5 205000) 1 28 1)).
    - eapply (reach_handle_key _ (Timespec 5 200000000)
                (InputEvent (Timeval 5 200000) 1 28 0)).
      + eapply (reach_handle_key _ (Timespec 5 0) (InputEvent (Timeval 5 0) 1 28 1)).
        * apply reach_start.
        * vm_compute. reflexivity.
      + vm_compute. reflexivity.
    - vm_compute. reflexivity. }
  split; [exact Hreach|].
  assert (Hs : state (Key 28 false [Action LONG_PRESS 5000 (Some "l")] (Timeval 0 0)
                        (Timeval 0 0) (Timespec 0 0) KEY_RELEASED) = KEY_RELEASED)
    by reflexivity.
  destruct (pressed_key_wakeup _ _ Hs Hreach) as (_ & _ & H).
  destruct (H eq_refl) as [_ Hw]. exact Hw.
Defined.

(** *** The key table that configuration builds *)

(** The two ways a turn of the option loop changes the configuration. *)
Lemma update_cur_shape f c c' :
  update_cur f c = Some c' →
  ∃ ki ai k a,
    cfg_cur c = Some (ki, ai) ∧ cfg_keys c !! ki = Some k ∧ actions k !! ai = Some a
    ∧ c' = Config (<[ki := set_actions (<[ai := f a]> (actions k)) k]> (cfg_keys c))
                  (cfg_cur c).
Proof.
  unfold update_cur.
  destruct (cfg_cur c) as [[ki ai]|]; [|done]. simpl.
  destruct (cfg_keys c !! ki) as [k|] eqn:Hk; [|done]. simpl.
  destruct (actions k !! ai) as [a|] eqn:Ha; [|done]. simpl.
  intros [= <-]. by exists ki, ai, k, a.
Qed.

Lemma parse_key_opt_shape c o c' :
  parse_opt c o = Some c' →
  match o with
  | OptShort arg | OptLong arg =>
      action_is_set c = true ∧ 0 ≤ arg ≤ 65535
      ∧ ∃ keys1 ki k a,
          (find_key (cfg_keys c) arg = Some ki ∧ keys1 = cfg_keys c
           ∨ find_key (cfg_keys c) arg = None ∧ keys1 = cfg_keys c ++ [new_key arg]
             ∧ ki = length (cfg_keys c))
          ∧ keys1 !! ki = Some k ∧ code k = arg
          ∧ match o with
            | OptShort _ => add_short_action k
            | _ => add_long_action k
            end = Some a
          ∧ c' = Config (<[ki := set_actions (actions k ++ [a]) k]> keys1)
                        (Some (ki, action_count k))
  | OptAction cmd => update_cur (set_command (Some cmd)) c = Some c'
  | OptTime arg =>
      INT_MIN ≤ arg ≤ INT_MAX ∧ update_cur (set_trigger_time (wrap32 arg)) c = Some c'
  end.
Proof.
  assert (Hadd : ∀ arg (add : key → option action),
    (if negb (action_is_set c) then None
     else if negb ((0 <=? arg) && (arg <=? 65535)) then None
     else
       let '(ki, keys1) :=
         match find_key (cfg_keys c) arg with
         | Some i => (i, cfg_keys c)
         | None => (length (cfg_keys c), cfg_keys c ++ [new_key arg])
         end in
       k ← keys1 !! ki;
       a ← add k;
       Some (Config (<[ki := set_actions (actions k ++ [a]) k]> keys1)
                    (Some (ki, action_count k)))) = Some c' →
    action_is_set c = true ∧ 0 ≤ arg ≤ 65535
    ∧ ∃ keys1 ki k a,
        (find_key (cfg_keys c) arg = Some ki ∧ keys1 = cfg_keys c
         ∨ find_key (cfg_keys c) arg = None ∧ keys1 = cfg_keys c ++ [new_key arg]
           ∧ ki = length (cfg_keys c))
        ∧ keys1 !! ki = Some k ∧ code k = arg ∧ add k = Some a
        ∧ c' = Config (<[ki := set_actions (actions k ++ [a]) k]> keys1)
                      (Some (ki, action_count k))).
  { intros arg add.
    destruct (action_is_set c); [|done]. cbn [negb].
    destruct (Z.leb_spec 0 arg); [|done]. destruct (Z.leb_spec arg 65535); [|done].
    cbn [andb negb].
    destruct (find_key (cfg_keys c) arg) as [i|] eqn:Hf.
    - destruct (cfg_keys c !! i) as [k|] eqn:Hk; [|done]. simpl.
      destruct (add k) as [a|] eqn:Ha; [|done]. simpl. intros [= <-].
      split_and!; [done | lia | lia |]. exists (cfg_keys c), i, k, a.
      split_and!; [by left | done | | done | done].
      apply find_key_from_some in Hf as (k0 & _ & Hk0 & Hc). rewrite Nat.sub_0_r in Hk0.
      congruence.
    - rewrite lookup_app_r, Nat.sub_diag by done. simpl.
      destruct (add (new_key arg)) as [a|] eqn:Ha; [|done]. simpl. intros [= <-].
      split_and!; [done | lia | lia |].
      exists (cfg_keys c ++ [new_key arg]), (length (cfg_keys c)), (new_key arg), a.
      split_and!; [by right | | done | done | done].
      by rewrite lookup_app_r, Nat.sub_diag. }
  destruct o as [arg | arg | cmd | arg]; unfold parse_opt.
  - apply (Hadd arg add_short_action).
  - apply (Hadd arg add_long_action).
  - done.
  - destruct (cfg_cur c); [|done].
    destruct (Z.leb_spec INT_MIN arg); [|done]. destruct (Z.leb_spec arg INT_MAX); [|done].
    cbn [andb negb]. intros Hup. split; [lia | done].
Qed.

Lemma parse_opts_app c l1 l2 :
  parse_opts c (l1 ++ l2) = c' ← parse_opts c l1; parse_opts c' l2.
Proof.
  revert c. induction l1 as [|o l1 IH]; intros c; simpl; [done|].
  destruct (parse_opt c o) as [c1|]; simpl; [apply IH | done].
Qed.

(** An invariant of the option loop, as a property of the prefix of options
    read so far. *)
Lemma parse_opts_invariant (I : list opt → config → Prop) opts c :
  I [] (Config [] None) →
  (∀ seen c1 o c2, I seen c1 → parse_opt c1 o = Some c2 → I (seen ++ [o]) c2) →
  parse_opts (Config [] None) opts = Some c → I opts c.
Proof.
  intros Hinit Hstep.
  assert (Hgen : ∀ rest seen c1,
            I seen c1 → parse_opts c1 rest = Some c → I (seen ++ rest) c).
  { induction rest as [|o rest IH]; intros seen c1 H1; simpl.
    - intros [= <-]. by rewrite app_nil_r.
    - destruct (parse_opt c1 o) as [c2|] eqn:Ho; [|done]. simpl. intros Hrest.
      replace (seen ++ o :: rest) with ((seen ++ [o]) ++ rest) by by rewrite <- app_assoc.
      eapply IH; [|done]. by eapply Hstep. }
  apply (Hgen opts [] (Config [] None) Hinit).
Qed.

Lemma commands_all_set seen c ki k ai a :
  commands_given seen c → action_is_set c = true →
  cfg_keys c !! ki = Some k → actions k !! ai = Some a →
  ∃ cmd, command a = Some cmd ∧ OptAction cmd ∈ seen.
Proof.
  intros Hg Hset Hk Ha. specialize (Hg ki k ai a Hk Ha).
  destruct (command a) as [cmd|] eqn:Hc; [by exists cmd|].
  unfold action_is_set, cur_action in Hset. rewrite Hg in Hset. simpl in Hset.
  rewrite Hk in Hset. simpl in Hset. rewrite Ha, Hc in Hset. done.
Qed.

Lemma add_action_command k a :
  add_short_action k = Some a ∨ add_long_action k = Some a →
  command a = None ∧ in_int (trigger_time a)
  ∧ (add_short_action k = Some a → a_type a = SHORT_PRESS ∧ existsb is_short (actions k) = false).
Proof.
  unfold add_short_action, add_long_action.
  destruct (existsb is_short (actions k)); intros [H | H]; simplify_eq; simpl;
    split_and!; try done; by_compute.
Qed.

Lemma commands_given_step seen c o c' :
  commands_given seen c → parse_opt c o = Some c' → commands_given (seen ++ [o]) c'.
Proof.
  intros Hg Ho. apply parse_key_opt_shape in Ho.
  assert (Hkey : ∀ arg,
    action_is_set c = true →
    (∃ keys1 ki k a,
        (find_key (cfg_keys c) arg = Some ki ∧ keys1 = cfg_keys c
         ∨ find_key (cfg_keys c) arg = None ∧ keys1 = cfg_keys c ++ [new_key arg]
           ∧ ki = length (cfg_keys c))
        ∧ keys1 !! ki = Some k ∧ command a = None
        ∧ c' = Config (<[ki := set_actions (actions k ++ [a]) k]> keys1)
                      (Some (ki, action_count k))) →
    commands_given (seen ++ [o]) c').
  { intros arg Hset (keys1 & ki & k & a & Hsel & Hk & Hc & ->).
    assert (Hold : ∀ kj kk aj aa, keys1 !! kj = Some kk → actions kk !! aj = Some aa →
                     ∃ cmd, command aa = Some cmd ∧ OptAction cmd ∈ seen).
    { intros kj kk aj aa Hkk Haa. destruct Hsel as [[_ ->] | (_ & -> & ->)].
      - by eapply commands_all_set.
      - apply lookup_app_Some in Hkk as [Hkk | [_ Hkk]].
        + by eapply commands_all_set.
        + apply list_elem_of_lookup_2, list_elem_of_singleton in Hkk. subst kk.
          simpl in Haa. by rewrite lookup_nil in Haa. }
    intros kj kk aj aa Hkk Haa. simpl in *.
    apply list_lookup_insert_Some in Hkk as [(<- & <- & _) | [Hne Hkk]].
    - simpl in Haa. apply lookup_app_Some in Haa as [Haa | [Hlen Haa]].
      + destruct (Hold ki k aj aa Hk Haa) as (cmd & -> & Hin).
        apply elem_of_app. by left.
      + apply list_lookup_singleton_Some in Haa as [Hz <-]. rewrite Hc.
        unfold action_count. do 2 f_equal. lia.
    - destruct (Hold kj kk aj aa Hkk Haa) as (cmd & -> & Hin).
      apply elem_of_app. by left. }
  assert (Hupd : ∀ f,
    (∀ a, command (f a) = command a
          ∨ ∃ cmd, command (f a) = Some cmd ∧ OptAction cmd ∈ seen ++ [o]) →
    update_cur f c = Some c' → commands_given (seen ++ [o]) c').
  { intros f Hf (ki & ai & k & a & Hcur & Hk & Ha & ->)%update_cur_shape.
    intros kj kk aj aa Hkk Haa. simpl in *.
    assert (Hkeep : ∀ kj aj aa, (∃ kk, cfg_keys c !! kj = Some kk ∧ actions kk !! aj = Some aa) →
                      match command aa with
                      | Some cmd => OptAction cmd ∈ seen ++ [o]
                      | None => cfg_cur c = Some (kj, aj)
                      end).
    { intros kj' aj' aa' (kk' & Hkk' & Haa'). specialize (Hg kj' kk' aj' aa' Hkk' Haa').
      destruct (command aa'); [|done]. apply elem_of_app. by left. }
    apply list_lookup_insert_Some in Hkk as [(<- & <- & _) | [Hne Hkk]].
    - simpl in Haa. apply list_lookup_insert_Some in Haa as [(<- & <- & _) | [Hne Haa]].
      + destruct (Hf a) as [-> | (cmd & -> & Hin)]; [|done]. apply Hkeep. by exists k.
      + apply Hkeep. by exists k.
    - apply Hkeep. by exists kk. }
  destruct o as [arg | arg | cmd | arg].
  - destruct Ho as (Hset & _ & keys1 & ki & k & a & Hsel & Hk & _ & Ha & ->).
    apply (Hkey arg Hset). exists keys1, ki, k, a.
    split_and!; [done | done | | done].
    by apply (add_action_command k a); left.
  - destruct Ho as (Hset & _ & keys1 & ki & k & a & Hsel & Hk & _ & Ha & ->).
    apply (Hkey arg Hset). exists keys1, ki, k, a.
    split_and!; [done | done | | done].
    by apply (add_action_command k a); right.
  - apply (Hupd (set_command (Some cmd))); [|done].
    intros a. right. exists cmd. split; [done|]. apply elem_of_app. right. by left.
  - destruct Ho as [_ Ho]. apply (Hupd (set_trigger_time (wrap32 arg))); [|done].
    intros a. by left.
Qed.

Lemma parse_opts_commands_given opts c :
  parse_opts (Config [] None) opts = Some c → commands_given opts c.
Proof.
  apply (parse_opts_invariant commands_given).
  - intros ki k ai a Hk. simpl in Hk. by rewrite lookup_nil in Hk.
  - intros seen c1 o c2. apply commands_given_step.
Qed.

(** *** Only the commands given on the command line are run *)

Lemma handle_key_frame now event k k' :
  handle_key now event k = Some k' → code k' = code k ∧ actions k' = actions k.
Proof.
  unfold handle_key.
  destruct (state k) eqn:Hs; destruct (ev_value event =? 0); cbn [negb];
    try destruct (last_action _) as [a|]; try destruct (a_type a);
    intros H; simplify_eq; done.
Qed.

Lemma handle_timeouts_key_systems debug now k cmd :
  System cmd ∈ (handle_timeouts_key debug now k).2 →
  ∃ a, a ∈ actions k ∧ command a = cmd.
Proof.
  unfold handle_timeouts_key. destruct (has_wakeup k && _); simpl.
  2: { intros H. by apply elem_of_nil in H. }
  set (k1 := match state k with KEY_DEBOUNCE => k | _ => _ end).
  assert (Hk1 : actions k1 = actions k) by (subst k1; by destruct (state k)).
  intros [H | H]%elem_of_app.
  { destruct (3 <? debug); [|by apply elem_of_nil in H].
    apply list_elem_of_singleton in H. done. }
  apply elem_of_cons in H as [H | H]; [done|].
  destruct (find_key_action k1 _) as [a|] eqn:Hf.
  - apply find_key_action_some in Hf as (i & Hi & _).
    rewrite Hk1 in Hi. exists a. split; [by eapply list_elem_of_lookup_2|].
    apply elem_of_app in H as [H | H].
    + destruct (negb _); [|by apply elem_of_nil in H].
      apply list_elem_of_singleton in H. done.
    + apply list_elem_of_singleton in H. congruence.
  - destruct (negb _); [|by apply elem_of_nil in H].
    apply list_elem_of_singleton in H. done.
Qed.

Lemma print_key_no_system debug event filename text cmd :
  System cmd ∉ print_key debug event filename text.
Proof.
  unfold print_key. destruct (debug <? 1); [apply not_elem_of_nil|].
  destruct (ev_type event) as [|[p|p|]|]; try apply not_elem_of_nil;
    by intros ?%list_elem_of_singleton.
Qed.

Lemma do_step_systems (Q : action → Prop) debug filename s keys :
  Forall (λ k, Forall Q (actions k)) keys →
  (∀ cmd, System cmd ∈ (do_step debug filename s keys).2 → ∃ a, Q a ∧ command a = cmd)
  ∧ (∀ keys', (do_step debug filename s keys).1 = Some keys' →
              Forall (λ k, Forall Q (actions k)) keys').
Proof.
  intros Hall. destruct s as [now | now event]; simpl.
  - induction Hall as [|k keys Hk Hall IH]; simpl.
    + split; [|by intros keys' [= <-]]. intros cmd H. by apply elem_of_nil in H.
    + pose proof (handle_timeouts_key_systems debug now k) as Hsys.
      pose proof (handle_timeouts_key_actions debug now k) as Hact.
      destruct (handle_timeouts_key debug now k) as [k' t].
      destruct (handle_timeouts debug now keys) as [keys1 t1]. simpl in *.
      destruct IH as [IH1 IH2]. split.
      * intros cmd [H | H]%elem_of_app; [|by apply IH1].
        destruct (Hsys cmd H) as (a & Ha & Hc). exists a. split; [|done].
        rewrite Forall_forall in Hk. by apply Hk.
      * intros keys' [= <-]. constructor; [by rewrite Hact | by apply IH2].
  - unfold handle_input_event. destruct (negb _); simpl.
    { split; [|by intros keys' [= <-]]. intros cmd H.
      destruct (2 <? debug); [by apply print_key_no_system in H | by apply elem_of_nil in H]. }
    destruct (find_key keys (ev_code event)) as [i|]; simpl.
    2: { split; [|by intros keys' [= <-]]. intros cmd H.
         destruct (1 <? debug); [by apply print_key_no_system in H | by apply elem_of_nil in H]. }
    assert (Hno : ∀ cmd,
      System cmd ∉ print_key debug event filename "processing" ++ [HandleKey i event]).
    { intros cmd [H | H]%elem_of_app; [by apply print_key_no_system in H|].
      by apply list_elem_of_singleton in H. }
    destruct (keys !! i) as [k|] eqn:Hi; simpl.
    2: { split; [|done]. intros cmd H. by apply Hno in H. }
    destruct (handle_key now event k) as [k'|] eqn:Hk; simpl.
    2: { split; [|done]. intros cmd H. by apply Hno in H. }
    split; [intros cmd H; by apply Hno in H|]. intros keys' [= <-].
    apply Forall_insert; [done|]. apply handle_key_frame in Hk as [_ ->].
    by apply (Forall_lookup_1 _ _ _ _ Hall Hi).
Qed.

Lemma run_systems (Q : action → Prop) debug filename steps keys cmd :
  Forall (λ k, Forall Q (actions k)) keys →
  System cmd ∈ (run debug filename steps keys).2 → ∃ a, Q a ∧ command a = cmd.
Proof.
  revert keys. induction steps as [|s steps IH]; intros keys Hall; simpl.
  - intros H. by apply elem_of_nil in H.
  - destruct (do_step_systems Q debug filename s keys Hall) as [H1 H2].
    destruct (do_step debug filename s keys) as [[keys1|] t1]; simpl in *; [|apply H1].
    specialize (IH keys1 (H2 keys1 eq_refl)).
    destruct (run debug filename steps keys1) as [r t]. simpl in *.
    intros [H | H]%elem_of_app; [by apply H1 | by apply IH].
Qed.

Lemma configure_commands qsort opts keys :
  qsort_contract qsort → configure qsort opts = Some keys →
  Forall (λ k, Forall (λ a, ∃ cmd, command a = Some cmd ∧ OptAction cmd ∈ opts) (actions k))
         keys.
Proof.
  intros Hq. unfold configure.
  destruct (parse_opts (Config [] None) opts) as [c|] eqn:Hp; [|done]. simpl.
  destruct (action_is_set c) eqn:Hset; [|done]. intros [= <-].
  assert (Hshort : Forall (λ k, (n_short (actions k) ≤ 1)%nat) (cfg_keys c)).
  { eapply parse_opts_short; [|done]. constructor. }
  apply parse_opts_commands_given in Hp.
  apply Forall_fmap, Forall_lookup. intros ki k Hk. simpl.
  destruct (Hq (actions k)) as [Hperm _].
  { by apply (Forall_lookup_1 _ _ _ _ Hshort Hk). }
  rewrite <- Hperm. apply Forall_lookup. intros ai a Ha.
  by eapply commands_all_set.
Qed.

(** X9: whatever [main] is configured with and whatever happens afterwards,
    every call of [system] gets a command that was given with -a on the
    command line, never NULL. *)
Theorem only_given_commands_run (qsort : list action → list action) (opts : list opt)
    (keys : list key) (debug : Z) (filename : string) (steps : list step)
    (cmd : option string) :
  qsort_contract qsort → configure qsort opts = Some keys →
  System cmd ∈ (run debug filename steps keys).2 →
  ∃ c, cmd = Some c ∧ OptAction c ∈ opts.
Proof.
  intros Hq Hc Hsys.
  destruct (run_systems _ debug filename steps keys cmd (configure_commands _ _ _ Hq Hc) Hsys)
    as (a & (c & Ha & Hin) & <-).
  by exists c.
Qed.

(** -l 28 -a l: the key is held for six seconds. *)
Lemma only_given_commands_run_witness :
  System (Some "l")
    ∈ (run 0 "event0"
         [Input (Timespec 5 0) (InputEvent (Timeval 5 0) 1 28 1); Tick (Timespec 11 0)]
         [Key 28 false [Action LONG_PRESS 5000 (Some "l")] (Timeval 0 0) (Timeval 0 0)
            (Timespec 0 0) KEY_RELEASED]).2
  ∧ ∃ c, Some "l" = Some c ∧ OptAction c ∈ [OptLong 28; OptAction "l"].
Proof.
  assert (Hsys : System (Some "l")
    ∈ (run 0 "event0"
         [Input (Timespec 5 0) (InputEvent (Timeval 5 0) 1 28 1); Tick (Timespec 11 0)]
         [Key 28 false [Action LONG_PRESS 5000 (Some "l")] (Timeval 0 0) (Timeval 0 0)
            (Timespec 0 0) KEY_RELEASED]).2).
  { vm_compute. apply list_elem_of_further, list_elem_of_further, list_elem_of_here. }
  split; [exact Hsys|].
  apply (only_given_commands_run insertion_sort [OptLong 28; OptAction "l"]
           [Key 28 false [Action LONG_PRESS 5000 (Some "l")] (Timeval 0 0) (Timeval 0 0)
              (Timespec 0 0) KEY_RELEASED]
           0 "event0"
           [Input (Timespec 5 0) (InputEvent (Timeval 5 0) 1 28 1); Tick (Timespec 11 0)]
           (Some "l") insertion_sort_contract).
  - vm_compute. reflexivity.
  - exact Hsys.
Defined.

(** *** The key table mirrors the key options *)

Lemma key_opts_snoc c seen o :
  key_opts c (seen ++ [o]) = key_opts c seen ++ (if names_key c o then [o] else []).
Proof. unfold key_opts. by rewrite List.filter_app. Qed.

Lemma key_opts_nil c seen :
  OptShort c ∉ seen → OptLong c ∉ seen → key_opts c seen = [].
Proof.
  intros Hs Hl. induction seen as [|o seen IH]; [done|].
  apply not_elem_of_cons in Hs as [Hs1 Hs2]. apply not_elem_of_cons in Hl as [Hl1 Hl2].
  unfold key_opts in *. simpl. rewrite IH by done.
  destruct o as [z | z | cmd | z]; unfold names_key; simpl; try done;
    destruct (Z.eqb_spec z c); congruence.
Qed.

Lemma table_of_opts_key seen c o c' :
  table_of_opts seen (cfg_keys c) → names_key (default 0 (opt_code o)) o = true →
  (∃ keys1 ki k a,
      (find_key (cfg_keys c) (default 0 (opt_code o)) = Some ki ∧ keys1 = cfg_keys c
       ∨ find_key (cfg_keys c) (default 0 (opt_code o)) = None
         ∧ keys1 = cfg_keys c ++ [new_key (default 0 (opt_code o))]
         ∧ ki = length (cfg_keys c))
      ∧ keys1 !! ki = Some k ∧ code k = default 0 (opt_code o)
      ∧ in_int (trigger_time a) ∧ 0 ≤ default 0 (opt_code o) ≤ 65535
      ∧ c' = Config (<[ki := set_actions (actions k ++ [a]) k]> keys1)
                    (Some (ki, action_count k))) →
  (OptShort (default 0 (opt_code o)) = o ∨ OptLong (default 0 (opt_code o)) = o) →
  table_of_opts (seen ++ [o]) (cfg_keys c').
Proof.
  set (arg := default 0 (opt_code o)).
  intros (Hnd & Hcodes & Hall) Hname (keys1 & ki & k & a & Hsel & Hk & Hcode & Hint & Hrange & ->)
    Ho.
  simpl.
  assert (Hother : ∀ k', code k' ≠ arg → key_of_opts seen k' → key_of_opts (seen ++ [o]) k').
  { intros k' Hne (Hf & Hlen & Hts). split_and!; [done | | done].
    rewrite key_opts_snoc. replace (names_key (code k') o) with false.
    - by rewrite app_nil_r.
    - unfold names_key in *. destruct (opt_code o) as [z|]; [|done]. simpl in *.
      subst arg. symmetry. apply Z.eqb_neq. congruence. }
  assert (Hin : ∀ z, OptShort z ∈ seen ++ [o] ∨ OptLong z ∈ seen ++ [o]
                     ↔ (OptShort z ∈ seen ∨ OptLong z ∈ seen) ∨ z = arg).
  { intros z. rewrite !elem_of_app, !list_elem_of_singleton. subst arg.
    destruct Ho as [<- | <-]; simpl; split; intros H; intuition congruence. }
  destruct Hsel as [[Hfind ->] | (Hfind & -> & ->)].
  - assert (Hck : (code <$> cfg_keys c) !! ki = Some arg).
    { by rewrite list_lookup_fmap, Hk; simpl; rewrite Hcode. }
    assert (Hsame : code <$> <[ki := set_actions (actions k ++ [a]) k]> (cfg_keys c)
                    = code <$> cfg_keys c).
    { rewrite list_fmap_insert. simpl. rewrite Hcode. by apply list_insert_id. }
    split_and!.
    + by rewrite Hsame.
    + intros z. rewrite Hsame, Hin, Hcodes. split; [by left|].
      intros [H | ->]; [done|]. apply Hcodes. by eapply list_elem_of_lookup_2.
    + apply Forall_lookup. intros j k' Hj.
      apply list_lookup_insert_Some in Hj as [(<- & <- & _) | [Hne Hj]].
      * destruct (Forall_lookup_1 _ _ _ _ Hall Hk) as (Hf & Hlen & Hts).
        split_and!; [done | |].
        -- simpl. rewrite key_opts_snoc, Hcode. fold arg. rewrite Hname.
           rewrite !length_app, Hlen. by rewrite Hcode.
        -- simpl. apply Forall_app. split; [done|]. by constructor.
      * apply Hother; [|by apply (Forall_lookup_1 _ _ _ _ Hall Hj)].
        intros Heq. apply Hne.
        apply (NoDup_lookup _ _ _ arg Hnd); [done|].
        by rewrite list_lookup_fmap, Hj; simpl; rewrite Heq.
  - rewrite lookup_app_r, Nat.sub_diag in Hk by done. injection Hk as <-.
    rewrite insert_app_r_alt, Nat.sub_diag by done. simpl.
    pose proof (proj1 (find_key_from_none _ _ _) Hfind) as Hnone.
    assert (Hnew : arg ∉ code <$> cfg_keys c).
    { intros (k' & Hc' & Hk')%list_elem_of_fmap. by apply (Hnone k'). }
    unfold table_of_opts. rewrite fmap_app. simpl. split_and!.
    + apply NoDup_app. split_and!; [done | | apply NoDup_singleton].
      intros z Hz ->%list_elem_of_singleton. done.
    + intros z. rewrite Hin, elem_of_app, list_elem_of_singleton, Hcodes. done.
    + apply Forall_app. split.
      * apply Forall_forall. intros k' Hk'. apply Hother; [by apply Hnone|].
        rewrite Forall_forall in Hall. by apply Hall.
      * constructor; [|constructor]. split_and!.
        -- unfold fresh_key. simpl. done.
        -- simpl. rewrite key_opts_snoc. fold arg. rewrite Hname.
           rewrite key_opts_nil; [done | |]; intros H; apply Hnew, Hcodes; auto.
        -- simpl. by constructor.
Qed.

Lemma table_of_opts_update seen c o c' f :
  table_of_opts seen (cfg_keys c) → opt_code o = None →
  (∀ a, in_int (trigger_time a) → in_int (trigger_time (f a))) →
  update_cur f c = Some c' →
  table_of_opts (seen ++ [o]) (cfg_keys c').
Proof.
  intros (Hnd & Hcodes & Hall) Ho Hf (ki & ai & k & a & Hcur & Hk & Ha & ->)%update_cur_shape.
  simpl.
  assert (Hsame : code <$> <[ki := set_actions (<[ai := f a]> (actions k)) k]> (cfg_keys c)
                  = code <$> cfg_keys c).
  { rewrite list_fmap_insert. simpl. apply list_insert_id. by rewrite list_lookup_fmap, Hk. }
  assert (Hkeep : ∀ k', key_of_opts seen k' → key_of_opts (seen ++ [o]) k').
  { intros k' (Hfr & Hlen & Hts). split_and!; [done | | done].
    rewrite key_opts_snoc. unfold names_key. rewrite Ho. by rewrite app_nil_r. }
  split_and!.
  - by rewrite Hsame.
  - intros z. rewrite Hsame, Hcodes, !elem_of_app, !list_elem_of_singleton.
    destruct o; simpl in Ho; try done; split; intros H; intuition congruence.
  - apply Forall_lookup. intros j k' Hj.
    apply list_lookup_insert_Some in Hj as [(<- & <- & _) | [Hne Hj]].
    + destruct (Forall_lookup_1 _ _ _ _ Hall Hk) as (Hfr & Hlen & Hts).
      apply (Hkeep (set_actions (<[ai := f a]> (actions k)) k)).
      split_and!; [done | simpl; by rewrite length_insert |].
      simpl. apply Forall_insert; [done|]. apply Hf.
      by apply (Forall_lookup_1 _ _ _ _ Hts Ha).
    + apply Hkeep. by apply (Forall_lookup_1 _ _ _ _ Hall Hj).
Qed.

Lemma table_of_opts_step seen c o c' :
  table_of_opts seen (cfg_keys c) → parse_opt c o = Some c' →
  table_of_opts (seen ++ [o]) (cfg_keys c').
Proof.
  intros Ht Ho. apply parse_key_opt_shape in Ho.
  destruct o as [arg | arg | cmd | arg].
  - destruct Ho as (_ & Hr & keys1 & ki & k & a & Hsel & Hk & Hc & Ha & ->).
    apply (table_of_opts_key seen c (OptShort arg)); simpl;
      [done | unfold names_key; simpl; apply Z.eqb_refl | | by left].
    exists keys1, ki, k, a. split_and!; try done; try lia.
    by apply (add_action_command k a); left.
  - destruct Ho as (_ & Hr & keys1 & ki & k & a & Hsel & Hk & Hc & Ha & ->).
    apply (table_of_opts_key seen c (OptLong arg)); simpl;
      [done | unfold names_key; simpl; apply Z.eqb_refl | | by right].
    exists keys1, ki, k, a. split_and!; try done; try lia.
    by apply (add_action_command k a); right.
  - by apply (table_of_opts_update seen c _ c' (set_command (Some cmd))).
  - destruct Ho as [Hr Ho].
    apply (table_of_opts_update seen c _ c' (set_trigger_time (wrap32 arg))); [done..| |done].
    intros a _. simpl. by rewrite wrap32_id.
Qed.

Lemma table_of_opts_nil : table_of_opts [] [].
Proof.
  split_and!; [constructor | | constructor].
  intros z. split; [by intros ?%elem_of_nil|].
  by intros [?%elem_of_nil | ?%elem_of_nil].
Qed.

Lemma wrap32_range z : in_int (wrap32 z).
Proof.
  unfold in_int, INT_MIN, INT_MAX, wrap32, wrap.
  pose proof (Z.mod_pos_bound (z + 2 ^ (32 - 1)) (2 ^ 32) ltac:(lia)). lia.
Qed.

(** X10: the key table that [main] enters its loop with mirrors the key
    options: the key codes are distinct and are exactly the codes given
    with -s or -l, every key starts released, without wakeup and with a
    code of 16 bits, and has one action for each -s or -l option that names
    its code, each with a trigger time that fits an [int]. *)
Theorem configured_table (qsort : list action → list action) (opts : list opt)
    (keys : list key) :
  qsort_contract qsort → configure qsort opts = Some keys → table_of_opts opts keys.
Proof.
  intros Hq. unfold configure.
  destruct (parse_opts (Config [] None) opts) as [c|] eqn:Hp; [|done]. simpl.
  destruct (action_is_set c); [|done]. intros [= <-].
  assert (Hshort : Forall (λ k, (n_short (actions k) ≤ 1)%nat) (cfg_keys c)).
  { eapply parse_opts_short; [|done]. constructor. }
  assert (Ht : table_of_opts opts (cfg_keys c)).
  { revert Hp. apply (parse_opts_invariant (λ seen c, table_of_opts seen (cfg_keys c))).
    - apply table_of_opts_nil.
    - apply table_of_opts_step. }
  destruct Ht as (Hnd & Hcodes & Hall).
  assert (Hsame : code <$> (sort_actions qsort <$> cfg_keys c) = code <$> cfg_keys c).
  { rewrite <- list_fmap_compose. by apply list_fmap_ext. }
  split_and!.
  - by rewrite Hsame.
  - intros z. by rewrite Hsame.
  - apply Forall_fmap, Forall_lookup. intros ki k Hk. simpl.
    destruct (Forall_lookup_1 _ _ _ _ Hall Hk) as (Hfr & Hlen & Hts).
    destruct (Hq (actions k)) as [Hperm _].
    { by apply (Forall_lookup_1 _ _ _ _ Hshort Hk). }
    split_and!; [done | simpl; by rewrite <- Hperm | simpl; by rewrite <- Hperm].
Qed.

(** -s 28 -a s -l 28 -t 10000 -a l10 -l 30 -a l5 *)
Lemma configured_table_witness :
  configure insertion_sort
    [OptShort 28; OptAction "s"; OptLong 28; OptTime 10000; OptAction "l10";
     OptLong 30; OptAction "l5"]
  = Some [Key 28 false
            [Action SHORT_PRESS 1000 (Some "s"); Action LONG_PRESS 10000 (Some "l10")]
            (Timeval 0 0) (Timeval 0 0) (Timespec 0 0) KEY_RELEASED;
          Key 30 false [Action LONG_PRESS 5000 (Some "l5")]
            (Timeval 0 0) (Timeval 0 0) (Timespec 0 0) KEY_RELEASED]
  ∧ table_of_opts
      [OptShort 28; OptAction "s"; OptLong 28; OptTime 10000; OptAction "l10";
       OptLong 30; OptAction "l5"]
      [Key 28 false
         [Action SHORT_PRESS 1000 (Some "s"); Action LONG_PRESS 10000 (Some "l10")]
         (Timeval 0 0) (Timeval 0 0) (Timespec 0 0) KEY_RELEASED;
       Key 30 false [Action LONG_PRESS 5000 (Some "l5")]
         (Timeval 0 0) (Timeval 0 0) (Timespec 0 0) KEY_RELEASED].
Proof.
  assert (Hc : configure insertion_sort
    [OptShort 28; OptAction "s"; OptLong 28; OptTime 10000; OptAction "l10";
     OptLong 30; OptAction "l5"]
  = Some [Key 28 false
            [Action SHORT_PRESS 1000 (Some "s"); Action LONG_PRESS 10000 (Some "l10")]
            (Timeval 0 0) (Timeval 0 0) (Timespec 0 0) KEY_RELEASED;
          Key 30 false [Action LONG_PRESS 5000 (Some "l5")]
            (Timeval 0 0) (Timeval 0 0) (Timespec 0 0) KEY_RELEASED]).
  { vm_compute. reflexivity. }
  split; [exact Hc|].
  exact (configured_table insertion_sort _ _ insertion_sort_contract Hc).
Defined.

(** *** The command lines that get past configuration *)

Lemma opts_state_is_set c s : opts_state c s → action_is_set c = negb (pending s).
Proof.
  intros (_ & Hcur & _). unfold action_is_set, cur_action.
  destruct (cfg_cur c) as [[ki ai]|]; simpl.
  - destruct Hcur as (_ & k & a & Hk & Ha & ->). rewrite Hk. simpl. rewrite Ha.
    by destruct (command a).
  - by destruct Hcur as [_ ->].
Qed.

Lemma NoDup_code_eq (keys : list key) k1 k2 :
  NoDup (code <$> keys) → k1 ∈ keys → k2 ∈ keys → code k1 = code k2 → k1 = k2.
Proof.
  intros Hnd (i & Hi)%list_elem_of_lookup_1 (j & Hj)%list_elem_of_lookup_1 Hc.
  assert (i = j) as ->; [|congruence].
  apply (NoDup_lookup _ _ _ (code k1) Hnd).
  - by rewrite list_lookup_fmap, Hi.
  - by rewrite list_lookup_fmap, Hj; simpl; rewrite Hc.
Qed.

Lemma existsb_is_short_insert (f : action → action) l i a :
  (∀ a, a_type (f a) = a_type a) → l !! i = Some a →
  existsb is_short (<[i := f a]> l) = existsb is_short l.
Proof.
  intros Hf. revert i. induction l as [|x l IH]; intros [|i]; simpl; try done.
  - intros [= ->]. unfold is_short. by rewrite Hf.
  - intros Hi. by rewrite IH.
Qed.

Lemma opts_state_key c s o c' :
  opts_state c s → parse_opt c o = Some c' →
  (∃ arg, o = OptShort arg ∨ o = OptLong arg) →
  opts_state c' (Scan true true
                   (match o with OptShort arg => arg :: shorts s | _ => shorts s end)).
Proof.
  intros ([seen Ht] & Hcur & Hshorts) Ho (arg & Harg).
  assert (Ht' : table_of_opts (seen ++ [o]) (cfg_keys c')) by by eapply table_of_opts_step.
  assert (Hshape : ∃ keys1 ki k a,
    (find_key (cfg_keys c) arg = Some ki ∧ keys1 = cfg_keys c
     ∨ find_key (cfg_keys c) arg = None ∧ keys1 = cfg_keys c ++ [new_key arg]
       ∧ ki = length (cfg_keys c))
    ∧ keys1 !! ki = Some k ∧ code k = arg ∧ command a = None
    ∧ is_short a = match o with OptShort _ => true | _ => false end
    ∧ c' = Config (<[ki := set_actions (actions k ++ [a]) k]> keys1)
                  (Some (ki, action_count k))).
  { apply parse_key_opt_shape in Ho.
    destruct Harg as [-> | ->];
      destruct Ho as (_ & _ & keys1 & ki & k & a & Hsel & Hk & Hc & Ha & ->);
      exists keys1, ki, k, a; (split_and!; [done | done | done | | | done]).
    - by apply (add_action_command k a); left.
    - unfold add_short_action in Ha. destruct (existsb _ _); by simplify_eq.
    - by apply (add_action_command k a); right.
    - unfold add_long_action in Ha. by simplify_eq. }
  destruct Hshape as (keys1 & ki & k & a & Hsel & Hk & Hcode & Hcmd & Hsh & ->).
  assert (Hkeys1 : ∀ k', k' ∈ keys1 ↔ k' ∈ cfg_keys c ∨ k' = k ∧ actions k = []).
  { intros k'. destruct Hsel as [[_ ->] | (_ & -> & ->)].
    - split; [by left|]. intros [? | [-> _]]; [done|]. by eapply list_elem_of_lookup_2.
    - rewrite lookup_app_r, Nat.sub_diag in Hk by done. injection Hk as <-.
      rewrite elem_of_app, list_elem_of_singleton. split; [|intros [? | [-> _]]; auto].
      intros [? | ->]; auto. }
  assert (Hnew : ∀ k', k' ∈ <[ki := set_actions (actions k ++ [a]) k]> keys1
                       ↔ k' = set_actions (actions k ++ [a]) k
                         ∨ ∃ j, j ≠ ki ∧ keys1 !! j = Some k').
  { intros k'. rewrite list_elem_of_lookup. split.
    - intros (j & [(<- & <- & _) | [Hne Hj]]%list_lookup_insert_Some); [by left|].
      right. by exists j.
    - intros [-> | (j & Hne & Hj)].
      + exists ki. apply list_lookup_insert_Some. left. split_and!; [done..|].
        by eapply lookup_lt_Some.
      + exists j. apply list_lookup_insert_Some. by right. }
  split_and!.
  - by exists (seen ++ [o]).
  - simpl. split; [done|].
    exists (set_actions (actions k ++ [a]) k), a. split_and!.
    + apply list_lookup_insert_Some. left. split_and!; [done..|]. by eapply lookup_lt_Some.
    + simpl. unfold action_count. by rewrite lookup_app_r, Nat.sub_diag.
    + by rewrite Hcmd.
  - cbn [cfg_keys shorts]. destruct Ht as (Hnd & _ & _).
    assert (Hold : ∀ z, z ∈ shorts s
      ↔ ∃ k', (k' = k ∨ ∃ j, j ≠ ki ∧ keys1 !! j = Some k') ∧ code k' = z
              ∧ existsb is_short (actions k') = true).
    { intros z. rewrite Hshorts. split.
      - intros (k' & Hk' & Hc' & Hs'). exists k'. split_and!; [|done..].
        assert (Hin1 : k' ∈ keys1) by (apply Hkeys1; by left).
        apply list_elem_of_lookup_1 in Hin1 as [j Hj].
        destruct (decide (j = ki)) as [-> | Hne]; [left; congruence|].
        right. by exists j.
      - intros (k' & Hk' & Hc' & Hs'). exists k'. split_and!; [|done..].
        assert (Hin1 : k' ∈ keys1).
        { destruct Hk' as [-> | (j & _ & Hj)]; by eapply list_elem_of_lookup_2. }
        apply Hkeys1 in Hin1 as [? | [-> Hnil]]; [done|]. by rewrite Hnil in Hs'. }
    assert (Hact : existsb is_short (actions k ++ [a])
                   = existsb is_short (actions k) || is_short a).
    { rewrite existsb_app. simpl. by rewrite orb_false_r. }
    intros z. setoid_rewrite Hnew.
    destruct Harg as [-> | ->]; simpl in Hsh.
    + rewrite elem_of_cons, Hold. split.
      * intros [-> | (k' & [-> | Hj] & Hc' & Hs')].
        -- exists (set_actions (actions k ++ [a]) k). split_and!; [by left | done |].
           simpl. by rewrite Hact, Hsh, orb_true_r.
        -- exists (set_actions (actions k ++ [a]) k). split_and!; [by left | done |].
           simpl. by rewrite Hact, Hs'.
        -- exists k'. split_and!; [by right | done..].
      * intros (k' & [-> | Hj] & Hc' & Hs'); [left; by rewrite <- Hc'|].
        right. exists k'. split_and!; [by right | done..].
    + rewrite Hold. split.
      * intros (k' & [-> | Hj] & Hc' & Hs').
        -- exists (set_actions (actions k ++ [a]) k). split_and!; [by left | done |].
           simpl. by rewrite Hact, Hs'.
        -- exists k'. split_and!; [by right | done..].
      * intros (k' & [-> | Hj] & Hc' & Hs').
        -- exists k. split_and!; [by left | done |].
           simpl in Hs'. by rewrite Hact, Hsh, orb_false_r in Hs'.
        -- exists k'. split_and!; [by right | done..].
Qed.

Lemma opts_state_update c s o f (g : bool → bool) :
  opts_state c s → any s = true → opt_code o = None →
  (∀ a, a_type (f a) = a_type a) →
  (∀ a, in_int (trigger_time a) → in_int (trigger_time (f a))) →
  (∀ a, match command (f a) with Some _ => false | None => true end
        = g (match command a with Some _ => false | None => true end)) →
  ∃ c', update_cur f c = Some c' ∧ opts_state c' (Scan true (g (pending s)) (shorts s)).
Proof.
  intros ([seen Ht] & Hcur & Hshorts) Hany Ho Hty Hint Hg.
  destruct (cfg_cur c) as [[ki ai]|] eqn:Hc; [|destruct Hcur; congruence].
  destruct Hcur as (_ & k & a & Hk & Ha & Hp).
  set (k2 := set_actions (<[ai := f a]> (actions k)) k).
  assert (Hup : update_cur f c = Some (Config (<[ki := k2]> (cfg_keys c)) (cfg_cur c))).
  { unfold update_cur. rewrite Hc. simpl. rewrite Hk. simpl. by rewrite Ha. }
  eexists. split; [exact Hup|].
  assert (Hnew : ∀ k', k' ∈ <[ki := k2]> (cfg_keys c)
                       ↔ k' = k2 ∨ ∃ j, j ≠ ki ∧ cfg_keys c !! j = Some k').
  { intros k'. rewrite list_elem_of_lookup. split.
    - intros (j & [(<- & <- & _) | [Hne Hj]]%list_lookup_insert_Some); [by left|].
      right. by exists j.
    - intros [-> | (j & Hne & Hj)].
      + exists ki. apply list_lookup_insert_Some. left. split_and!; [done..|].
        by eapply lookup_lt_Some.
      + exists j. apply list_lookup_insert_Some. by right. }
  assert (Hex : existsb is_short (actions k2) = existsb is_short (actions k)).
  { subst k2. simpl. by apply existsb_is_short_insert. }
  split_and!.
  - exists (seen ++ [o]).
    by apply (table_of_opts_update seen c o _ f Ht Ho Hint Hup).
  - cbn [cfg_cur cfg_keys any pending]. rewrite Hc. split; [done|].
    exists k2, (f a). split_and!.
    + apply list_lookup_insert_Some. left. split_and!; [done..|]. by eapply lookup_lt_Some.
    + subst k2. simpl. apply list_lookup_insert_Some. left. split_and!; [done..|].
      by eapply lookup_lt_Some.
    + by rewrite Hg, Hp.
  - cbn [cfg_keys shorts]. intros z. rewrite Hshorts. setoid_rewrite Hnew. split.
    + intros (k' & (j & Hj)%list_elem_of_lookup_1 & Hc' & Hs').
      destruct (decide (j = ki)) as [-> | Hne].
      * exists k2. assert (k' = k) as -> by congruence.
        split_and!; [by left | done | by rewrite Hex].
      * exists k'. split_and!; [right; by exists j | done..].
    + intros (k' & [-> | (j & _ & Hj)] & Hc' & Hs').
      * exists k. split_and!; [by eapply list_elem_of_lookup_2 | done | by rewrite <- Hex].
      * exists k'. split_and!; [by eapply list_elem_of_lookup_2 | done..].
Qed.

Lemma opts_state_step c s o :
  opts_state c s →
  match parse_opt c o, scan_opt s o with
  | Some c', Some s' => opts_state c' s'
  | None, None => True
  | _, _ => False
  end.
Proof.
  intros Hst. pose proof (opts_state_is_set c s Hst) as Hset.
  pose proof Hst as ([seen (Hnd & _ & _)] & Hcur & Hshorts).
  assert (Hnocur : any s = false → cfg_cur c = None).
  { intros Hany. destruct (cfg_cur c) as [[ki ai]|]; [|done]. destruct Hcur. congruence. }
  assert (Hfound : ∀ arg i, find_key (cfg_keys c) arg = Some i →
                     ∃ k, cfg_keys c !! i = Some k ∧ code k = arg).
  { intros arg i (k & _ & Hk & Hc)%find_key_from_some. rewrite Nat.sub_0_r in Hk.
    by exists k. }
  destruct o as [arg | arg | cmd | arg].
  - destruct (parse_opt c (OptShort arg)) as [c'|] eqn:Ho.
    + pose proof (opts_state_key c s _ c' Hst Ho ltac:(by exists arg; left)) as Hst'.
      apply parse_key_opt_shape in Ho
        as (Hs & Hr & keys1 & ki & k & a & Hsel & Hk & Hc & Ha & _).
      simpl. rewrite Hs in Hset. destruct (pending s); [done|].
      destruct (Z.leb_spec 0 arg); [|lia]. destruct (Z.leb_spec arg 65535); [|lia].
      cbn [andb negb]. rewrite bool_decide_eq_false_2; [done|].
      intros (k' & Hk' & Hc' & Hs')%Hshorts.
      unfold add_short_action in Ha. destruct (existsb is_short (actions k)) eqn:He; [done|].
      destruct Hsel as [[Hf ->] | (Hf & _ & _)].
      * assert (k' = k) as ->; [|congruence].
        apply (NoDup_code_eq (cfg_keys c)); [done | done | | congruence].
        by eapply list_elem_of_lookup_2.
      * by apply (proj1 (find_key_from_none _ _ _) Hf k').
    + simpl. unfold parse_opt in Ho. rewrite Hset in Ho.
      destruct (pending s); [done|]. cbn [negb] in Ho.
      destruct (negb ((0 <=? arg) && (arg <=? 65535))); [done|].
      destruct (find_key (cfg_keys c) arg) as [i|] eqn:Hf.
      * destruct (Hfound arg i Hf) as (k & Hk & Hc). rewrite Hk in Ho. simpl in Ho.
        unfold add_short_action in Ho.
        destruct (existsb is_short (actions k)) eqn:He; [|done].
        rewrite bool_decide_eq_true_2; [done|]. apply Hshorts. exists k.
        split_and!; [by eapply list_elem_of_lookup_2 | done..].
      * by rewrite lookup_app_r, Nat.sub_diag in Ho.
  - destruct (parse_opt c (OptLong arg)) as [c'|] eqn:Ho.
    + pose proof (opts_state_key c s _ c' Hst Ho ltac:(by exists arg; right)) as Hst'.
      apply parse_key_opt_shape in Ho as (Hs & Hr & _).
      simpl. rewrite Hs in Hset. destruct (pending s); [done|].
      destruct (Z.leb_spec 0 arg); [|lia]. destruct (Z.leb_spec arg 65535); [|lia].
      done.
    + simpl. unfold parse_opt in Ho. rewrite Hset in Ho.
      destruct (pending s); [done|]. cbn [negb] in Ho.
      destruct (negb ((0 <=? arg) && (arg <=? 65535))); [done|].
      destruct (find_key (cfg_keys c) arg) as [i|] eqn:Hf.
      * destruct (Hfound arg i Hf) as (k & Hk & Hc). by rewrite Hk in Ho.
      * by rewrite lookup_app_r, Nat.sub_diag in Ho.
  - simpl. destruct (any s) eqn:Hany.
    + destruct (opts_state_update c s (OptAction cmd) (set_command (Some cmd)) (λ _, false)
                  Hst Hany) as (c' & -> & Hst'); done.
    + unfold update_cur. by rewrite (Hnocur eq_refl).
  - simpl. destruct (any s) eqn:Hany.
    + destruct (cfg_cur c) as [cur|] eqn:Hc; [|destruct Hcur; congruence].
      destruct (negb ((INT_MIN <=? arg) && (arg <=? INT_MAX))); [done|].
      destruct (opts_state_update c s (OptTime arg) (set_trigger_time (wrap32 arg)) id
                  Hst Hany) as (c' & -> & Hst'); try done.
      * intros a _. simpl. apply wrap32_range.
      * destruct s as [an pe sh]. simpl in *. by subst an.
    + by rewrite (Hnocur eq_refl).
Qed.

Lemma opts_state_steps opts c s :
  opts_state c s →
  match parse_opts c opts, scan_opts s opts with
  | Some c', Some s' => opts_state c' s'
  | None, None => True
  | _, _ => False
  end.
Proof.
  revert c s. induction opts as [|o opts IH]; intros c s Hst; simpl; [done|].
  pose proof (opts_state_step c s o Hst) as Hstep.
  destruct (parse_opt c o) as [c'|], (scan_opt s o) as [s'|]; simpl; try done.
  by apply IH.
Qed.

(** X11: the command lines that [main] accepts.  Configuration succeeds
    exactly when [opts_accepted] holds of the options: every -a and -t
    comes after a key option, every -t value fits an [int], every key code
    fits 16 bits, no key code gets two -s options, and every -s or -l
    option is followed by an -a before the next key option and before the
    end. *)
Theorem configure_accepts (qsort : list action → list action) (opts : list opt) :
  is_Some (configure qsort opts) ↔ opts_accepted opts = true.
Proof.
  assert (Hinit : opts_state (Config [] None) (Scan false false [])).
  { split_and!; [exists []; apply table_of_opts_nil | done |].
    intros z. simpl. split; [by intros ?%elem_of_nil|].
    by intros (k & ?%elem_of_nil & _). }
  pose proof (opts_state_steps opts _ _ Hinit) as H.
  unfold configure, opts_accepted.
  destruct (parse_opts (Config [] None) opts) as [c|],
           (scan_opts (Scan false false []) opts) as [s|]; simpl; try done.
  - rewrite (opts_state_is_set c s H). destruct (pending s); simpl; [|by split].
    split; [by intros [? ?] | done].
Qed.

(** *** A press and a release *)

Lemma run_ticks_pending debug filename ticks k :
  Forall (λ now, has_wakeup k = true → 0 < time_diff_ts (ts_wakeup k) now) ticks →
  run debug filename (Tick <$> ticks) [k] = (Some [k], []).
Proof.
  induction 1 as [|now ticks Hnow _ IH]; [done|].
  cbn [fmap list_fmap run do_step].
  rewrite handle_timeouts_idle by (constructor; [done | constructor]).
  change (list_fmap _ _ Tick ticks) with (Tick <$> ticks). by rewrite IH.
Qed.

(** What the timeout handler does to a key whose wakeup has expired. *)
Lemma handle_timeouts_key_fires debug now k :
  has_wakeup k = true → time_diff_ts (ts_wakeup k) now ≤ 0 →
  let k1 := match state k with
            | KEY_DEBOUNCE => k
            | _ => set_tv_released (time_ts2tv now 0) k
            end in
  let elapsed := wrap32 (time_diff_tv (tv_released k1) (tv_pressed k)) in
  (handle_timeouts_key debug now k).1
  = set_state (match state k with KEY_DEBOUNCE => KEY_RELEASED | _ => KEY_HANDLED end)
      (set_has_wakeup false k1)
  ∧ finds (handle_timeouts_key debug now k).2
    = [FindKeyAction (code k) elapsed (find_key_action k elapsed)]
  ∧ systems (handle_timeouts_key debug now k).2
    = match find_key_action k elapsed with
      | Some a => [System (command a)]
      | None => []
      end.
Proof.
  intros Hw Hexp k1 elapsed. unfold handle_timeouts_key. rewrite Hw.
  apply Z.leb_le in Hexp. rewrite Hexp. cbn [andb fst snd]. fold k1.
  assert (Hk1 : code k1 = code k ∧ tv_pressed k1 = tv_pressed k ∧ actions k1 = actions k
                ∧ state k1 = state k).
  { subst k1. by destruct (state k) eqn:Hs. }
  destruct Hk1 as (Hc & Hp & Ha & Hs). rewrite Hc, Hp. fold elapsed.
  assert (Hf : find_key_action k1 elapsed = find_key_action k elapsed).
  { unfold find_key_action, action_count. by rewrite Ha. }
  rewrite Hf. split_and!.
  - cbn [state set_has_wakeup]. rewrite Hs. by destruct (state k).
  - rewrite finds_app. destruct (3 <? debug); simpl;
      destruct (find_key_action k elapsed); destruct (negb (debug =? 0)); done.
  - rewrite systems_app. destruct (3 <? debug); simpl;
      destruct (find_key_action k elapsed); destruct (negb (debug =? 0)); done.
Qed.

Lemma handle_key_press now event k k1 :
  state k = KEY_RELEASED → ev_value event ≠ 0 → handle_key now event k = Some k1 →
  state k1 = KEY_PRESSED ∧ tv_pressed k1 = ev_time event
  ∧ (has_wakeup k1 = true →
     ∃ a, last_action k = Some a ∧ a_type a = LONG_PRESS
          ∧ ts_wakeup k1 = time_tv2ts (ev_time event) (trigger_time a)).
Proof.
  intros Hs Hvp. unfold handle_key. rewrite Hs.
  apply Z.eqb_neq in Hvp. rewrite Hvp.
  replace (last_action (set_state KEY_PRESSED (set_tv_pressed (ev_time event) k)))
    with (last_action k) by done.
  destruct (last_action k) as [a|]; [|done].
  destruct (a_type a) eqn:Hta; intros [= <-]; (split_and!; [done | done |]);
    simpl; [|done]. intros _. by exists a.
Qed.

Lemma handle_key_release now event k :
  state k = KEY_PRESSED → ev_value event = 0 →
  ∃ k2, handle_key now event k = Some k2
        ∧ has_wakeup k2 = true ∧ state k2 = KEY_DEBOUNCE
        ∧ ts_wakeup k2 = time_add_ts now DEBOUNCE_MSECS
        ∧ tv_released k2 = ev_time event ∧ tv_pressed k2 = tv_pressed k
        ∧ code k2 = code k ∧ actions k2 = actions k.
Proof.
  intros Hs Hv. unfold handle_key. rewrite Hs. apply Z.eqb_eq in Hv. rewrite Hv.
  cbn [negb]. eexists. split; [reflexivity|]. done.
Qed.

(** X12: one press of a key.  From a released key, a press and then a
    release that comes before a long press is due, followed by the timeout
    handler once the debounce deadline (10 ms after the release was
    handled) has passed, with any number of turns of the timeout handler in
    between: [find_key_action] is called exactly once, with the time from
    the press to the release as the records give it, the command of the
    action found is run once (nothing if none matches), and the key is
    released again without wakeup, its actions unchanged. *)
Theorem press_release_cycle (debug : Z) (filename : string) (k : key)
    (press release : input_event) (now_p now_r now_t : timespec)
    (ticks0 ticks1 ticks2 : list timespec) :
  state k = KEY_RELEASED → has_wakeup k = false → actions k ≠ [] →
  ev_type press = 1 → ev_code press = code k → ev_value press ≠ 0 →
  ev_type release = 1 → ev_code release = code k → ev_value release = 0 →
  Forall (λ now, ∀ a, last_action k = Some a → a_type a = LONG_PRESS →
                   0 < time_diff_ts (time_tv2ts (ev_time press) (trigger_time a)) now)
         ticks1 →
  Forall (λ now, 0 < time_diff_ts (time_add_ts now_r DEBOUNCE_MSECS) now) ticks2 →
  time_diff_ts (time_add_ts now_r DEBOUNCE_MSECS) now_t ≤ 0 →
  let elapsed := wrap32 (time_diff_tv (ev_time release) (ev_time press)) in
  let steps :=
    (Tick <$> ticks0) ++ [Input now_p press] ++ (Tick <$> ticks1)
    ++ [Input now_r release] ++ (Tick <$> ticks2) ++ [Tick now_t] in
  ∃ t,
    run debug filename steps [k]
    = (Some [Key (code k) false (actions k) (ev_time press) (ev_time release)
               (time_add_ts now_r DEBOUNCE_MSECS) KEY_RELEASED], t)
    ∧ finds t = [FindKeyAction (code k) elapsed (find_key_action k elapsed)]
    ∧ systems t = match find_key_action k elapsed with
                  | Some a => [System (command a)]
                  | None => []
                  end.
Proof.
  intros Hs Hw Hne Htp Hcp Hvp Htr Hcr Hvr Hticks1 Hticks2 Hexp elapsed steps.
  destruct (handle_key_total now_p press k Hne) as (k1 & Hk1 & Ha1).
  destruct (handle_key_frame _ _ _ _ Hk1) as [Hc1 _].
  destruct (handle_key_press _ _ _ _ Hs Hvp Hk1) as (Hs1 & Hp1 & Hw1).
  destruct (handle_key_release now_r release k1 Hs1 Hvr)
    as (k2 & Hk2 & Hw2 & Hs2 & Hts2 & Hr2 & Hp2 & Hc2 & Ha2).
  assert (Hkey : set_state KEY_RELEASED (set_has_wakeup false k2)
                 = Key (code k) false (actions k) (ev_time press) (ev_time release)
                     (time_add_ts now_r DEBOUNCE_MSECS) KEY_RELEASED).
  { unfold set_state, set_has_wakeup. cbn [code actions tv_pressed tv_released ts_wakeup].
    by rewrite Hts2, Hr2, Hp2, Hc2, Ha2, Hp1, Hc1, Ha1. }
  rewrite <- Hts2 in Hexp, Hticks2.
  destruct (handle_timeouts_key_fires debug now_t k2 Hw2 Hexp) as (Hk3 & Hf3 & Hsys3).
  rewrite Hs2 in Hk3, Hf3, Hsys3. rewrite Hr2, Hp2, Hp1 in Hf3, Hsys3.
  rewrite Hc2, Hc1 in Hf3. fold elapsed in Hf3, Hsys3. rewrite Hkey in Hk3.
  assert (Hfind : find_key_action k2 elapsed = find_key_action k elapsed).
  { unfold find_key_action, action_count. by rewrite Ha2, Ha1. }
  rewrite Hfind in Hf3, Hsys3.
  assert (Hrun0 : run debug filename (Tick <$> ticks0) [k] = (Some [k], []))
    by by apply run_ticks_idle.
  assert (Hrun1 : run debug filename (Tick <$> ticks1) [k1] = (Some [k1], [])).
  { apply run_ticks_pending. eapply Forall_impl; [exact Hticks1|].
    intros now Hnow Hwk. destruct (Hw1 Hwk) as (a & Hl & Hta & ->). by apply Hnow. }
  assert (Hrun2 : run debug filename (Tick <$> ticks2) [k2] = (Some [k2], [])).
  { apply run_ticks_pending. eapply Forall_impl; [exact Hticks2|]. by intros now Hnow _. }
  assert (Hlast : run debug filename [Tick now_t] [k2]
                  = (Some [(handle_timeouts_key debug now_t k2).1],
                     (handle_timeouts_key debug now_t k2).2 ++ [])).
  { cbn [run do_step]. by rewrite handle_timeouts_single. }
  assert (Hrun : run debug filename steps [k]
    = (Some [Key (code k) false (actions k) (ev_time press) (ev_time release)
               (time_add_ts now_r DEBOUNCE_MSECS) KEY_RELEASED],
       (print_key debug press filename "processing" ++ [HandleKey 0 press])
       ++ (print_key debug release filename "processing" ++ [HandleKey 0 release])
       ++ (handle_timeouts_key debug now_t k2).2 ++ [])).
  { subst steps. rewrite run_app, Hrun0. cbn [app].
    rewrite (run_input_single _ _ _ _ k k1) by done.
    rewrite run_app, Hrun1.
    rewrite (run_input_single _ _ _ _ k1 k2) by congruence.
    by rewrite run_app, Hrun2, Hlast, Hk3. }
  eexists. split; [exact Hrun|].
  rewrite !finds_app, !systems_app, !(proj1 (finds_print_key _ _ _ _)),
    !(proj2 (finds_print_key _ _ _ _)), Hf3, Hsys3.
  change (finds [HandleKey 0 press]) with (@nil call).
  change (finds [HandleKey 0 release]) with (@nil call).
  change (systems [HandleKey 0 press]) with (@nil call).
  change (systems [HandleKey 0 release]) with (@nil call).
  change (finds []) with (@nil call). change (systems []) with (@nil call).
  cbn [app]. rewrite app_nil_r. done.
Qed.

(** -s 28 -a s -l 28 -a l: the key goes down at 100.0 s and up at 100.3 s;
    the timeout handler runs once while the key is down and again 20 ms
    after the release. *)
Lemma press_release_cycle_witness :
  ∃ t,
    run 0 "event0"
      ([Input (Timespec 100 50000) (InputEvent (Timeval 100 0) 1 28 1);
        Tick (Timespec 100 100000000);
        Input (Timespec 100 300100000) (InputEvent (Timeval 100 300000) 1 28 0);
        Tick (Timespec 100 320000000)])
      [Key 28 false
         [Action SHORT_PRESS 1000 (Some "s"); Action LONG_PRESS 5000 (Some "l")]
         (Timeval 0 0) (Timeval 0 0) (Timespec 0 0) KEY_RELEASED]
    = (Some [Key 28 false
               [Action SHORT_PRESS 1000 (Some "s"); Action LONG_PRESS 5000 (Some "l")]
               (Timeval 100 0) (Timeval 100 300000) (Timespec 100 310100000)
               KEY_RELEASED], t)
    ∧ finds t = [FindKeyAction 28 300 (Some (Action SHORT_PRESS 1000 (Some "s")))]
    ∧ systems t = [System (Some "s")].
Proof.
  destruct (press_release_cycle 0 "event0"
    (Key 28 false
       [Action SHORT_PRESS 1000 (Some "s"); Action LONG_PRESS 5000 (Some "l")]
       (Timeval 0 0) (Timeval 0 0) (Timespec 0 0) KEY_RELEASED)
    (InputEvent (Timeval 100 0) 1 28 1) (InputEvent (Timeval 100 300000) 1 28 0)
    (Timespec 100 50000) (Timespec 100 300100000) (Timespec 100 320000000)
    [] [Timespec 100 100000000] [])
    as (t & Hrun & Hf & Hs).
  - reflexivity.
  - reflexivity.
  - discriminate.
  - reflexivity.
  - reflexivity.
  - discriminate.
  - reflexivity.
  - reflexivity.
  - reflexivity.
  - constructor; [|constructor]. intros a [= <-] _. by_compute.
  - constructor.
  - by_compute.
  - exists t. split_and!.
    + vm_compute in Hrun. vm_compute. exact Hrun.
    + vm_compute in Hf. vm_compute. exact Hf.
    + vm_compute in Hs. vm_compute. exact Hs.
Defined.

(** *** Reading a source *)

Lemma input_steps_app evs1 evs2 :
  input_steps (evs1 ++ evs2) = input_steps evs1 ++ input_steps evs2.
Proof. unfold input_steps. by rewrite fmap_app. Qed.

Lemma handle_events_run debug evs keys filename :
  handle_events debug evs keys filename = run debug filename (input_steps evs) keys.
Proof.
  revert keys. induction evs as [|[now event] evs IH]; intros keys; [done|].
  unfold input_steps. cbn [handle_events fmap list_fmap run do_step fst snd].
  destruct (handle_input_event debug now event keys filename) as [[keys'|] t]; [|done].
  rewrite IH. done.
Qed.

Lemma handle_input_good debug n buf rest keys filename :
  good_read (n, buf) →
  handle_input debug ((n, buf) :: rest) keys filename
  = match run debug filename (input_steps buf) keys with
    | (Some keys', t) =>
        let '(r, ks, t') := handle_input debug rest keys' filename in (r, ks, t ++ t')
    | (None, t) => (0, None, t)
    end.
Proof.
  intros (Hpos & Hrem & Hlen). simpl in *. cbn [handle_input].
  apply Z.ltb_lt in Hpos. rewrite Hpos, Hrem. cbn [Z.eqb negb].
  rewrite firstn_all2 by lia. by rewrite handle_events_run.
Qed.

Lemma handle_input_app debug good rest keys filename :
  Forall good_read good →
  handle_input debug (good ++ rest) keys filename
  = match run debug filename (input_steps (concat (snd <$> good))) keys with
    | (Some keys', t) =>
        let '(r, ks, t') := handle_input debug rest keys' filename in (r, ks, t ++ t')
    | (None, t) => (0, None, t)
    end.
Proof.
  intros Hgood. revert keys.
  induction Hgood as [|[n0 buf0] good Hg _ IH]; intros keys.
  - cbn [app fmap list_fmap concat run input_steps].
    by destruct (handle_input debug rest keys filename) as [[r ks] t'].
  - cbn [app fmap list_fmap concat]. rewrite (handle_input_good _ n0 buf0) by done.
    cbn [snd]. rewrite input_steps_app, run_app.
    destruct (run debug filename (input_steps buf0) keys) as [[keys1|] t1]; [|done].
    rewrite IH.
    destruct (run debug filename (input_steps (concat (snd <$> good))) keys1)
      as [[keys2|] t2]; [|done].
    destruct (handle_input debug rest keys2 filename) as [[r ks] t'].
    by rewrite app_assoc.
Qed.

(** X13: [handle_input] handles every record of every read, in order and
    each with the clock reading of its own moment, as long as the reads
    return whole records, and stops at the first read that does not: it
    returns 0 when that read returns 0 (nothing more to read), and -1 with
    a message when it fails or returns a count that is no multiple of the
    record size.  The records handled before are not undone, and no later
    read is made. *)
Theorem handle_input_stream (debug : Z)
    (good : list (Z * list (timespec * input_event))) (n : Z)
    (buf : list (timespec * input_event))
    (more : list (Z * list (timespec * input_event)))
    (keys : list key) (filename : string) :
  Forall good_read good → ¬ (0 < n ∧ Z.rem n SIZEOF_EVENT = 0) →
  let msg :=
    if n =? 0 then []
    else if n <? 0 then [Printf (MsgReadError (- n))] else [Printf (MsgBadSize n)] in
  handle_input debug (good ++ (n, buf) :: more) keys filename
  = match run debug filename (input_steps (concat (snd <$> good))) keys with
    | (Some keys', t) => (if n =? 0 then 0 else -1, Some keys', t ++ msg)
    | (None, t) => (0, None, t)
    end
  ∧ handle_input debug good keys filename
    = match run debug filename (input_steps (concat (snd <$> good))) keys with
      | (Some keys', t) => (0, Some keys', t)
      | (None, t) => (0, None, t)
      end.
Proof.
  intros Hgood Hn msg. split.
  - rewrite handle_input_app by done.
    destruct (run debug filename (input_steps (concat (snd <$> good))) keys)
      as [[keys'|] t]; [|done].
    cbn [handle_input]. subst msg. destruct (Z.ltb_spec 0 n) as [Hpos | Hle].
    + destruct (Z.eqb_spec (Z.rem n SIZEOF_EVENT) 0) as [Hr | Hr]; [by destruct Hn|].
      cbn [negb]. destruct (Z.eqb_spec n 0); [lia|]. destruct (Z.ltb_spec n 0); [lia|]. done.
    + destruct (Z.ltb_spec n 0); destruct (Z.eqb_spec n 0); try lia; [done|].
      by rewrite app_nil_r.
  - rewrite <- (app_nil_r good) at 1. rewrite handle_input_app by done.
    destruct (run debug filename (input_steps (concat (snd <$> good))) keys)
      as [[keys'|] t]; [|done].
    cbn [handle_input]. by rewrite app_nil_r.
Qed.

(** One read of four records, the release of key 28 handled at 100.3002 s
    and the release of key 30 at 100.3005 s, then a read that fails with
    EIO; the read after it is never made.  Each debounce deadline is 10 ms
    after the clock reading of its own release. *)
Lemma handle_input_stream_witness :
  handle_input 0
    [(96, [(Timespec 100 100000, InputEvent (Timeval 100 0) 1 28 1);
           (Timespec 100 100000, InputEvent (Timeval 100 0) 1 30 1);
           (Timespec 100 300200000, InputEvent (Timeval 100 300000) 1 28 0);
           (Timespec 100 300500000, InputEvent (Timeval 100 300000) 1 30 0)]);
     (-5, []);
     (24, [(Timespec 101 0, InputEvent (Timeval 101 0) 1 28 1)])]
    [Key 28 false [Action SHORT_PRESS 1000 (Some "s")] (Timeval 0 0) (Timeval 0 0)
       (Timespec 0 0) KEY_RELEASED;
     Key 30 false [Action SHORT_PRESS 1000 (Some "t")] (Timeval 0 0) (Timeval 0 0)
       (Timespec 0 0) KEY_RELEASED]
    "event0"
  = (-1,
     Some [Key 28 true [Action SHORT_PRESS 1000 (Some "s")] (Timeval 100 0)
             (Timeval 100 300000) (Timespec 100 310200000) KEY_DEBOUNCE;
           Key 30 true [Action SHORT_PRESS 1000 (Some "t")] (Timeval 100 0)
             (Timeval 100 300000) (Timespec 100 310500000) KEY_DEBOUNCE],
     [HandleKey 0 (InputEvent (Timeval 100 0) 1 28 1);
      HandleKey 1 (InputEvent (Timeval 100 0) 1 30 1);
      HandleKey 0 (InputEvent (Timeval 100 300000) 1 28 0);
      HandleKey 1 (InputEvent (Timeval 100 300000) 1 30 0);
      Printf (MsgReadError 5)]).
Proof.
  destruct (handle_input_stream 0
    [(96, [(Timespec 100 100000, InputEvent (Timeval 100 0) 1 28 1);
           (Timespec 100 100000, InputEvent (Timeval 100 0) 1 30 1);
           (Timespec 100 300200000, InputEvent (Timeval 100 300000) 1 28 0);
           (Timespec 100 300500000, InputEvent (Timeval 100 300000) 1 30 0)])]
    (-5) [] [(24, [(Timespec 101 0, InputEvent (Timeval 101 0) 1 28 1)])]
    [Key 28 false [Action SHORT_PRESS 1000 (Some "s")] (Timeval 0 0) (Timeval 0 0)
       (Timespec 0 0) KEY_RELEASED;
     Key 30 false [Action SHORT_PRESS 1000 (Some "t")] (Timeval 0 0) (Timeval 0 0)
       (Timespec 0 0) KEY_RELEASED]
    "event0") as [H _].
  - constructor; [|constructor]. by_compute.
  - intros [H _]. discriminate H.
  - vm_compute in H. vm_compute. exact H.
Defined.

Lemma record_loop_from (m j fuel : nat) :
  (j ≤ m)%nat → (m - j < fuel)%nat →
  record_loop fuel (Z.of_nat j * SIZEOF_EVENT) (Z.of_nat m * SIZEOF_EVENT)
  = Some ((λ i, Z.of_nat i * SIZEOF_EVENT) <$> seq j (m - j)).
Proof.
  revert j. induction fuel as [|fuel IH]; intros j Hj Hfuel; [lia|].
  cbn [record_loop]. unfold SIZEOF_POINTER, SIZEOF_EVENT in *.
  destruct (Z.leb_spec (Z.of_nat j * 24 + 8) (Z.of_nat m * 24)) as [Hlt | Hge].
  - replace (Z.of_nat j * 24 + 24) with (Z.of_nat (S j) * 24) by lia.
    rewrite IH by lia. replace (m - j)%nat with (S (m - S j)) by lia. done.
  - replace (m - j)%nat with 0%nat by lia. done.
Qed.

(** X14: the record loop of [handle_input] tests its pointer against the
    end of the data with the size of a pointer, not of a record.  After the
    check that the count read is a multiple of the record size this makes
    no difference: the loop ends, and it visits exactly the [n / 24]
    records read, each of them wholly inside the [n] bytes. *)
Theorem record_loop_whole_records (n : Z) (fuel : nat) :
  0 < n → Z.rem n SIZEOF_EVENT = 0 → (Z.to_nat (n ÷ SIZEOF_EVENT) < fuel)%nat →
  record_loop fuel 0 n
  = Some ((λ i, Z.of_nat i * SIZEOF_EVENT) <$> seq 0 (Z.to_nat (n ÷ SIZEOF_EVENT)))
  ∧ ∀ offs off, record_loop fuel 0 n = Some offs → off ∈ offs →
      0 ≤ off ∧ off + SIZEOF_EVENT ≤ n ∧ Z.rem off SIZEOF_EVENT = 0.
Proof.
  intros Hpos Hrem Hfuel.
  set (m := Z.to_nat (n ÷ SIZEOF_EVENT)) in *.
  assert (Hn : n = Z.of_nat m * SIZEOF_EVENT).
  { subst m. unfold SIZEOF_EVENT in *. rewrite Z2Nat.id; Z.quot_rem_to_equations; lia. }
  assert (Hloop : record_loop fuel 0 n
                  = Some ((λ i, Z.of_nat i * SIZEOF_EVENT) <$> seq 0 m)).
  { pose proof (record_loop_from m 0 fuel ltac:(lia) ltac:(lia)) as H.
    rewrite Nat.sub_0_r in H. by rewrite Hn at 1. }
  split; [done|]. intros offs off. rewrite Hloop. intros [= <-].
  intros (i & -> & Hi)%list_elem_of_fmap. apply elem_of_seq in Hi.
  unfold SIZEOF_EVENT in *. split_and!; [lia | lia |].
  rewrite Z.rem_mul; lia.
Qed.

(** A read of 72 bytes: three records, at offsets 0, 24 and 48. *)
Lemma record_loop_whole_records_witness :
  record_loop 10 0 72 = Some [0; 24; 48].
Proof.
  destruct (record_loop_whole_records 72 10) as [H _].
  - lia.
  - reflexivity.
  - vm_compute. lia.
  - rewrite H. reflexivity.
Defined.

(** *** The keys of a table are independent *)

Lemma do_step_frame debug filename s keys :
  Forall (λ k, actions k ≠ []) keys →
  ∃ keys1 t1,
    do_step debug filename s keys = (Some keys1, t1)
    ∧ code <$> keys1 = code <$> keys
    ∧ actions <$> keys1 = actions <$> keys
    ∧ ∀ j k, keys !! j = Some k → has_wakeup k = false → for_key (code k) s = false →
        keys1 !! j = Some k.
Proof.
  intros Hall. destruct s as [now | now event]; cbn [do_step].
  - pose proof (handle_timeouts_fst debug now keys) as Hfst.
    destruct (handle_timeouts debug now keys) as [keys1 t1]. simpl in Hfst. subst keys1.
    eexists _, t1. split_and!; [done | | |].
    + rewrite <- list_fmap_compose. apply list_fmap_ext. intros i k _. simpl.
      apply handle_timeouts_key_frame.
    + rewrite <- list_fmap_compose. apply list_fmap_ext. intros i k _. simpl.
      apply handle_timeouts_key_actions.
    + intros j k Hj Hw _. rewrite list_lookup_fmap, Hj. simpl.
      by rewrite handle_timeouts_key_idle.
  - unfold handle_input_event.
    destruct (negb (ev_type event =? 1)); [by eexists _, _|].
    destruct (find_key keys (ev_code event)) as [i|] eqn:Hf; [|by eexists _, _].
    apply find_key_from_some in Hf as (k0 & _ & Hi & Hc). rewrite Nat.sub_0_r in Hi.
    rewrite Hi.
    destruct (handle_key_total now event k0) as (k' & Hk' & Ha).
    { by apply (Forall_lookup_1 _ _ _ _ Hall Hi). }
    rewrite Hk'. destruct (handle_key_frame _ _ _ _ Hk') as [Hc' _].
    eexists _, _. split_and!; [done | | |].
    + rewrite list_fmap_insert, Hc'. apply list_insert_id. by rewrite list_lookup_fmap, Hi.
    + rewrite list_fmap_insert, Ha. apply list_insert_id. by rewrite list_lookup_fmap, Hi.
    + intros j k Hj _ Hfor. cbn [for_key] in Hfor. apply Z.eqb_neq in Hfor.
      rewrite list_lookup_insert_ne; [done|]. intros ->. congruence.
Qed.


(** X15: the table at run time.  Whatever records and turns of the timeout
    handler come, the key codes and the actions of the table stay as
    configured, and a key without wakeup for whose code no record comes is
    left exactly as it is: what happens to the other keys does not touch
    it. *)
Theorem run_frame (debug : Z) (filename : string) (steps : list step) (keys : list key) :
  Forall (λ k, actions k ≠ []) keys →
  ∃ keys' t,
    run debug filename steps keys = (Some keys', t)
    ∧ code <$> keys' = code <$> keys
    ∧ actions <$> keys' = actions <$> keys
    ∧ ∀ j k, keys !! j = Some k → has_wakeup k = false →
        Forall (λ s, for_key (code k) s = false) steps → keys' !! j = Some k.
Proof.
  revert keys. induction steps as [|s steps IH]; intros keys Hall.
  - by exists keys, [].
  - destruct (do_step_frame debug filename s keys Hall) as (keys1 & t1 & Hs & Hc1 & Ha1 & Hf1).
    assert (Hall1 : Forall (λ k, actions k ≠ []) keys1).
    { apply (Forall_fmap actions (λ l, l ≠ [])). rewrite Ha1. by apply Forall_fmap. }
    destruct (IH keys1 Hall1) as (keys' & t & Hr & Hc & Ha & Hf).
    exists keys', (t1 ++ t). cbn [run]. rewrite Hs, Hr.
    split_and!; [done | congruence | congruence |].
    intros j k Hj Hw Hsteps. apply Forall_cons in Hsteps as [Hs0 Hsteps].
    apply Hf; [|done..]. by apply Hf1.
Qed.

(** Key 30 while key 28 is pressed, released and debounced. *)
Lemma run_frame_witness :
  ∃ keys' t,
    run 0 "event0"
      [Input (Timespec 100 0) (InputEvent (Timeval 100 0) 1 28 1);
       Input (Timespec 100 300000000) (InputEvent (Timeval 100 300000) 1 28 0);
       Tick (Timespec 100 320000000)]
      [Key 28 false [Action SHORT_PRESS 1000 (Some "s")] (Timeval 0 0) (Timeval 0 0)
         (Timespec 0 0) KEY_RELEASED;
       Key 30 false [Action LONG_PRESS 5000 (Some "l")] (Timeval 7 0) (Timeval 8 0)
         (Timespec 12 0) KEY_RELEASED]
    = (Some keys', t)
    ∧ keys' !! 1%nat
      = Some (Key 30 false [Action LONG_PRESS 5000 (Some "l")] (Timeval 7 0) (Timeval 8 0)
                (Timespec 12 0) KEY_RELEASED).
Proof.
  destruct (run_frame 0 "event0"
      [Input (Timespec 100 0) (InputEvent (Timeval 100 0) 1 28 1);
       Input (Timespec 100 300000000) (InputEvent (Timeval 100 300000) 1 28 0);
       Tick (Timespec 100 320000000)]
      [Key 28 false [Action SHORT_PRESS 1000 (Some "s")] (Timeval 0 0) (Timeval 0 0)
         (Timespec 0 0) KEY_RELEASED;
       Key 30 false [Action LONG_PRESS 5000 (Some "l")] (Timeval 7 0) (Timeval 8 0)
         (Timespec 12 0) KEY_RELEASED])
    as (keys' & t & Hrun & _ & _ & Hf).
  - repeat constructor; discriminate.
  - exists keys', t. split; [exact Hrun|].
    apply Hf; [reflexivity | reflexivity |]. repeat constructor.
Defined.

(** *** A read error on a readable source *)






(** *** [read_safe] *)

Lemma read_safe_loop_done rs total count :
  (total <? count) = false → read_safe_loop rs total count = Some (wrap64 total).
Proof. intros H. destruct rs as [|[n|e] rs]; cbn [read_safe_loop]; by rewrite H. Qed.

Lemma read_safe_loop_eintr rs total count :
  read_safe_loop rs total count
  = read_safe_loop (List.filter (λ r, negb (is_eintr r)) rs) total count.
Proof.
  revert total. induction rs as [|r rs IH]; intros total; [done|].
  destruct r as [n | e]; cbn [List.filter is_eintr negb].
  - cbn [read_safe_loop]. by rewrite IH.
  - destruct (e =? EINTR) eqn:He; cbn [negb read_safe_loop]; rewrite He; [|done].
    destruct (total <? count) eqn:Hlt; [by rewrite IH|].
    by rewrite read_safe_loop_done.
Qed.

Lemma read_safe_loop_chunks chunks rs total count :
  0 ≤ total → Forall (λ n, 0 < n) chunks → total + sum_list chunks < count →
  count ≤ LONG_MAX →
  read_safe_loop ((ReadCount <$> chunks) ++ rs) total count
  = read_safe_loop rs (total + sum_list chunks) count.
Proof.
  intros Ht Hpos. revert total Ht.
  induction Hpos as [|n chunks Hn Hpos IH]; intros total Ht Hsum Hc.
  - cbn [fmap list_fmap app sum_list foldr]. by rewrite Z.add_0_r.
  - cbn [fmap list_fmap app sum_list foldr read_safe_loop] in *.
    change (foldr Z.add 0 chunks) with (sum_list chunks) in *.
    assert (Hs : 0 ≤ sum_list chunks).
    { clear -Hpos. induction Hpos as [|m l Hm _ IHl]; simpl; [done|].
      change (foldr Z.add 0 l) with (sum_list l). lia. }
    destruct (Z.ltb_spec total count); [|lia]. destruct (Z.eqb_spec n 0); [lia|].
    unfold wrapu64. rewrite Z.mod_small by (unfold LONG_MAX in Hc; lia).
    change (list_fmap _ _ ReadCount chunks) with (ReadCount <$> chunks).
    rewrite IH; [f_equal; lia | lia | lia | done].
Qed.

(** X17: [read_safe] of the earlier revision.  A call of [read] that is
    interrupted (EINTR) is made again and leaves no trace in the result.
    When [read] has returned part of the bytes asked for, in any number of
    calls, then: at end of file the count so far is returned; when the next
    call would block (EAGAIN) 0 is returned, the same as when nothing at
    all was read; on any other error the negated [errno]; and when a call
    returns the bytes still missing, the full count. *)
Theorem read_safe_result (chunks : list Z) (rest : list read_result)
    (count partial_read : Z) :
  0 < count ≤ LONG_MAX → 0 ≤ partial_read →
  Forall (λ n, 0 < n) chunks →
  partial_read `mod` count + sum_list chunks < count →
  let got := partial_read `mod` count + sum_list chunks in
  (∀ rs, read_safe rs count partial_read
         = read_safe (List.filter (λ r, negb (is_eintr r)) rs) count partial_read)
  ∧ read_safe ((ReadCount <$> chunks) ++ ReadCount 0 :: rest) count partial_read = Some got
  ∧ read_safe ((ReadCount <$> chunks) ++ ReadErrno EAGAIN :: rest) count partial_read
    = Some 0
  ∧ (∀ e, 0 ≤ e ≤ INT_MAX → e ≠ EINTR → e ≠ EAGAIN →
       read_safe ((ReadCount <$> chunks) ++ ReadErrno e :: rest) count partial_read
       = Some (- e))
  ∧ read_safe ((ReadCount <$> chunks) ++ ReadCount (count - got) :: rest) count partial_read
    = Some count.
Proof.
  intros Hc Hp Hpos Hsum got.
  pose proof (Z.mod_pos_bound partial_read count ltac:(lia)) as Hm.
  assert (Hgot : partial_read `mod` count ≤ got).
  { subst got. clear -Hpos. induction Hpos as [|m l Hm' _ IHl]; simpl; [lia|].
    change (foldr Z.add 0 l) with (sum_list l). lia. }
  unfold read_safe. split; [intros rs; apply read_safe_loop_eintr|].
  rewrite !read_safe_loop_chunks by (assumption || lia). fold got.
  pose proof Hc as Hc0. unfold LONG_MAX in Hc.
  assert (Hlt : (got <? count) = true) by (apply Z.ltb_lt; subst got; lia).
  split_and!.
  - cbn [read_safe_loop]. rewrite Hlt. cbn [Z.eqb]. f_equal. apply wrap64_id.
    unfold in_long, LONG_MIN, LONG_MAX. lia.
  - cbn [read_safe_loop]. rewrite Hlt. done.
  - intros e He H1 H2. rewrite read_safe_loop_chunks by (assumption || lia).
    fold got. cbn [read_safe_loop]. rewrite Hlt.
    destruct (Z.eqb_spec e EINTR); [done|]. destruct (Z.eqb_spec e EAGAIN); [done|].
    f_equal. apply wrap64_id. unfold in_long, LONG_MIN, LONG_MAX, INT_MAX in *. lia.
  - cbn [read_safe_loop]. rewrite Hlt.
    destruct (Z.eqb_spec (count - got) 0); [lia|].
    replace (got + (count - got)) with count by lia.
    unfold wrapu64. rewrite Z.mod_small by lia.
    rewrite read_safe_loop_done by apply Z.ltb_irrefl.
    f_equal. apply wrap64_id. unfold in_long, LONG_MIN, LONG_MAX. lia.
Qed.

(** A record of 24 bytes of which 8 and then 4 bytes arrive before the
    descriptor would block: the 12 bytes are not reported. *)
Lemma read_safe_result_witness :
  read_safe [ReadCount 8; ReadErrno EINTR; ReadCount 4; ReadErrno EAGAIN] 24 0 = Some 0
  ∧ read_safe [ReadCount 8; ReadCount 4; ReadCount 0] 24 0 = Some 12.
Proof.
  destruct (read_safe_result [8; 4] [] 24 0) as (He & Heof & Hagain & _).
  - by_compute.
  - lia.
  - repeat constructor.
  - by_compute.
  - split.
    + rewrite He. exact Hagain.
    + exact Heof.
Defined.

(** *** The comparator of [sort_actions] *)

Lemma n_short_two_any l i j a b :
  (i < j)%nat → l !! i = Some a → l !! j = Some b →
  a_type a = SHORT_PRESS → a_type b = SHORT_PRESS → (2 ≤ n_short l)%nat.
Proof.
  revert i j. induction l as [|x l IH]; intros i j Hij Hi Hj Ha Hb; [done|].
  destruct i as [|i].
  - by apply (n_short_two (x :: l) j b a).
  - destruct j as [|j]; [lia|]. simpl in Hi, Hj.
    pose proof (IH i j ltac:(lia) Hi Hj Ha Hb) as H.
    change (x :: l) with ([x] ++ l). rewrite n_short_app. lia.
Qed.

(** X18: [sort_actions_compare] as an order.  On two different entries of
    a list with at most one short action (what [add_short_action] ensures)
    it is antisymmetric, and it returns 0 exactly for two long actions with
    the same trigger time; on two short actions it says of each that it
    comes before the other.  Whatever the actions, it is transitive. *)
Theorem sort_actions_compare_consistent (l : list action) (i j : nat) (a b : action) :
  i ≠ j → l !! i = Some a → l !! j = Some b →
  ((n_short l ≤ 1)%nat →
   sort_actions_compare a b = - sort_actions_compare b a
   ∧ (sort_actions_compare a b = 0
      ↔ a_type a = LONG_PRESS ∧ a_type b = LONG_PRESS ∧ trigger_time a = trigger_time b))
  ∧ (a_type a = SHORT_PRESS → a_type b = SHORT_PRESS →
     (2 ≤ n_short l)%nat
     ∧ sort_actions_compare a b = -1 ∧ sort_actions_compare b a = -1)
  ∧ (∀ c, sort_actions_compare a b ≤ 0 → sort_actions_compare b c ≤ 0 →
          sort_actions_compare a c ≤ 0).
Proof.
  intros Hij Hi Hj.
  assert (Htwo : a_type a = SHORT_PRESS → a_type b = SHORT_PRESS → (2 ≤ n_short l)%nat).
  { intros Ha Hb. destruct (Nat.lt_ge_cases i j).
    - by apply (n_short_two_any l i j a b).
    - apply (n_short_two_any l j i b a); [lia | done..]. }
  split_and!.
  - intros Hn. unfold sort_actions_compare.
    destruct (a_type a) eqn:Ha, (a_type b) eqn:Hb.
    + destruct (Z.ltb_spec (trigger_time a) (trigger_time b));
        destruct (Z.ltb_spec (trigger_time b) (trigger_time a));
        (split; [lia|]); (split; [intros H1 | intros (_ & _ & H1)]);
        first [lia | split_and!; first [done | lia]].
    + split; [done|]. split; [done | intros (_ & H1 & _); discriminate H1].
    + split; [done|]. split; [done | intros (H1 & _); discriminate H1].
    + specialize (Htwo eq_refl eq_refl). lia.
  - intros Ha Hb. split; [by apply Htwo|]. unfold sort_actions_compare. by rewrite Ha, Hb.
  - intros c Hab Hbc. by apply (compare_le_transitive a b c).
Qed.

(** The actions of -l 28 -a l5 -s 28 -a s before they are sorted. *)
Lemma sort_actions_compare_consistent_witness :
  sort_actions_compare (Action LONG_PRESS 5000 (Some "l5")) (Action SHORT_PRESS 1000 (Some "s"))
  = - sort_actions_compare (Action SHORT_PRESS 1000 (Some "s"))
        (Action LONG_PRESS 5000 (Some "l5")).
Proof.
  destruct (sort_actions_compare_consistent
    [Action LONG_PRESS 5000 (Some "l5"); Action SHORT_PRESS 1000 (Some "s")] 0 1
    (Action LONG_PRESS 5000 (Some "l5")) (Action SHORT_PRESS 1000 (Some "s")))
    as (H & _ & _).
  - discriminate.
  - reflexivity.
  - reflexivity.
  - destruct H as [H _]; [vm_compute; lia | exact H].
Defined.

(** *** The two revisions of [handle_key] *)

(** X19: the two revisions of the key state machine side by side.  On a
    key that satisfies the invariant of C10 they return the same key for
    every record but two: the release of a pressed key, where only the
    debounce deadline differs, and a press during debounce of a key whose
    last action is a short one, where the earlier revision leaves the
    debounce wakeup armed on the pressed key and the current one clears
    it. *)
Theorem handle_key_revisions (now : timespec) (event : input_event) (k : key) :
  key_inv k →
  (¬ (state k = KEY_PRESSED ∧ ev_value event = 0) →
   ¬ (state k = KEY_DEBOUNCE ∧ ev_value event ≠ 0
      ∧ ∃ a, last_action k = Some a ∧ a_type a = SHORT_PRESS) →
   handle_key_old event k = handle_key now event k)
  ∧ (state k = KEY_PRESSED → ev_value event = 0 →
     ∀ ts, set_ts_wakeup ts <$> handle_key_old event k
           = set_ts_wakeup ts <$> handle_key now event k)
  ∧ (∀ a, state k = KEY_DEBOUNCE → ev_value event ≠ 0 →
          last_action k = Some a → a_type a = SHORT_PRESS →
          handle_key_old event k = Some (set_state KEY_PRESSED k)
          ∧ has_wakeup (set_state KEY_PRESSED k) = true
          ∧ handle_key now event k = Some (set_has_wakeup false (set_state KEY_PRESSED k))).
Proof.
  intros [Hd Hr].
  assert (Hl : ∀ k1, actions k1 = actions k → last_action k1 = last_action k).
  { intros k1 H1. unfold last_action, action_count. by rewrite H1. }
  split_and!.
  - intros Hrel Hbounce. unfold handle_key_old, handle_key.
    destruct (state k) eqn:Hs; destruct (Z.eqb_spec (ev_value event) 0) as [Hv | Hv];
      cbn [negb]; try done.
    + rewrite !Hl by done. destruct (last_action k) as [a|]; [|done].
      destruct (a_type a); [done|]. pose proof (Hr (or_introl eq_refl)) as Hw.
      unfold set_has_wakeup, set_state, set_tv_pressed. cbn [code has_wakeup actions
        tv_pressed tv_released ts_wakeup state]. by rewrite Hw.
    + by destruct Hrel.
    + rewrite !Hl by done. destruct (last_action k) as [a|] eqn:Hla; [|done].
      destruct (a_type a) eqn:Ha; [done|]. destruct Hbounce. split_and!; [done..|].
      by exists a.
  - intros Hs Hv ts. unfold handle_key_old, handle_key. rewrite Hs.
    apply Z.eqb_eq in Hv. rewrite Hv. done.
  - intros a Hs Hv Hla Ha. unfold handle_key_old, handle_key. rewrite Hs.
    apply Z.eqb_neq in Hv. rewrite Hv.
    rewrite !Hl by done. rewrite Hla, Ha. split_and!; [done | by apply Hd | done].
Qed.

(** A press of a released key with a long action. *)
Lemma handle_key_revisions_witness :
  handle_key_old (InputEvent (Timeval 100 0) 1 28 1)
    (Key 28 false [Action LONG_PRESS 5000 (Some "l")] (Timeval 0 0) (Timeval 0 0)
       (Timespec 0 0) KEY_RELEASED)
  = handle_key (Timespec 100 50000) (InputEvent (Timeval 100 0) 1 28 1)
      (Key 28 false [Action LONG_PRESS 5000 (Some "l")] (Timeval 0 0) (Timeval 0 0)
         (Timespec 0 0) KEY_RELEASED).
Proof.
  destruct (handle_key_revisions (Timespec 100 50000) (InputEvent (Timeval 100 0) 1 28 1)
    (Key 28 false [Action LONG_PRESS 5000 (Some "l")] (Timeval 0 0) (Timeval 0 0)
       (Timespec 0 0) KEY_RELEASED)) as (H & _ & _).
  - split; [discriminate | done].
  - apply H.
    + intros [H1 _]. discriminate H1.
    + intros [H1 _]. discriminate H1.
Defined.
